(** * Resumable batch import: checkpoint store, retry executor, orchestrator

    A shallow embedding of [src/utils/recoverySystem.js] (class
    [RecoverySystem]) and of the checkpointing [ImportManager.import] that
    drives it.  JavaScript promises are run to completion one after the
    other, so an [async] method is a state transformer that either returns
    or throws; the state is the part of the outside world the code touches:
    the checkpoint directory, the clock, the logger output and the remote
    document store. *)

From Stdlib Require Import ZArith QArith Qcanon String Ascii List Lia.
From Stdlib Require Import DecimalString DecimalFacts DecimalNat.
From stdpp Require Import base option list gmap strings sorting.

Local Open Scope Z_scope.

(** ** JavaScript values the code relies on *)

(** An [Error] object; the code only ever reads [error.message]. *)
Record JsError := mkError { message : string }.

(** How an awaited call ends.  [Diverge] is only produced by the batch loop
    when it runs out of fuel (see [importLoop]); [catch] never sees it. *)
Inductive Completion (A : Type) :=
| Ok (a : A)
| Throw (e : JsError)
| Diverge.
Arguments Ok {A} a.
Arguments Throw {A} e.
Arguments Diverge {A}.

(** Computations over a state [St]. *)
Definition M (St A : Type) : Type := St -> Completion A * St.

Definition ret {St A} (a : A) : M St A := fun s => (Ok a, s).
Definition throw {St A} (e : JsError) : M St A := fun s => (Throw e, s).
Definition bind {St A B} (m : M St A) (k : A -> M St B) : M St B :=
  fun s => match m s with
           | (Ok a, s') => k a s'
           | (Throw e, s') => (Throw e, s')
           | (Diverge, s') => (Diverge, s')
           end.

(** [try { body } catch (error) { handler }] *)
Definition try_catch {St A} (body : M St A) (handler : JsError -> M St A) : M St A :=
  fun s => match body s with
           | (Throw e, s') => handler e s'
           | r => r
           end.

Definition get {St} : M St St := fun s => (Ok s, s).
Definition modify {St} (f : St -> St) : M St unit := fun s => (Ok tt, f s).

(** Sequencing is written [x ← c; k] and [c;; k]. *)
#[export] Instance M_ret {St} : MRet (M St) := fun _ a => ret a.
#[export] Instance M_bind {St} : MBind (M St) := fun _ _ k m => bind m k.

(** ** Strings *)

(** [String(n)] for a non-negative integer. *)
Definition string_of_nat (n : nat) : string :=
  NilEmpty.string_of_uint (Nat.to_uint n).

(** [s.replace(/[:.]/g, '-')] *)
Fixpoint replace_colon_dot (s : string) : string :=
  match s with
  | EmptyString => EmptyString
  | String c s' =>
      String (if (Ascii.eqb c ":" || Ascii.eqb c ".")%bool then "-"%char else c)
             (replace_colon_dot s')
  end.

(** [\d]: an ASCII decimal digit. *)
Definition is_digit (c : ascii) : bool :=
  ((48 <=? nat_of_ascii c)%nat && (nat_of_ascii c <=? 57)%nat)%bool.

(** The longest prefix of digits and what follows it. *)
Fixpoint span_digits (s : string) : string * string :=
  match s with
  | String c s' =>
      if is_digit c
      then let (ds, rest) := span_digits s' in (String c ds, rest)
      else (EmptyString, s)
  | EmptyString => (EmptyString, EmptyString)
  end.

(** [maxAge.match(/^(\d+)([dw])$/)]: the two capture groups, or [None] for
    the [null] of a failed match.  Neither [d] nor [w] is a digit, so the
    greedy [\d+] never has to give a character back. *)
Definition match_maxAge (maxAge : string) : option (string * ascii) :=
  match span_digits maxAge with
  | (String c ds, String u EmptyString) =>
      if (Ascii.eqb u "d" || Ascii.eqb u "w")%bool
      then Some (String c ds, u) else None
  | _ => None
  end.

(** [parseInt(value)] on a string of decimal digits (exact; a JavaScript
    number agrees with it up to 2^53). *)
Fixpoint parseInt_acc (acc : Z) (value : string) : Z :=
  match value with
  | EmptyString => acc
  | String c s' => parseInt_acc (10 * acc + (Z.of_nat (nat_of_ascii c) - 48)) s'
  end.
Definition parseInt (value : string) : Z := parseInt_acc 0 value.

(** [path.join(dir, name)] for a directory without trailing separator and
    a plain name. *)
Definition path_join (dir name : string) : string := dir +:+ "/" +:+ name.

(** [path.basename(p)]: what follows the last separator. *)
Fixpoint path_basename_acc (acc p : string) : string :=
  match p with
  | EmptyString => acc
  | String c p' =>
      if Ascii.eqb c "/" then path_basename_acc EmptyString p'
      else path_basename_acc (acc +:+ String c EmptyString) p'
  end.
Definition path_basename (p : string) : string := path_basename_acc EmptyString p.

(** [s.startsWith(p) ? s.slice(p.length) : undefined] *)
Fixpoint strip_prefix (p s : string) : option string :=
  match p, s with
  | EmptyString, _ => Some s
  | String a p', String b s' => if Ascii.eqb a b then strip_prefix p' s' else None
  | String _ _, EmptyString => None
  end.

Fixpoint has_separator (s : string) : bool :=
  match s with
  | EmptyString => false
  | String c s' => (Ascii.eqb c "/" || has_separator s')%bool
  end.

(** [Array.prototype.sort] without a comparator orders strings by code
    unit, a proper prefix first: [String.le] (file names are ASCII). *)
Definition js_sort (l : list string) : list string := merge_sort String.le l.

(** ** The outside world *)

Inductive Level := Info | Warn | Err.

(** Values that appear in the metadata object of a log call. *)
#[warnings="-register-all"]
Inductive Meta :=
| MStr (s : string)
| MNum (z : Z)
| MRat (q : Q)
| MObj (fields : list (string * Meta))
| MUndefined.

(** What the run does that an observer can see besides the files: log
    calls and timer waits, oldest first. *)
Inductive Event :=
| Log (level : Level) (msg : string) (meta : list (string * Meta))
| Sleep (ms : Z).

(** A file. *)
Record File := mkFile {
  f_data : string;      (* its text *)
  f_readable : bool;    (* [fs.readFile] succeeds *)
  f_mtime : Z           (* [stats.mtime.getTime()] *)
}.

Section Recovery.

(** The remote document store and whatever else the retried operations
    touch ([Sink]), the records being imported ([Item]) and the documents
    validation makes of them ([Doc]); all opaque to the code, which only
    counts and slices the records. *)
Context {Sink Item Doc : Type}.

Record World := mkWorld {
  files : gmap string File;  (* the file system, by full path *)
  listable : bool;           (* [fs.readdir] and [fs.stat] succeed *)
  writable : bool;           (* [fs.writeFile] and [fs.unlink] succeed *)
  now : Z;                   (* [Date.now()], milliseconds *)
  trace : list Event;
  sink : Sink
}.

Definition set_files (f : gmap string File -> gmap string File) (w : World) : World :=
  mkWorld (f (files w)) (listable w) (writable w) (now w) (trace w) (sink w).
Definition set_now (f : Z -> Z) (w : World) : World :=
  mkWorld (files w) (listable w) (writable w) (f (now w)) (trace w) (sink w).
Definition set_trace (f : list Event -> list Event) (w : World) : World :=
  mkWorld (files w) (listable w) (writable w) (now w) (f (trace w)) (sink w).
Definition set_sink (f : Sink -> Sink) (w : World) : World :=
  mkWorld (files w) (listable w) (writable w) (now w) (trace w) (f (sink w)).

(** [logger.info / warn / error]: the call is recorded in [trace].  The
    log files that the transports of [utils/logger.js] write are not part of
    [files]. *)
Definition logger (level : Level) (msg : string) (meta : list (string * Meta)) : M World unit :=
  modify (set_trace (fun t => t ++ [Log level msg meta])).

(** [await new Promise(resolve => setTimeout(resolve, ms))]: the clock moves
    on by the requested delay. *)
Definition sleep (ms : Z) : M World unit :=
  modify (fun w => set_now (fun t => t + ms) (set_trace (fun t => t ++ [Sleep ms]) w)).

(** An operation that only touches the sink. *)
Definition liftSink {A} (op : Sink -> Completion A * Sink) : M World A :=
  fun w => let (r, s') := op (sink w) in (r, set_sink (fun _ => s') w).

(** *** [fs/promises] *)

(** [fs.readdir(dir)]: the names of the files directly under [dir].  A
    subdirectory of [dir] shows in [files] only through the paths below it
    and is not listed: the statements that depend on what the listing holds
    are about directories without such subdirectories (see
    [noSubdirectory]). *)
Definition dir_entry (dir path : string) : option string :=
  match strip_prefix (dir +:+ "/") path with
  | Some name => if has_separator name then None else Some name
  | None => None
  end.

Definition fs_readdir (dir : string) : M World (list string) :=
  fun w => if listable w
           then (Ok (omap (dir_entry dir) (elements (dom (files w)))), w)
           else (Throw (mkError "ENOENT: no such file or directory, scandir"), w).

Definition fs_readFile (path : string) : M World string :=
  fun w => match files w !! path with
           | Some f => if f_readable f then (Ok (f_data f), w)
                       else (Throw (mkError "EACCES: permission denied, open"), w)
           | None => (Throw (mkError "ENOENT: no such file or directory, open"), w)
           end.

Definition fs_writeFile (path data : string) : M World unit :=
  fun w => if writable w
           then (Ok tt, set_files (fun m => <[path := mkFile data true (now w)]> m) w)
           else (Throw (mkError "EACCES: permission denied, open"), w).

Definition fs_stat (path : string) : M World File :=
  fun w => match files w !! path with
           | Some f => if listable w then (Ok f, w)
                       else (Throw (mkError "EACCES: permission denied, stat"), w)
           | None => (Throw (mkError "ENOENT: no such file or directory, stat"), w)
           end.

Definition fs_unlink (path : string) : M World unit :=
  fun w => match files w !! path with
           | Some _ => if writable w then (Ok tt, set_files (delete path) w)
                       else (Throw (mkError "EACCES: permission denied, unlink"), w)
           | None => (Throw (mkError "ENOENT: no such file or directory, unlink"), w)
           end.

(** ** [class RecoverySystem] *)

Record Checkpoint := mkCheckpoint {
  timestamp : string;
  ctype : string;                 (* [type] *)
  progress : nat;
  remainingData : list Item;
  processedCount : nat;
  totalCount : nat
}.

(** What [JSON.parse] returns for the text of a stored checkpoint, as far
    as the code looks at it ([null] is [None], see [Parse]): an object with
    the properties of a checkpoint, as [saveCheckpoint] writes it, or another
    value on which the four properties [import] reads ([progress],
    [totalCount], [remainingData], [processedCount]) are all undefined, with
    its truthiness: an empty object, an array, [true] and the non-zero
    numbers and non-empty strings are truthy; [false], [0] and the empty
    string are not.  Objects that have some of the four properties without
    being a checkpoint are left out. *)
Inductive Json :=
| JsonCheckpoint (checkpoint : Checkpoint)
| JsonPlain (truthy : bool).

(** How [JSON.parse(content)] ends: with a value, or with a [SyntaxError]
    and its message when [content] is not a JSON text. *)
Inductive Parse :=
| Parsed (value : option Json)
| SyntaxError (message : string).

Record RecoverySystem := mkRecoverySystem {
  checkpointDir : string;
  maxRetries : nat;
  retryDelay : Z
}.

(** An importer ([categoryImporter], [listingImporter]) as the manager
    uses it: [validate(item)], and the retried closure
    [createTransaction(); forEach(create); commit()] as one operation on the
    sink. *)
Record Importer := mkImporter {
  validate : Item -> Completion Doc;
  commitTransaction : list Doc -> Sink -> Completion unit * Sink
}.

(** What the code closes over: built-ins, module singletons, configuration. *)
Record Env := mkEnv {
  JSON_stringify : Checkpoint -> string;         (* [JSON.stringify(c, null, 2)] *)
  JSON_parse : string -> Parse;                  (* [JSON.parse(content)] *)
  toISOString : Z -> string;                     (* [new Date(ms).toISOString()] *)
  transform : string -> string -> Completion (list Item);
                                                 (* [transformer.transform(inputPath, type)] *)
  categoryImporter : Importer;
  listingImporter : Importer;
  batchSize : nat;                               (* [config.get().import.batchSize] *)
  recoverySystem : RecoverySystem                (* the exported singleton *)
}.

Context (env : Env).

(** [constructor()], for the working directory [cwd]. *)
Definition new_RecoverySystem (cwd : string) : RecoverySystem :=
  {| checkpointDir := path_join cwd "checkpoints";
     maxRetries := 3;
     retryDelay := 1000 |}.

(** [fs.mkdir(checkpointDir, { recursive: true })]: the directory is there
    afterwards; directories themselves are not stored in [files]. *)
Definition initialize (this : RecoverySystem) : M World unit := ret tt.

Definition checkpointName (type timestamp : string) : string :=
  "checkpoint_" +:+ type +:+ "_" +:+ timestamp +:+ ".json".

Definition generateCheckpointFilename (this : RecoverySystem) (type timestamp : string) : string :=
  path_join (checkpointDir this) (checkpointName type timestamp).

Definition saveCheckpoint (this : RecoverySystem) (type : string) (data : list Item)
    (progress : nat) : M World string :=
  try_catch
    (w ← get;
     let timestamp := replace_colon_dot (toISOString env (now w)) in
     let filename := generateCheckpointFilename this type timestamp in
     let checkpoint :=
       {| timestamp := timestamp;
          ctype := type;
          progress := progress;
          remainingData := drop progress data;
          processedCount := progress;
          totalCount := length data |} in
     fs_writeFile filename (JSON_stringify env checkpoint);;
     logger Info "Checkpoint saved"
       [("type", MStr type); ("progress", MNum (Z.of_nat progress));
        ("filename", MStr (path_basename filename))];;
     mret filename)
    (fun error =>
     logger Err "Failed to save checkpoint" [("error", MStr (message error))];;
     throw error).

(** The prefix [`checkpoint_${type}_`]. *)
Definition checkpointPrefix (type : string) : string := "checkpoint_" +:+ type +:+ "_".

Definition loadLatestCheckpoint (this : RecoverySystem) (type : string)
    : M World (option Json) :=
  try_catch
    (files ← fs_readdir (checkpointDir this);
     let checkpointFiles :=
       reverse (js_sort (List.filter (fun file => String.prefix (checkpointPrefix type) file) files)) in
     match checkpointFiles with
     | [] => mret None
     | file0 :: _ =>
         let latestFile := path_join (checkpointDir this) file0 in
         content ← fs_readFile latestFile;
         match JSON_parse env content with
         | Parsed value => mret value
         | SyntaxError message => throw (mkError message)
         end
     end)
    (fun error =>
     logger Err "Failed to load checkpoint" [("error", MStr (message error))];;
     throw error).

Definition parseMaxAge (maxAge : string) : Completion Z :=
  let units (unit : ascii) : Z :=
    if Ascii.eqb unit "d" then 24 * 60 * 60 * 1000 else 7 * 24 * 60 * 60 * 1000 in
  match match_maxAge maxAge with
  | None => Throw (mkError "Invalid maxAge format. Use format: 7d or 1w")
  | Some (value, unit) => Ok (parseInt value * units unit)
  end.

(** A synchronous call that may throw, inside an [async] method. *)
Definition liftC {St A} (c : Completion A) : M St A := fun s => (c, s).

(** The body of [for (const file of files)], then the rest of the loop. *)
Fixpoint cleanLoop (this : RecoverySystem) (type : string) (now maxAgeMs : Z)
    (files : list string) : M World unit :=
  match files with
  | [] => mret tt
  | file :: rest =>
      if negb (String.prefix (checkpointPrefix type) file)
      then cleanLoop this type now maxAgeMs rest
      else
        let filePath := path_join (checkpointDir this) file in
        stats ← fs_stat filePath;
        (if now - f_mtime stats >? maxAgeMs
         then fs_unlink filePath;;
              logger Info "Removed old checkpoint" [("file", MStr file)]
         else mret tt);;
        cleanLoop this type now maxAgeMs rest
  end.

Definition cleanOldCheckpoints (this : RecoverySystem) (type maxAge : string) : M World unit :=
  try_catch
    (files ← fs_readdir (checkpointDir this);
     w ← get;
     let now := now w in
     maxAgeMs ← liftC (parseMaxAge maxAge);
     cleanLoop this type now maxAgeMs files)
    (fun error =>
     logger Err "Failed to clean old checkpoints" [("error", MStr (message error))]).

(** [for (let attempt = 1; attempt <= this.maxRetries; attempt++)], with
    [remaining = maxRetries + 1 - attempt] iterations still allowed, and
    the [throw] after the loop.  [lastError] is [None] while undefined:
    reading [.message] from it is a [TypeError]. *)
Fixpoint retryLoop {A} (this : RecoverySystem) (operation : M World A)
    (context : list (string * Meta)) (remaining attempt : nat)
    (lastError : option JsError) : M World A :=
  match remaining with
  | O =>
      match lastError with
      | Some e =>
          throw (mkError ("Operation failed after " +:+ string_of_nat (maxRetries this)
                          +:+ " attempts: " +:+ message e))
      | None => throw (mkError "Cannot read properties of undefined (reading 'message')")
      end
  | S remaining' =>
      try_catch operation
        (fun error =>
         logger Warn "Operation failed, retrying"
           [("attempt", MNum (Z.of_nat attempt));
            ("maxRetries", MNum (Z.of_nat (maxRetries this)));
            ("error", MStr (message error));
            ("context", MObj context)];;
         (if (attempt <? maxRetries this)%nat
          then sleep (retryDelay this * Z.of_nat attempt)
          else mret tt);;
         retryLoop this operation context remaining' (S attempt) (Some error))
  end.

Definition retryOperation {A} (this : RecoverySystem) (operation : M World A)
    (context : list (string * Meta)) : M World A :=
  retryLoop this operation context (maxRetries this) 1%nat None.

(** ** [class ImportManager] *)

Record ImportManager := mkImportManager {
  supportedTypes : list string;
  checkpointInterval : nat
}.

Definition new_ImportManager : ImportManager :=
  {| supportedTypes := ["category"; "listing"];
     checkpointInterval := 50 |}.

Record Options := mkOptions {
  resume : bool;
  continueOnError : bool
}.

(** An entry of [results.errors]. *)
Record ImportError := mkImportError {
  batch : Q;
  error : string;
  items : list Item
}.

Record Results := mkResults {
  success : nat;
  failed : nat;
  errors : list ImportError;
  checkpoints : list string
}.

(** [i / importConfig.batchSize]: the exact quotient in lowest terms, which
    the JavaScript number equals whenever the division comes out even
    (batch size at least 1; the [Infinity] and [NaN] of a batch size of 0 are
    not represented). *)
Definition js_div (i b : nat) : Q := Qred (Z.of_nat i # Pos.of_nat b).

Definition getImporter (type : string) : Completion Importer :=
  if String.eqb type "category" then Ok (categoryImporter env)
  else if String.eqb type "listing" then Ok (listingImporter env)
  else Throw (mkError ("No importer found for type: " +:+ type)).

(** [await Promise.all(promises)] over calls that have all been started:
    the values in order, or a rejection.  When several calls reject, the
    rejection is the one that comes first in time; here that is taken to be
    the one of the lowest index. *)
Fixpoint Promise_all {A} (promises : list (Completion A)) : Completion (list A) :=
  match promises with
  | [] => Ok []
  | Ok a :: rest =>
      match Promise_all rest with
      | Ok l => Ok (a :: l)
      | Throw e => Throw e
      | Diverge => Diverge
      end
  | Throw e :: _ => Throw e
  | Diverge :: _ => Diverge
  end.

(** Inside [import] the mutable [results] object lives next to the world:
    what the [try] block has added to it before throwing is still there in
    the [catch] block. *)
Definition liftW {A} (m : M World A) : M (World * Results) A :=
  fun '(w, r) => let (c, w') := m w in (c, (w', r)).
Definition modifyResults (f : Results -> Results) : M (World * Results) unit :=
  modify (fun '(w, r) => (w, f r)).
Definition getResults : M (World * Results) Results :=
  fun '(w, r) => (Ok r, (w, r)).

(** [transformedData.slice(i, i + batchSize)] *)
Definition slice (data : list Item) (i j : nat) : list Item := take (j - i) (drop i data).

(** One iteration of the batch loop, at index [i]. *)
Definition processBatch (this : ImportManager) (type : string) (options : Options)
    (importer : Importer) (transformedData : list Item) (i : nat)
    : M (World * Results) unit :=
  let batch := slice transformedData i (i + batchSize env) in
  try_catch
    (validatedBatch ← liftC (Promise_all (map (validate importer) batch));
     liftW (retryOperation (recoverySystem env)
              (liftSink (commitTransaction importer validatedBatch))
              [("batch", MRat (js_div i (batchSize env))); ("type", MStr type)]);;
     modifyResults (fun r =>
       mkResults (success r + length batch) (failed r) (errors r) (checkpoints r));;
     if ((0 <? i)%nat && (i mod checkpointInterval this =? 0)%nat)%bool
     then
       checkpointFile ← liftW (saveCheckpoint (recoverySystem env) type transformedData
                                 (i + length batch));
       modifyResults (fun r =>
         mkResults (success r) (failed r) (errors r) (checkpoints r ++ [checkpointFile]))
     else mret tt)
    (fun error =>
     modifyResults (fun r =>
       mkResults (success r) (failed r + length batch)
         (errors r ++ [{| batch := js_div i (batchSize env);
                          error := message error;
                          items := batch |}])
         (checkpoints r));;
     (if negb (continueOnError options) then throw error else mret tt);;
     liftW (logger Err "Batch failed, continuing with next batch"
              [("batch", MRat (js_div i (batchSize env)));
               ("error", MStr (message error))]));;
  results ← getResults;
  liftW (logger Info "Import progress"
           [("processed", MNum (Z.of_nat (i + length batch)));
            ("total", MNum (Z.of_nat (length transformedData)));
            ("success", MNum (Z.of_nat (success results)));
            ("failed", MNum (Z.of_nat (failed results)))]).

(** [for (let i = startIndex; i < transformedData.length; i += batchSize)].
    With a batch size of 0 the loop never ends; [fuel] bounds the number of
    iterations and the loop is [Diverge] when it is used up. *)
Fixpoint importLoop (this : ImportManager) (type : string) (options : Options)
    (importer : Importer) (transformedData : list Item) (fuel i : nat)
    : M (World * Results) unit :=
  if (i <? length transformedData)%nat then
    match fuel with
    | O => fun s => (Diverge, s)
    | S fuel' =>
        processBatch this type options importer transformedData i;;
        importLoop this type options importer transformedData fuel' (i + batchSize env)
    end
  else mret tt.

(** Run a block that owns a fresh [results] object; on a throw the object
    is lost with the stack frame. *)
Definition withResults {A} (r0 : Results) (m : M (World * Results) A) : M World (A * Results) :=
  fun w => match m (w, r0) with
           | (Ok a, (w', r)) => (Ok (a, r), w')
           | (Throw e, (w', _)) => (Throw e, w')
           | (Diverge, (w', _)) => (Diverge, w')
           end.

(** [import(inputPath, type, options)].  Every iteration moves [i] on by
    the batch size, so [transformedData.length] iterations are enough
    whenever the batch size is at least 1.  [startIndex] is [None] when it
    is undefined: [undefined < transformedData.length] is false and the loop
    body never runs. *)
Definition import (this : ImportManager) (inputPath type : string) (options : Options)
    : M World Results :=
  try_catch
    (initialize (recoverySystem env);;
     '(startIndex, resumed) ←
       (if resume options
        then
          checkpoint ← loadLatestCheckpoint (recoverySystem env) type;
          match checkpoint with
          | Some (JsonCheckpoint checkpoint) =>
              logger Info "Resuming from checkpoint"
                [("progress", MNum (Z.of_nat (progress checkpoint)));
                 ("total", MNum (Z.of_nat (totalCount checkpoint)))];;
              mret (Some (processedCount checkpoint), Some (remainingData checkpoint))
          | Some (JsonPlain true) =>
              logger Info "Resuming from checkpoint"
                [("progress", MUndefined); ("total", MUndefined)];;
              mret (None, None)
          | Some (JsonPlain false) | None => mret (Some 0%nat, None)
          end
        else mret (Some 0%nat, None));
     transformedData ←
       match resumed with
       | Some data => mret data
       | None => liftC (transform env inputPath type)
       end;
     importer ← liftC (getImporter type);
     '(_, results) ←
       withResults (mkResults 0 0 [] [])
         (match startIndex with
          | Some startIndex =>
              importLoop this type options importer transformedData
                (length transformedData) startIndex
          | None => mret tt
          end);
     cleanOldCheckpoints (recoverySystem env) type "7d";;
     mret results)
    (fun error =>
     logger Err "Import failed"
       [("error", MStr (message error)); ("type", MStr type);
        ("inputPath", MStr inputPath)];;
     throw error).

End Recovery.

(** ** A concrete instance to run the code on

    Records and documents are numbers; a record validates unless it is 1000
    or more; the sink keeps the committed documents and a number of
    transport failures still to come. *)
Module Demo.

Record DemoSink := mkSink {
  committed : list nat;
  outages : nat
}.

Definition demo_validate (item : nat) : Completion nat :=
  if (item <? 1000)%nat then Ok item
  else Throw (mkError "title is required").

Definition demo_commit (docs : list nat) (s : DemoSink) : Completion unit * DemoSink :=
  match outages s with
  | O => (Ok tt, mkSink (committed s ++ docs) O)
  | S n => (Throw (mkError "Request timed out"), mkSink (committed s) n)
  end.

Definition demo_importer : Importer (Sink := DemoSink) :=
  mkImporter demo_validate demo_commit.

(** Decimal digits of [n], padded with zeros to [width] characters. *)
Definition pad (width : nat) (n : Z) : string :=
  let s := string_of_nat (Z.to_nat n) in
  let s := if String.eqb s EmptyString then "0"%string else s in
  string_of_list_ascii (replicate (width - String.length s) "0"%char) +:+ s.

(** [toISOString] for the years 1970 to 9999 (proleptic Gregorian, UTC). *)
Definition demo_toISOString (ms : Z) : string :=
  let days := ms / 86400000 in
  let rest := ms mod 86400000 in
  let z := days + 719468 in
  let era := z / 146097 in
  let doe := z - era * 146097 in
  let yoe := (doe - doe / 1460 + doe / 36524 - doe / 146096) / 365 in
  let doy := doe - (365 * yoe + yoe / 4 - yoe / 100) in
  let mp := (5 * doy + 2) / 153 in
  let d := doy - (153 * mp + 2) / 5 + 1 in
  let m := if mp <? 10 then mp + 3 else mp - 9 in
  let y := yoe + era * 400 + (if m <=? 2 then 1 else 0) in
  pad 4 y +:+ "-" +:+ pad 2 m +:+ "-" +:+ pad 2 d +:+ "T" +:+
  pad 2 (rest / 3600000) +:+ ":" +:+ pad 2 (rest / 60000 mod 60) +:+ ":" +:+
  pad 2 (rest / 1000 mod 60) +:+ "." +:+ pad 3 (rest mod 1000) +:+ "Z".

(** A compact JSON text of a checkpoint, and a reader for such texts, for
    [null] and for the empty object; it takes every other text for
    malformed. *)
Definition dquote : ascii := ascii_of_nat 34.
Definition quote (s : string) : string := String dquote (s +:+ String dquote EmptyString).

Definition join_nats (l : list nat) : string :=
  String.concat "," (map string_of_nat l).

Definition demo_stringify (c : Checkpoint (Item := nat)) : string :=
  "{" +:+ quote "timestamp" +:+ ":" +:+ quote (timestamp c) +:+ "," +:+
  quote "type" +:+ ":" +:+ quote (ctype c) +:+ "," +:+
  quote "progress" +:+ ":" +:+ string_of_nat (progress c) +:+ "," +:+
  quote "remainingData" +:+ ":[" +:+ join_nats (remainingData c) +:+ "]," +:+
  quote "processedCount" +:+ ":" +:+ string_of_nat (processedCount c) +:+ "," +:+
  quote "totalCount" +:+ ":" +:+ string_of_nat (totalCount c) +:+ "}".

(** Characters up to the next double quote, and what follows that quote. *)
Fixpoint read_until_quote (s : string) : option (string * string) :=
  match s with
  | EmptyString => None
  | String c s' =>
      if Ascii.eqb c dquote then Some (EmptyString, s')
      else match read_until_quote s' with
           | Some (a, rest) => Some (String c a, rest)
           | None => None
           end
  end.

Definition read_nat (s : string) : option (nat * string) :=
  match span_digits s with
  | (String c ds, rest) => Some (Z.to_nat (parseInt (String c ds)), rest)
  | _ => None
  end.

Fixpoint read_nats (fuel : nat) (s : string) : option (list nat * string) :=
  match fuel with
  | O => None
  | S fuel' =>
      match read_nat s with
      | Some (n, String "," rest) =>
          match read_nats fuel' rest with
          | Some (l, rest') => Some (n :: l, rest')
          | None => None
          end
      | Some (n, String "]" rest) => Some ([n], rest)
      | _ => None
      end
  end.

Definition read_array (s : string) : option (list nat * string) :=
  match s with
  | String "]" rest => Some ([], rest)
  | _ => read_nats (String.length s) s
  end.

Definition read_checkpoint (s : string) : option (Checkpoint (Item := nat)) :=
  s ← strip_prefix ("{" +:+ quote "timestamp" +:+ ":" +:+ String dquote EmptyString) s;
  '(ts, s) ← read_until_quote s;
  s ← strip_prefix ("," +:+ quote "type" +:+ ":" +:+ String dquote EmptyString) s;
  '(ty, s) ← read_until_quote s;
  s ← strip_prefix ("," +:+ quote "progress" +:+ ":") s;
  '(pr, s) ← read_nat s;
  s ← strip_prefix ("," +:+ quote "remainingData" +:+ ":[") s;
  '(data, s) ← read_array s;
  s ← strip_prefix ("," +:+ quote "processedCount" +:+ ":") s;
  '(pc, s) ← read_nat s;
  s ← strip_prefix ("," +:+ quote "totalCount" +:+ ":") s;
  '(tc, s) ← read_nat s;
  if String.eqb s "}" then Some (mkCheckpoint ts ty pr data pc tc) else None.

Definition demo_parse (s : string) : Parse (Item := nat) :=
  if String.eqb s "null" then Parsed None
  else if String.eqb s "{}" then Parsed (Some (JsonPlain true))
  else match read_checkpoint s with
       | Some checkpoint => Parsed (Some (JsonCheckpoint checkpoint))
       | None => SyntaxError "Unexpected token in JSON"
       end.

(** The tool started in [/app] with the given batch size. *)
Definition demo_env (batchSize : nat) : Env (Sink := DemoSink) :=
  {| JSON_stringify := demo_stringify;
     JSON_parse := demo_parse;
     toISOString := demo_toISOString;
     transform := fun inputPath type =>
       if String.eqb inputPath "records-100.json" then Ok (seq 0 100)
       else if String.eqb inputPath "records-120.json" then Ok (seq 0 120)
       else if String.eqb inputPath "records-bad-tail.json"
            then Ok (seq 0 100 ++ seq 1000 20)
       else Throw (mkError "Failed to load file");
     categoryImporter := demo_importer;
     listingImporter := demo_importer;
     batchSize := batchSize;
     recoverySystem := new_RecoverySystem "/app" |}.

(** 2024-01-01T00:00:00.000Z *)
Definition t0 : Z := 1704067200000.

(** An empty, writable checkpoint directory and a healthy sink. *)
Definition fresh_world : World (Sink := DemoSink) :=
  mkWorld ∅ true true t0 [] (mkSink [] 0).

(** The same with a checkpoint directory that cannot be written to. *)
Definition readonly_world : World (Sink := DemoSink) :=
  mkWorld ∅ true false t0 [] (mkSink [] 0).

(** A sink with [n] transport failures ahead and a counter of invocations. *)
Definition flaky_world (n : nat) : World (Sink := DemoSink * nat) :=
  mkWorld ∅ true true t0 [] (mkSink [] n, 0%nat).

(** The checkpoint of the resume scenario: 50 of 120 records processed,
    the other 70 remaining. *)
Definition cp50 : Checkpoint (Item := nat) :=
  mkCheckpoint "2024-01-01T00-00-00-000Z" "listing" 50 (seq 50 70) 50 120.

Definition cp50_name : string := "checkpoint_listing_2024-01-01T00-00-00-000Z.json".

(** A minute after that checkpoint was written: records 0 to 49 are in the
    sink and the checkpoint is the only file. *)
Definition crashed_world : World (Sink := DemoSink) :=
  mkWorld {[ path_join "/app/checkpoints" cp50_name := mkFile (demo_stringify cp50) true t0 ]}
    true true (t0 + 60000) [] (mkSink (seq 0 50) 0).

(** A directory with more in it: an older listing checkpoint, a category
    checkpoint, a file in a subdirectory and a file of something else. *)
Definition busy_world : World (Sink := DemoSink) :=
  mkWorld
    {[ path_join "/app/checkpoints" cp50_name := mkFile (demo_stringify cp50) true t0;
       path_join "/app/checkpoints" "checkpoint_listing_2023-12-01T00-00-00-000Z.json" :=
         mkFile "{}" true (t0 - 31 * 86400000);
       path_join "/app/checkpoints" "checkpoint_category_2024-02-01T00-00-00-000Z.json" :=
         mkFile "{}" true (t0 + 31 * 86400000);
       path_join "/app/checkpoints" "old/checkpoint_listing_2025-01-01T00-00-00-000Z.json" :=
         mkFile "{}" true t0;
       path_join "/app/checkpoints" "notes.txt" := mkFile "keep" true 0 ]}
    true true (t0 + 60000) [] (mkSink (seq 0 50) 0).

End Demo.

(** ** Vocabulary of the statements *)

(** The outcomes of [n] successive invocations of [op] from the state [s],
    and the state they leave. *)
Fixpoint invocations {St A} (op : St -> Completion A * St) (n : nat) (s : St)
    : list (Completion A) * St :=
  match n with
  | O => ([], s)
  | S n' =>
      let (r, s1) := op s in
      let (rs, s2) := invocations op n' s1 in
      (r :: rs, s2)
  end.

(** [op] with a counter of its invocations next to its state. *)
Definition counted {St A} (op : St -> Completion A * St)
    : St * nat -> Completion A * (St * nat) :=
  fun '(s, n) => let (r, s') := op s in (r, (s', S n)).

(** The timer waits of a trace, in order. *)
Fixpoint sleeps (t : list Event) : list Z :=
  match t with
  | [] => []
  | Sleep ms :: t' => ms :: sleeps t'
  | Log _ _ _ :: t' => sleeps t'
  end.

(** The world after attempt number [attempt] of a retried operation has
    failed with [e] and left the sink as [s']: the warning, and the wait
    when another attempt follows. *)
Definition afterFailure {St} (this : RecoverySystem) (context : list (string * Meta))
    (attempt : nat) (e : JsError) (s' : St) (w : World (Sink := St * nat))
    : World (Sink := St * nat) :=
  let t := trace w ++
    [Log Warn "Operation failed, retrying"
       [("attempt", MNum (Z.of_nat attempt));
        ("maxRetries", MNum (Z.of_nat (maxRetries this)));
        ("error", MStr (message e));
        ("context", MObj context)]] in
  if (attempt <? maxRetries this)%nat
  then mkWorld (files w) (listable w) (writable w)
         (now w + retryDelay this * Z.of_nat attempt)
         (t ++ [Sleep (retryDelay this * Z.of_nat attempt)]) (s', S (snd (sink w)))
  else mkWorld (files w) (listable w) (writable w) (now w) t (s', S (snd (sink w))).

(** [name] is a file directly under the checkpoint directory whose name
    starts with [`checkpoint_${type}_`]. *)
Definition storedCheckpoint {Sink} (this : RecoverySystem) (type : string)
    (w : World (Sink := Sink)) (name : string) : Prop :=
  is_Some (files w !! path_join (checkpointDir this) name) /\
  has_separator name = false /\
  String.prefix (checkpointPrefix type) name = true.

(** No file lies in a subdirectory of the checkpoint directory whose name
    starts with [`checkpoint_${type}_`]: every path below the directory that
    starts with that prefix is a plain name. *)
Definition noSubdirectory {Sink} (this : RecoverySystem) (type : string)
    (w : World (Sink := Sink)) : bool :=
  forallb
    (fun path =>
       match strip_prefix (checkpointDir this +:+ "/") path with
       | Some rest =>
           implb (String.prefix (checkpointPrefix type) rest) (negb (has_separator rest))
       | None => true
       end)
    (elements (dom (files w))).

(** What pruning may do to a path between two states of the file system:
    leave it as it is, or remove it when it is a checkpoint of [type] older
    than [maxAgeMs] at the time [nw]. *)
Definition pruned {Sink} (this : RecoverySystem) (type : string) (nw maxAgeMs : Z)
    (w w' : World (Sink := Sink)) : Prop :=
  forall path,
    files w' !! path = files w !! path \/
    (files w' !! path = None /\
     exists name f,
       path = path_join (checkpointDir this) name /\
       String.prefix (checkpointPrefix type) name = true /\
       files w !! path = Some f /\
       nw - f_mtime f > maxAgeMs).

(** The collaborator calls of [importer] come back: they return or throw. *)
Definition returning {Sink Item Doc}
    (importer : Importer (Sink := Sink) (Item := Item) (Doc := Doc)) : Prop :=
  (forall item, validate importer item <> Diverge) /\
  (forall docs s, (commitTransaction importer docs s).1 <> Diverge).

(** "Of the form <digits>d or <digits>w": the last character is [d] or [w]
    and what precedes it is a non-empty run of digits. *)
Definition duration_form (maxAge : string) : bool :=
  match rev (list_ascii_of_string maxAge) with
  | u :: d :: ds =>
      ((Ascii.eqb u "d" || Ascii.eqb u "w") && forallb is_digit (d :: ds))%bool
  | _ => false
  end.

(** ** Vocabulary of the further properties *)

(** [s.includes(c)] *)
Fixpoint contains_char (c : ascii) (s : string) : bool :=
  match s with
  | EmptyString => false
  | String x s' => (Ascii.eqb x c || contains_char c s')%bool
  end.

(** The sum of the waits of a run. *)
Definition totalWait (waits : list Z) : Z := foldr Z.add 0 waits.

(** [path] is a checkpoint of [type] in the checkpoint directory and [f],
    the file at [path], is older than [maxAgeMs] at the time [nw]. *)
Definition expired (this : RecoverySystem) (type : string) (nw maxAgeMs : Z)
    (path : string) (f : File) : bool :=
  match dir_entry (checkpointDir this) path with
  | Some name => (String.prefix (checkpointPrefix type) name && (nw - f_mtime f >? maxAgeMs))%bool
  | None => false
  end.

(** The same for the names of a listing only. *)
Definition expiredIn (this : RecoverySystem) (type : string) (nw maxAgeMs : Z)
    (names : list string) (path : string) (f : File) : bool :=
  match dir_entry (checkpointDir this) path with
  | Some name =>
      (bool_decide (name ∈ names) && String.prefix (checkpointPrefix type) name &&
       (nw - f_mtime f >? maxAgeMs))%bool
  | None => false
  end.

(** An importer whose validation depends on the record alone and whose
    commits go through, with the list of the documents committed so far for
    sink: a commit appends the batch.  What a [validate] method may send to
    the store on its own account (the images [ListingImporter.validate]
    uploads) is no part of that list. *)
Definition recordingImporter {Item Doc} (validate : Item -> Completion Doc)
    : Importer (Sink := list Doc) (Item := Item) (Doc := Doc) :=
  mkImporter validate (fun docs s => (Ok tt, s ++ docs)).

(** The batches the loop cuts from [data] when it starts at index [i], each
    with its start index. *)
Fixpoint batchesFrom {Item} (b : nat) (data : list Item) (fuel i : nat)
    : list (nat * list Item) :=
  if (i <? length data)%nat then
    match fuel with
    | O => []
    | S fuel' => (i, slice data i (i + b)) :: batchesFrom b data fuel' (i + b)
    end
  else [].

(** The documents of the batches in which every record validates, and the
    batches in which some record does not, with the error. *)
Fixpoint committedDocs {Item Doc} (validate : Item -> Completion Doc)
    (batches : list (nat * list Item)) : list Doc :=
  match batches with
  | [] => []
  | (_, batch) :: rest =>
      match Promise_all (map validate batch) with
      | Ok docs => docs ++ committedDocs validate rest
      | _ => committedDocs validate rest
      end
  end.

Fixpoint rejectedBatches {Item Doc} (validate : Item -> Completion Doc)
    (batches : list (nat * list Item)) : list (nat * list Item * JsError) :=
  match batches with
  | [] => []
  | (i, batch) :: rest =>
      match Promise_all (map validate batch) with
      | Throw e => (i, batch, e) :: rejectedBatches validate rest
      | _ => rejectedBatches validate rest
      end
  end.

(** The batches that validate and start at a positive multiple of the
    checkpoint interval. *)
Fixpoint checkpointedBatches {Item Doc} (validate : Item -> Completion Doc) (interval : nat)
    (batches : list (nat * list Item)) : list (nat * list Item) :=
  match batches with
  | [] => []
  | (i, batch) :: rest =>
      match Promise_all (map validate batch) with
      | Ok _ =>
          if ((0 <? i)%nat && (i mod interval =? 0)%nat)%bool
          then (i, batch) :: checkpointedBatches validate interval rest
          else checkpointedBatches validate interval rest
      | _ => checkpointedBatches validate interval rest
      end
  end.

(** The batches in which the validation of some record throws. *)
Definition throws {Item Doc} (validate : Item -> Completion Doc) (item : Item) : bool :=
  match validate item with
  | Throw _ => true
  | _ => false
  end.

Definition invalidBatches {Item Doc} (validate : Item -> Completion Doc)
    (batches : list (nat * list Item)) : list (nat * list Item) :=
  List.filter (fun '(_, records) => existsb (throws validate) records) batches.

(** [entry] is an entry of [results.errors] for the batch [rejected]: it has
    the number of the batch, the records of the batch, and the message with
    which the validation of one of these records throws. *)
Definition reportsBatch {Item Doc} (validate : Item -> Completion Doc) (b : nat)
    (rejected : nat * list Item) (entry : ImportError (Item := Item)) : Prop :=
  batch entry = js_div rejected.1 b /\
  items entry = rejected.2 /\
  exists item e,
    item ∈ rejected.2 /\ validate item = Throw e /\ error entry = message e.

(** The entry of [results.errors] for a rejected batch, and the number of
    records in rejected batches. *)
Definition batchError {Item} (b : nat) (rejected : nat * list Item * JsError)
    : ImportError (Item := Item) :=
  let '(i, batch, e) := rejected in mkImportError (js_div i b) (message e) batch.

Fixpoint recordsIn {Item} (rejected : list (nat * list Item * JsError)) : nat :=
  match rejected with
  | [] => 0
  | (_, batch, _) :: rest => length batch + recordsIn rest
  end.

(** [name] is the name of a checkpoint file of whatever type: a plain name
    that starts with [checkpoint_]. *)
Definition checkpointFile (name : string) : bool :=
  (negb (has_separator name) && String.prefix "checkpoint_" name)%bool.


(** [m] keeps [P] true of the state, however it ends. *)
Definition preserves {St A} (P : St -> Prop) (m : M St A) : Prop :=
  forall s, P s -> P (m s).2.

(** The concrete instance of [Demo] with importers that record what they
    commit. *)
Definition recording_env (batchSize : nat) : Env (Sink := list nat) :=
  {| JSON_stringify := Demo.demo_stringify;
     JSON_parse := Demo.demo_parse;
     toISOString := Demo.demo_toISOString;
     transform := transform (Demo.demo_env batchSize);
     categoryImporter := recordingImporter Demo.demo_validate;
     listingImporter := recordingImporter Demo.demo_validate;
     batchSize := batchSize;
     recoverySystem := new_RecoverySystem "/app" |}.

(** An empty checkpoint directory and nothing committed yet. *)
Definition recording_world (writable : bool) : World (Sink := list nat) :=
  mkWorld ∅ true writable Demo.t0 [] [].

(** ** [scripts/backup.js]: durations and the JSON text of a backup *)

Module Backup.

(** [maxAge.match(/^(\d+)([dwm])$/)] *)
Definition match_maxAge (maxAge : string) : option (string * ascii) :=
  match span_digits maxAge with
  | (String c ds, String u EmptyString) =>
      if (Ascii.eqb u "d" || Ascii.eqb u "w" || Ascii.eqb u "m")%bool
      then Some (String c ds, u) else None
  | _ => None
  end.

(** [parseMaxAge(maxAge)] *)
Definition parseMaxAge (maxAge : string) : Completion Z :=
  let units (unit : ascii) : Z :=
    if Ascii.eqb unit "d" then 24 * 60 * 60 * 1000
    else if Ascii.eqb unit "w" then 7 * 24 * 60 * 60 * 1000
    else 30 * 24 * 60 * 60 * 1000 in
  match match_maxAge maxAge with
  | None => Throw (mkError "Invalid maxAge format. Use format: 30d, 4w, or 2m")
  | Some (value, unit) => Ok (parseInt value * units unit)
  end.

(** The line feed of ['\n']. *)
Definition LF : string := String (ascii_of_nat 10) EmptyString.

Section Stream.
Context {Doc : Type} (JSON_stringify : Doc -> string).

(** The closure state of [jsonStream] in [createBackupStream]: the flag
    [isFirst], and the chunks handed to [gzip.write] so far, oldest
    first. *)
Record JsonStream := mkJsonStream {
  isFirst : bool;
  chunks : list string
}.

(** The stream as [createBackupStream] returns it. *)
Definition createBackupStream : JsonStream := mkJsonStream true [].

(** [jsonStream.write(docs)] *)
Definition write (docs : list Doc) (s : JsonStream) : JsonStream :=
  let data := String.concat ("," +:+ LF) (map JSON_stringify docs) in
  if isFirst s
  then mkJsonStream false (chunks s ++ ["[" +:+ LF] ++ [data])
  else mkJsonStream false (chunks s ++ ["," +:+ LF] ++ [data]).

(** [jsonStream.end()] *)
Definition end_ (s : JsonStream) : JsonStream :=
  mkJsonStream (isFirst s) (chunks s ++ [LF +:+ "]"]).

(** The loop of [backup] over the batches that [fetchAllDocuments] yields,
    with its counter. *)
Fixpoint writeAll (batches : list (list Doc)) (s : JsonStream) (documentCount : nat)
    : JsonStream * nat :=
  match batches with
  | [] => (s, documentCount)
  | documents :: rest => writeAll rest (write documents s) (documentCount + length documents)
  end.

(** What has gone into [gzip] when [backup] has called [end]: the text of
    the backup before compression, and [documentCount]. *)
Definition backupText (batches : list (list Doc)) : string * nat :=
  let (s, documentCount) := writeAll batches createBackupStream 0 in
  (String.concat EmptyString (chunks (end_ s)), documentCount).
End Stream.

End Backup.

(** ** The command line: [validateType] and the [validate] command *)

Section Cli.
Context {Sink Item Doc : Type} (env : Env (Sink := Sink) (Item := Item) (Doc := Doc)).

(** [validateType(type)] *)
Definition validateType (this : ImportManager) (type : string) : Completion unit :=
  if existsb (String.eqb type) (supportedTypes this) then Ok tt
  else Throw (mkError ("Unsupported import type: " +:+ type +:+ ". Supported types: " +:+
                       String.concat ", " (supportedTypes this))).

(** An entry of [validationResults.errors]. *)
Record ValidationFailure := mkValidationFailure {
  vf_index : nat;                 (* [index] *)
  vf_error : string;              (* [error] *)
  vf_record : Item                (* [record] *)
}.

Record ValidationResults := mkValidationResults {
  total : nat;
  valid : nat;
  invalid : nat;
  validationErrors : list ValidationFailure    (* [errors] *)
}.

(** [for (const [index, record] of transformedData.entries())] with its
    [try]/[catch], from [index] on. *)
Fixpoint validateRecords (importer : Importer (Sink := Sink) (Item := Item) (Doc := Doc))
    (records : list Item) (index : nat) (validationResults : ValidationResults)
    : Completion ValidationResults :=
  match records with
  | [] => Ok validationResults
  | record :: rest =>
      match validate importer record with
      | Ok _ =>
          validateRecords importer rest (S index)
            (mkValidationResults (total validationResults) (S (valid validationResults))
               (invalid validationResults) (validationErrors validationResults))
      | Throw error =>
          validateRecords importer rest (S index)
            (mkValidationResults (total validationResults) (valid validationResults)
               (S (invalid validationResults))
               (validationErrors validationResults ++
                [mkValidationFailure index (message error) record]))
      | Diverge => Diverge
      end
  end.

(** The action of [validate <type> <input>], up to the tables it prints
    from the returned [validationResults]; a [Throw] stands for the [catch]
    that logs and leaves with exit code 1. *)
Definition validateCommand (type input : string) : M (World (Sink := Sink)) ValidationResults :=
  try_catch
    (let manager := new_ImportManager in
     liftC (validateType manager type);;
     logger Info "Validating input data" [("type", MStr type); ("input", MStr input)];;
     transformedData ← liftC (transform env input type);
     importer ← liftC (getImporter env type);
     liftC (validateRecords importer transformedData 0
              (mkValidationResults (length transformedData) 0 0 [])))
    (fun error =>
     logger Err "Validation failed" [("error", MStr (message error))];;
     throw error).
End Cli.

(** ** Values of input files and settings *)

(** What [JSON.parse] and the CSV parser produce.  An object is the list of
    its properties, a key once; a number is finite and given by its
    value. *)
#[warnings="-register-all"]
Inductive JsValue :=
| JUndefined
| JNull
| JBool (b : bool)
| JNum (n : Q)
| JStr (s : string)
| JArr (elements : list JsValue)
| JObj (properties : list (string * JsValue)).

(** [!!v] *)
Definition truthy (v : JsValue) : bool :=
  match v with
  | JUndefined | JNull => false
  | JBool b => b
  | JNum n => negb (Qeq_bool n 0)
  | JStr s => negb (String.eqb s EmptyString)
  | JArr _ | JObj _ => true
  end.

Fixpoint assoc (field : string) (properties : list (string * JsValue)) : JsValue :=
  match properties with
  | [] => JUndefined
  | (key, v) :: rest => if String.eqb key field then v else assoc field rest
  end.

(** [o[field]] and [o.field] for the field names the code reads, none of
    which is a property of strings, arrays, numbers or booleans. *)
Definition prop (o : JsValue) (field : string) : Completion JsValue :=
  match o with
  | JUndefined =>
      Throw (mkError ("Cannot read properties of undefined (reading '" +:+ field +:+ "')"))
  | JNull => Throw (mkError ("Cannot read properties of null (reading '" +:+ field +:+ "')"))
  | JObj properties => Ok (assoc field properties)
  | _ => Ok JUndefined
  end.

(** [o?.field] *)
Definition optional_prop (o : JsValue) (field : string) : Completion JsValue :=
  match o with
  | JUndefined | JNull => Ok JUndefined
  | _ => prop o field
  end.

(** Sequencing of synchronous steps that may throw. *)
Definition bindC {A B} (c : Completion A) (k : A -> Completion B) : Completion B :=
  match c with
  | Ok a => k a
  | Throw e => Throw e
  | Diverge => Diverge
  end.
#[export] Instance Completion_ret : MRet Completion := fun _ a => Ok a.
#[export] Instance Completion_bind : MBind Completion := fun _ _ k c => bindC c k.

(** [items.map(f)] with an [f] that may throw: the first throw ends it. *)
Fixpoint mapC {A B} (f : A -> Completion B) (items : list A) : Completion (list B) :=
  match items with
  | [] => Ok []
  | item :: rest =>
      b ← f item;
      bs ← mapC f rest;
      Ok (b :: bs)
  end.

(** [items.filter(f)], likewise. *)
Fixpoint filterC {A} (f : A -> Completion bool) (items : list A) : Completion (list A) :=
  match items with
  | [] => Ok []
  | item :: rest =>
      f item ≫= fun keep : bool =>
      kept ← filterC f rest;
      Ok (if keep then item :: kept else kept)
  end.

(** Library functions the code calls on strings and texts. *)
Record JsLib := mkJsLib {
  trim : string -> string;                       (* [s.trim()] *)
  toLowerCase : string -> string;                (* [s.toLowerCase()] *)
  extname : string -> string;                    (* [path.extname(p)] *)
  number_toString : Q -> string;                 (* [String(n)] *)
  csv_parse : string -> Completion JsValue;      (* [csv.parse(content, {columns: true, ...})] *)
  JSON_parse_text : string -> JsValue + string;  (* [JSON.parse(content)], or the message
                                                    of its [SyntaxError] *)
  slugify : JsValue -> Completion string         (* [slugify(v, {lower: true, strict: true})] *)
}.

(** [String(v)], as template literals and [RegExp.prototype.test] apply
    it. *)
Fixpoint ToString (lib : JsLib) (v : JsValue) : string :=
  match v with
  | JUndefined => "undefined"
  | JNull => "null"
  | JBool true => "true"
  | JBool false => "false"
  | JNum n => number_toString lib n
  | JStr s => s
  | JArr elements =>
      String.concat ","
        (map (fun element =>
                match element with
                | JUndefined | JNull => EmptyString
                | _ => ToString lib element
                end) elements)
  | JObj _ => "[object Object]"
  end.

(** ** [utils/config.js] and the configuration check of [sanityClient.js] *)

(** [this.env.sanity]: four environment variables, each a string or
    undefined. *)
Record SanityEnv := mkSanityEnv {
  projectId : option string;
  dataset : option string;
  token : option string;
  apiVersion : option string
}.

(** [!value] for such a variable. *)
Definition unset (value : option string) : bool :=
  match value with
  | None => true
  | Some s => String.eqb s EmptyString
  end.

(** The first entry of a list of named values that fails a check. *)
Fixpoint first_failing {A} (failing : A -> bool) (entries : list (string * A))
    : option string :=
  match entries with
  | [] => None
  | (name, value) :: rest => if failing value then Some name else first_failing failing rest
  end.

Definition is_undefined (v : JsValue) : bool :=
  match v with
  | JUndefined => true
  | _ => false
  end.

(** [Config.validate()], for [this.env.sanity] and [this.settings]. *)
Definition Config_validate (sanity : SanityEnv) (settings : JsValue) : Completion unit :=
  let requiredEnvVars :=
    [("sanity.projectId", projectId sanity);
     ("sanity.dataset", dataset sanity);
     ("sanity.token", token sanity);
     ("sanity.apiVersion", apiVersion sanity)] in
  match first_failing unset requiredEnvVars with
  | Some name => Throw (mkError ("Missing required environment variable: " +:+ name))
  | None =>
      batchSize ← (prop settings "import" ≫= fun i => optional_prop i "batchSize");
      maxRetries ← (prop settings "import" ≫= fun i => optional_prop i "maxRetries");
      directory ← (prop settings "logging" ≫= fun l => optional_prop l "directory");
      let required :=
        [("import.batchSize", batchSize);
         ("import.maxRetries", maxRetries);
         ("logging.directory", directory)] in
      match first_failing is_undefined required with
      | Some path => Throw (mkError ("Missing required configuration: " +:+ path))
      | None => Ok tt
      end
  end.

(** [SanityClientManager.validateConfig(config)], for the [sanity] part of
    [config.get()]. *)
Definition validateConfig (config : SanityEnv) : Completion unit :=
  let requiredFields :=
    [("SANITY_PROJECT_ID", projectId config);
     ("SANITY_DATASET", dataset config);
     ("SANITY_AUTH_TOKEN", token config);
     ("SANITY_API_VERSION", apiVersion config)] in
  match first_failing unset requiredFields with
  | Some envVar =>
      Throw (mkError ("Missing required Sanity configuration: " +:+ envVar +:+
                      " environment variable is not set"))
  | None => Ok tt
  end.

(** ** [scripts/transform.js]: [class DataTransformer] *)

Section Transformer.
Context {Sink : Type} (lib : JsLib).

(** [s.slice(1)] *)
Definition slice1 (s : string) : string :=
  match s with
  | EmptyString => EmptyString
  | String _ s' => s'
  end.

(** [loadFile(filePath)] *)
Definition loadFile (filePath : string) : M (World (Sink := Sink)) (string * string) :=
  try_catch
    (fileContent ← fs_readFile filePath;
     let extension := slice1 (toLowerCase lib (extname lib filePath)) in
     if negb (existsb (String.eqb extension) ["csv"; "json"])
     then throw (mkError ("Unsupported file format: " +:+ extension))
     else mret (fileContent, extension))
    (fun error =>
     logger Err "Failed to load file"
       [("filePath", MStr filePath); ("error", MStr (message error))];;
     throw error).

(** [parseJSON(content)] *)
Definition parseJSON (content : string) : Completion JsValue :=
  match JSON_parse_text lib content with
  | inl v => Ok v
  | inr error_message => Throw (mkError ("Invalid JSON format: " +:+ error_message))
  end.

Definition requiredFields (type : string) : list string :=
  if String.eqb type "listing" then ["title"; "email"] else ["title"].

(** An entry of [missingFields]. *)
Record MissingFields := mkMissingFields {
  mf_index : nat;                 (* [index] *)
  mf_missing : list string;       (* [missingFields] *)
  mf_item : JsValue               (* [item] *)
}.

(** The [reduce] of [validateDataStructure], from [index] on. *)
Fixpoint collectMissing (fields : list string) (data : list JsValue) (index : nat)
    (errors : list MissingFields) : Completion (list MissingFields) :=
  match data with
  | [] => Ok errors
  | item :: rest =>
      missing ← filterC (fun field => v ← prop item field; Ok (negb (truthy v))) fields;
      collectMissing fields rest (S index)
        (if (0 <? length missing)%nat
         then errors ++ [mkMissingFields index missing item]
         else errors)
  end.

(** [validateDataStructure(data, type)] *)
Definition validateDataStructure (data : JsValue) (type : string) : Completion unit :=
  match data with
  | JArr items =>
      missingFields ← collectMissing (requiredFields type) items 0 [];
      if (0 <? length missingFields)%nat
      then Throw (mkError "Data structure validation failed")
      else Ok tt
  | JUndefined => Throw (mkError "Cannot read properties of undefined (reading 'reduce')")
  | JNull => Throw (mkError "Cannot read properties of null (reading 'reduce')")
  | _ => Throw (mkError "data.reduce is not a function")
  end.

(** [v?.trim()] *)
Definition optional_trim (v : JsValue) : Completion JsValue :=
  match v with
  | JUndefined | JNull => Ok JUndefined
  | JStr s => Ok (JStr (trim lib s))
  | _ => Throw (mkError "trim is not a function")
  end.

(** [transformCategory(rawCategory)] *)
Definition transformCategory (rawCategory : JsValue) : Completion JsValue :=
  title ← (prop rawCategory "title" ≫= optional_trim);
  description ← (prop rawCategory "description" ≫= optional_trim);
  color ← (color ← prop rawCategory "color";
           match color with
           | JUndefined | JNull => Ok (JStr ("#" +:+ ToString lib color))
           | JStr s => Ok (if String.prefix "#" s then color else JStr ("#" +:+ s))
           | _ => Throw (mkError "rawCategory.color?.startsWith is not a function")
           end);
  featuredListing ← prop rawCategory "featured_listing_id";
  Ok (JObj [("title", title); ("description", description); ("color", color);
            ("featuredListing", featuredListing)]).

(** [normalizeUrl(url)] *)
Definition normalizeUrl (url : JsValue) : Completion JsValue :=
  if negb (truthy url) then Ok JUndefined
  else match url with
       | JStr s =>
           let url := trim lib s in
           Ok (JStr (if String.prefix "http" url then url else "https://" +:+ url))
       | _ => Throw (mkError "url.trim is not a function")
       end.

(** [/[,;\n]/] *)
Definition is_separator (c : ascii) : bool :=
  (Ascii.eqb c "," || Ascii.eqb c ";" || Ascii.eqb c (ascii_of_nat 10))%bool.

(** [s.split(/[,;\n]/)] *)
Fixpoint split_separators (s : string) : list string :=
  match s with
  | EmptyString => [EmptyString]
  | String c s' =>
      if is_separator c then EmptyString :: split_separators s'
      else match split_separators s' with
           | piece :: pieces => String c piece :: pieces
           | [] => [String c EmptyString]
           end
  end.

(** [s.length > 0] *)
Definition nonempty (s : string) : bool := (0 <? String.length s)%nat.

(** [parseImageUrls(images)] *)
Definition parseImageUrls (images : JsValue) : JsValue :=
  if negb (truthy images) then JArr []
  else match images with
       | JArr _ => images
       | JStr s => JArr (map JStr (List.filter nonempty (map (trim lib) (split_separators s))))
       | _ => JArr []
       end.

(** [parseCategories(categories)] *)
Definition parseCategories (categories : JsValue) : JsValue :=
  if negb (truthy categories) then JArr []
  else match categories with
       | JArr _ => categories
       | JStr s => JArr (map JStr (List.filter nonempty (map (trim lib) (split_separators s))))
       | _ => JArr []
       end.

(** [parseTags(tags)] *)
Definition parseTags (tags : JsValue) : JsValue :=
  if negb (truthy tags) then JArr []
  else match tags with
       | JArr _ => tags
       | JStr s =>
           JArr (map JStr (List.filter nonempty
                             (map (fun tag => toLowerCase lib (trim lib tag)) (split_separators s))))
       | _ => JArr []
       end.

(** [transformListing(rawListing)] *)
Definition transformListing (rawListing : JsValue) : Completion JsValue :=
  title ← (prop rawListing "title" ≫= optional_trim);
  description ← (prop rawListing "description" ≫= optional_trim);
  email ← (email ← prop rawListing "email";
           match email with
           | JUndefined | JNull => Ok JUndefined
           | JStr s => Ok (JStr (toLowerCase lib (trim lib s)))
           | _ => Throw (mkError "rawListing.email?.trim is not a function")
           end);
  websiteUrl ← (prop rawListing "website_url" ≫= normalizeUrl);
  instagramUrl ← (prop rawListing "instagram_url" ≫= normalizeUrl);
  galleryImages ← (images ← prop rawListing "gallery_images"; Ok (parseImageUrls images));
  categories ← (categories ← prop rawListing "categories"; Ok (parseCategories categories));
  tags ← (tags ← prop rawListing "tags"; Ok (parseTags tags));
  Ok (JObj [("title", title); ("description", description); ("email", email);
            ("websiteUrl", websiteUrl); ("instagramUrl", instagramUrl);
            ("galleryImages", galleryImages); ("categories", categories); ("tags", tags)]).

(** [transform(inputPath, type)] *)
Definition transformFile (inputPath type : string) : M (World (Sink := Sink)) (list JsValue) :=
  try_catch
    (logger Info "Starting data transformation"
       [("inputPath", MStr inputPath); ("type", MStr type)];;
     '(content, format) ← loadFile inputPath;
     rawData ← liftC (if String.eqb format "csv" then csv_parse lib content
                      else parseJSON content);
     liftC (validateDataStructure rawData type);;
     transformedData ←
       liftC match rawData with
             | JArr items =>
                 mapC (fun item => if String.eqb type "listing" then transformListing item
                                   else transformCategory item) items
             | _ => Throw (mkError "rawData.map is not a function")
             end;
     logger Info "Data transformation completed"
       [("inputRecords", MNum (Z.of_nat (match rawData with
                                         | JArr items => length items
                                         | _ => 0
                                         end)));
        ("outputRecords", MNum (Z.of_nat (length transformedData)))];;
     mret transformedData)
    (fun error =>
     logger Err "Data transformation failed"
       [("error", MStr (message error)); ("inputPath", MStr inputPath); ("type", MStr type)];;
     throw error).
End Transformer.

(** [item] has the [field]: reading it gives a truthy value. *)
Definition has_field (item : JsValue) (field : string) : Prop :=
  exists v, prop item field = Ok v /\ truthy v = true.

(** A record as the CSV parser gives it: an object whose values are
    strings. *)
Definition csv_record (item : JsValue) : Prop :=
  exists properties,
    item = JObj properties /\ Forall (fun kv => exists s, kv.2 = JStr s) properties.

(** An identifier as it comes back from a separated list: not empty, free
    of the separators and left alone by [trim]. *)
Definition clean_id (lib : JsLib) (id : string) : Prop :=
  id <> EmptyString /\ trim lib id = id /\
  forallb (fun c => negb (is_separator c)) (list_ascii_of_string id) = true.

(** ** [utils/validation.js] and [CategoryImporter.validate] *)

Section Validation.
Context {Sink : Type} (lib : JsLib).

(** [[A-Fa-f0-9]] *)
Definition is_hex_digit (c : ascii) : bool :=
  let n := nat_of_ascii c in
  ((48 <=? n)%nat && (n <=? 57)%nat || (65 <=? n)%nat && (n <=? 70)%nat ||
   (97 <=? n)%nat && (n <=? 102)%nat)%bool.

(** [/^#([A-Fa-f0-9]{6}|[A-Fa-f0-9]{3})$/.test(s)] *)
Definition is_hex_color (s : string) : bool :=
  match s with
  | String "#" digits =>
      (((String.length digits =? 6)%nat || (String.length digits =? 3)%nat) &&
       forallb is_hex_digit (list_ascii_of_string digits))%bool
  | _ => false
  end.

(** [validators.required(value, field)] *)
Definition required (value : JsValue) (field : string) : Completion JsValue :=
  match value with
  | JUndefined | JNull => Throw (mkError (field +:+ " is required"))
  | JStr EmptyString => Throw (mkError (field +:+ " is required"))
  | _ => Ok value
  end.

(** [validators.hexColor(value, field)] *)
Definition hexColor (value : JsValue) (field : string) : Completion JsValue :=
  if (truthy value && negb (is_hex_color (ToString lib value)))%bool
  then Throw (mkError (field +:+ " must be a valid hex color code (e.g., #FF0000)"))
  else Ok value.

(** [validators.generateSlug(value, field)] *)
Definition generateSlug (value : JsValue) (field : string) : Completion JsValue :=
  if negb (truthy value)
  then Throw (mkError ("Cannot generate slug: " +:+ field +:+ " is empty"))
  else current ← slugify lib value;
       Ok (JObj [("_type", JStr "slug"); ("current", JStr current)]).

(** [validators.array(value, field)] *)
Definition array (value : JsValue) (field : string) : Completion JsValue :=
  let isArray := match value with
                 | JArr _ => true
                 | _ => false
                 end in
  if (truthy value && negb isArray)%bool
  then Throw (mkError (field +:+ " must be an array"))
  else Ok (if truthy value then value else JArr []).

(** [sanityClient.fetch('*[_type == $type && _id == $id][0]', { type, id })] *)
Context (fetchDocument : string -> JsValue -> M (World (Sink := Sink)) JsValue).

(** [validateReference(referenceId, type)] *)
Definition validateReference (referenceId : JsValue) (type : string)
    : M (World (Sink := Sink)) JsValue :=
  try_catch
    (doc ← fetchDocument type referenceId;
     if negb (truthy doc)
     then throw (mkError ("Referenced " +:+ type +:+ " with ID " +:+
                          ToString lib referenceId +:+ " not found"))
     else mret (JObj [("_type", JStr "reference"); ("_ref", referenceId)]))
    (fun error => throw (mkError ("Failed to validate reference: " +:+ message error))).

(** [requiredFields.forEach(field => { validators.required(data[field], field); })] *)
Definition checkRequired (data : JsValue) (fields : list string)
    : M (World (Sink := Sink)) unit :=
  liftC (match mapC (fun field => value ← prop data field; required value field) fields with
         | Ok _ => Ok tt
         | Throw e => Throw e
         | Diverge => Diverge
         end).

(** [CategoryImporter.validate(data)].  The assignments to [data.color],
    [data.slug] and [data.featuredListing] are the local values read back
    for the returned document; of the metadata of the log call, [data] and
    [field] are not recorded. *)
Definition validateCategory (data : JsValue) : M (World (Sink := Sink)) JsValue :=
  try_catch
    (checkRequired data ["title"];;
     color ← liftC (prop data "color");
     color ← (if truthy color then liftC (hexColor color "color") else mret color);
     title ← liftC (prop data "title");
     slug ← liftC (generateSlug title "title");
     featuredListing ← liftC (prop data "featuredListing");
     featuredListing ← (if truthy featuredListing
                        then validateReference featuredListing "listing"
                        else mret featuredListing);
     description ← liftC (prop data "description");
     mret (JObj [("_type", JStr "category"); ("title", title); ("slug", slug);
                 ("description", description); ("color", color);
                 ("featuredListing", featuredListing)]))
    (fun error =>
     logger Err "Category validation failed" [("error", MStr (message error))];;
     throw error).
End Validation.

(** ** [ListingImporter.import]: the import without checkpoints *)

Module ListingImporter.
Section Run.
Context {Sink Item Doc : Type}.

Record BatchError := mkBatchError {
  batch : Q;
  error : string
}.

Record Results := mkResults {
  success : nat;
  failed : nat;
  errors : list BatchError;
  failedImages : list Item
}.

(** A method call on [transaction].  [sanityClient.createTransaction] is an
    [async] method and is called without [await]: [transaction] is the
    promise it returns, on which [create] and [commit] are not functions. *)
Definition transaction_call (method : string) : Completion unit :=
  Throw (mkError ("transaction." +:+ method +:+ " is not a function")).

Definition modifyResults (f : Results -> Results) : M (World (Sink := Sink) * Results) unit :=
  modify (fun '(w, r) => (w, f r)).

Definition liftW {A} (m : M (World (Sink := Sink)) A) : M (World (Sink := Sink) * Results) A :=
  fun '(w, r) => let (c, w') := m w in (c, (w', r)).

(** [validatedBatch.forEach(doc => { transaction.create(doc); })] *)
Definition createAll (validatedBatch : list Doc) : M (World (Sink := Sink) * Results) unit :=
  liftC (match mapC (fun doc => transaction_call "create") validatedBatch with
         | Ok _ => Ok tt
         | Throw e => Throw e
         | Diverge => Diverge
         end).

(** The body of the batch loop at index [i]; [results] is kept in the
    state. *)
Definition importBatch (validate : Item -> Completion Doc) (batchSize : nat)
    (listings : list Item) (i : nat) : M (World (Sink := Sink) * Results) unit :=
  let batch := slice listings i (i + batchSize) in
  try_catch
    (validatedBatch ← liftC (Promise_all (map validate batch));
     createAll validatedBatch;;
     liftC (transaction_call "commit");;
     modifyResults (fun r =>
       mkResults (success r + length batch) (failed r) (errors r) (failedImages r));;
     liftW (logger Info "Batch import successful"
              [("processed", MNum (Z.of_nat (i + length batch)));
               ("total", MNum (Z.of_nat (length listings)))]))
    (fun error =>
     modifyResults (fun r =>
       mkResults (success r) (failed r + length batch)
         (errors r ++ [mkBatchError (js_div i batchSize) (message error)])
         (failedImages r));;
     liftW (logger Err "Batch import failed"
              [("batchIndex", MRat (js_div i batchSize));
               ("error", MStr (message error))])).

(** [for (let i = 0; i < listings.length; i += importConfig.batchSize)],
    [Diverge] when [fuel] iterations do not reach the end. *)
Fixpoint importLoop (validate : Item -> Completion Doc) (batchSize : nat)
    (listings : list Item) (fuel i : nat) : M (World (Sink := Sink) * Results) unit :=
  if (i <? length listings)%nat then
    match fuel with
    | O => fun s => (Diverge, s)
    | S fuel' =>
        importBatch validate batchSize listings i;;
        importLoop validate batchSize listings fuel' (i + batchSize)
    end
  else mret tt.

(** Run a block that owns a fresh [results] object. *)
Definition withResults {A} (r0 : Results) (m : M (World (Sink := Sink) * Results) A)
    : M (World (Sink := Sink)) (A * Results) :=
  fun w => match m (w, r0) with
           | (Ok a, (w', r)) => (Ok (a, r), w')
           | (Throw e, (w', _)) => (Throw e, w')
           | (Diverge, (w', _)) => (Diverge, w')
           end.

(** [import(listings)]; the last log call records the two counts of
    [results]. *)
Definition import (validate : Item -> Completion Doc) (batchSize : nat)
    (listings : list Item) : M (World (Sink := Sink)) Results :=
  logger Info "Starting listing import" [("count", MNum (Z.of_nat (length listings)))];;
  '(_, results) ← withResults (mkResults 0 0 [] [])
                    (importLoop validate batchSize listings (length listings) 0);
  logger Info "Listing import completed"
    [("success", MNum (Z.of_nat (success results)));
     ("failed", MNum (Z.of_nat (failed results)))];;
  mret results.
End Run.
End ListingImporter.

(** ** A library instance and sample inputs to run the transformer on

    Texts are ASCII, file names are plain and numbers are integers; the CSV
    parser knows the sample file and the JSON parser two short texts. *)

Module Sample.

Definition is_space (c : ascii) : bool :=
  let n := nat_of_ascii c in
  ((n =? 32)%nat || (9 <=? n)%nat && (n <=? 13)%nat)%bool.

Fixpoint trimStart (s : string) : string :=
  match s with
  | EmptyString => EmptyString
  | String c s' => if is_space c then trimStart s' else s
  end.

Definition reverse_string (s : string) : string :=
  string_of_list_ascii (rev (list_ascii_of_string s)).

Definition trim (s : string) : string :=
  reverse_string (trimStart (reverse_string (trimStart s))).

Definition lower (c : ascii) : ascii :=
  let n := nat_of_ascii c in
  if ((65 <=? n)%nat && (n <=? 90)%nat)%bool then ascii_of_nat (n + 32) else c.

Fixpoint toLowerCase (s : string) : string :=
  match s with
  | EmptyString => EmptyString
  | String c s' => String (lower c) (toLowerCase s')
  end.

(** What starts at the last dot of [s], if there is one. *)
Fixpoint from_last_dot (s : string) : option string :=
  match s with
  | EmptyString => None
  | String c s' =>
      match from_last_dot s' with
      | Some e => Some e
      | None => if Ascii.eqb c "." then Some s else None
      end
  end.

Definition extname (p : string) : string :=
  match path_basename p with
  | EmptyString => EmptyString
  | String _ rest => default EmptyString (from_last_dot rest)
  end.

Definition number_toString (n : Q) : string :=
  match Qnum n with
  | Z0 => "0"
  | Zpos p => string_of_nat (Pos.to_nat p)
  | Zneg p => "-" +:+ string_of_nat (Pos.to_nat p)
  end.

Definition slug_char (c : ascii) : string :=
  let n := nat_of_ascii (lower c) in
  if ((97 <=? n)%nat && (n <=? 122)%nat || (48 <=? n)%nat && (n <=? 57)%nat)%bool
  then String (lower c) EmptyString
  else if is_space c then "-" else EmptyString.

Fixpoint slug (s : string) : string :=
  match s with
  | EmptyString => EmptyString
  | String c s' => slug_char c +:+ slug s'
  end.

Definition slugify (v : JsValue) : Completion string :=
  match v with
  | JStr s => Ok (slug s)
  | _ => Throw (mkError "slugify: string argument expected")
  end.

(** Three categories: with a colour code, with a colour code lacking its
    [#], and without colour. *)
Definition categories_csv : string :=
  "title,color" +:+ Backup.LF +:+ "Books,#FF0000" +:+ Backup.LF +:+
  "Music,00ff00" +:+ Backup.LF +:+ "Film," +:+ Backup.LF.

Definition categories_records : list JsValue :=
  [JObj [("title", JStr "Books"); ("color", JStr "#FF0000")];
   JObj [("title", JStr "Music"); ("color", JStr "00ff00")];
   JObj [("title", JStr "Film"); ("color", JStr EmptyString)]].

(** A raw listing as a JSON file may hold it. *)
Definition raw_listing : JsValue :=
  JObj [("title", JStr " Corner Shop "); ("email", JStr "Shop@Example.org");
        ("website_url", JStr "example.org"); ("tags", JStr "Books; Music,,film");
        ("categories", JArr [JStr "c1"]); ("gallery_images", JNum 3)].

Definition csv_parse (content : string) : Completion JsValue :=
  if String.eqb content categories_csv then Ok (JArr categories_records)
  else Throw (mkError "Invalid Record Length").

Definition JSON_parse_text (content : string) : JsValue + string :=
  if String.eqb content "[]" then inl (JArr [])
  else if String.eqb content "null" then inl JNull
  else inr "Unexpected token"%string.

Definition lib : JsLib :=
  mkJsLib trim toLowerCase extname number_toString csv_parse JSON_parse_text slugify.

(** No document can be fetched. *)
Definition fetchDocument {Sink} (type : string) (id : JsValue)
    : M (World (Sink := Sink)) JsValue :=
  throw (mkError "Failed to execute Sanity query: Request timed out").

(** A world with the sample file of categories in it. *)
Definition world : World (Sink := unit) :=
  mkWorld {[ "data/categories.csv"%string := mkFile categories_csv true Demo.t0 ]}
    true true Demo.t0 [] tt.
End Sample.

(** * Properties *)

(** ** Strings *)

Lemma append_cons (x : ascii) (a b : string) : String x a +:+ b = String x (a +:+ b).
Proof. reflexivity. Qed.

Lemma append_nil_l (b : string) : EmptyString +:+ b = b.
Proof. reflexivity. Qed.

Lemma append_assoc (a b c : string) : (a +:+ b) +:+ c = a +:+ (b +:+ c).
Proof. induction a as [|x a IH]; [done|]. by rewrite !append_cons, IH. Qed.

Lemma strip_prefix_Some (p s r : string) : strip_prefix p s = Some r <-> s = p +:+ r.
Proof.
  revert s. induction p as [|a p IH]; intros s; cbn [strip_prefix];
    rewrite ?append_cons, ?append_nil_l.
  - split; congruence.
  - destruct s as [|b s]; [split; discriminate|].
    destruct (Ascii.eqb_spec a b) as [->|Hne]; rewrite ?IH; split; congruence.
Qed.

Lemma dir_entry_Some (dir path name : string) :
  dir_entry dir path = Some name <-> path = path_join dir name /\ has_separator name = false.
Proof.
  unfold dir_entry, path_join. rewrite <- append_assoc. split.
  - destruct (strip_prefix (dir +:+ "/") path) as [n|] eqn:Hs; [|done].
    apply strip_prefix_Some in Hs. destruct (has_separator n) eqn:Hn; [done|].
    intros [= <-]. done.
  - intros [-> Hn].
    assert (strip_prefix (dir +:+ "/") ((dir +:+ "/") +:+ name) = Some name) as ->
      by by apply strip_prefix_Some.
    by rewrite Hn.
Qed.

Lemma compare_refl (s : string) : String.compare s s = Eq.
Proof.
  induction s as [|c s IH]; [done|]. cbn [String.compare].
  unfold Ascii.compare. by rewrite N.compare_refl.
Qed.

Lemma compare_app_l (p a b : string) :
  String.compare (p +:+ a) (p +:+ b) = String.compare a b.
Proof.
  induction p as [|c p IH]; [done|]. rewrite !append_cons. cbn [String.compare].
  unfold Ascii.compare. by rewrite N.compare_refl.
Qed.

Lemma compare_app_r (a b s : string) :
  String.length a = String.length b ->
  String.compare (a +:+ s) (b +:+ s) = String.compare a b.
Proof.
  revert b. induction a as [|x a IH]; intros [|y b] Hlen; try discriminate.
  - apply compare_refl.
  - rewrite !append_cons. cbn [String.compare]. rewrite IH; [done|]. by injection Hlen.
Qed.

(** ** The checkpoint store: loading *)

Section Store.
Context {Sink Item Doc : Type} (env : Env (Sink := Sink) (Item := Item) (Doc := Doc)).
Implicit Types (w : World (Sink := Sink)) (this : RecoverySystem).

(** The listing of the checkpoint directory, as a predicate on names. *)
Lemma readdir_elem this w name :
  name ∈ omap (dir_entry (checkpointDir this)) (elements (dom (files w))) <->
  is_Some (files w !! path_join (checkpointDir this) name) /\ has_separator name = false.
Proof.
  rewrite list_elem_of_omap. split.
  - intros (path & Hin & He). apply dir_entry_Some in He as [-> Hn].
    by rewrite elem_of_elements, elem_of_dom in Hin.
  - intros [Hs Hn]. exists (path_join (checkpointDir this) name).
    rewrite elem_of_elements, elem_of_dom, dir_entry_Some. done.
Qed.

Lemma checkpointFiles_elem this type w name :
  name ∈ List.filter (fun file => String.prefix (checkpointPrefix type) file)
           (omap (dir_entry (checkpointDir this)) (elements (dom (files w)))) <->
  storedCheckpoint this type w name.
Proof.
  rewrite list_elem_of_In, filter_In, <- list_elem_of_In, readdir_elem.
  unfold storedCheckpoint. tauto.
Qed.

(** [l.sort().reverse()[0]] is the greatest element of [l]. *)
Lemma sorted_reverse_head (l : list string) :
  match reverse (js_sort l) with
  | [] => l = []
  | x :: _ => x ∈ l /\ forall y, y ∈ l -> String.le y x
  end.
Proof.
  pose proof (StronglySorted_merge_sort String.le l) as Hs.
  pose proof (merge_sort_Permutation String.le l) as Hp.
  fold (js_sort l) in Hs, Hp.
  destruct (reverse (js_sort l)) as [|x t] eqn:Hr.
  - apply (f_equal reverse) in Hr. rewrite reverse_involutive in Hr.
    rewrite Hr in Hp. by apply Permutation_nil_l in Hp.
  - apply (f_equal reverse) in Hr. rewrite reverse_involutive, reverse_cons in Hr.
    rewrite Hr in Hs, Hp. split.
    + rewrite <- Hp. set_solver.
    + intros y Hy. rewrite <- Hp in Hy. apply elem_of_app in Hy as [Hy|Hy].
      * eapply StronglySorted_app_1_elem_of; [exact Hs|exact Hy|set_solver].
      * apply list_elem_of_singleton in Hy as ->. done.
Qed.

(** C8, amended: in a checkpoint directory that can be listed and has no
    subdirectory named [`checkpoint_${type}_`...], [loadLatestCheckpoint(type)]
    returns [null] when no file name starts with [`checkpoint_${type}_`];
    otherwise there is a last such name in string order and it goes by that
    one: it returns what [JSON.parse] makes of the text of that file, whether
    that is a checkpoint or not, and throws when that file cannot be read or
    its text is not JSON.  For two names made by [generateCheckpointFilename]
    from timestamps of the same length, the order of the names is the order
    of the timestamps, so the last name is that of the most recent
    checkpoint. *)
Theorem loadLatestCheckpoint_latest this type w :
  listable w = true ->
  noSubdirectory this type w = true ->
  ((forall name, ~ storedCheckpoint this type w name) ->
   loadLatestCheckpoint env this type w = (Ok None, w)) /\
  (forall latest f,
     storedCheckpoint this type w latest ->
     (forall name, storedCheckpoint this type w name -> String.le name latest) ->
     files w !! path_join (checkpointDir this) latest = Some f ->
     if f_readable f
     then
       match JSON_parse env (f_data f) with
       | Parsed value => loadLatestCheckpoint env this type w = (Ok value, w)
       | SyntaxError message =>
           exists w', loadLatestCheckpoint env this type w = (Throw (mkError message), w')
       end
     else exists e w', loadLatestCheckpoint env this type w = (Throw e, w')) /\
  ((exists name, storedCheckpoint this type w name) ->
   exists latest,
     storedCheckpoint this type w latest /\
     forall name, storedCheckpoint this type w name -> String.le name latest) /\
  (forall ts1 ts2,
     String.length ts1 = String.length ts2 ->
     (String.le (checkpointName type ts1) (checkpointName type ts2) <-> String.le ts1 ts2)).
Proof.
  intros Hl _.
  pose proof (sorted_reverse_head
    (List.filter (fun file => String.prefix (checkpointPrefix type) file)
       (omap (dir_entry (checkpointDir this)) (elements (dom (files w)))))) as Hhead.
  split; [|split; [|split]].
  - intros Hnone. unfold loadLatestCheckpoint, try_catch, mbind, M_bind, bind, fs_readdir.
    rewrite Hl.
    destruct (reverse _) as [|x t]; [done|].
    destruct Hhead as [Hx _]. apply checkpointFiles_elem in Hx. by apply Hnone in Hx.
  - intros latest f Hst Hmax Hf.
    unfold loadLatestCheckpoint, try_catch, mbind, M_bind, bind, fs_readdir.
    rewrite Hl.
    destruct (reverse _) as [|x t].
    { apply checkpointFiles_elem in Hst. rewrite Hhead in Hst. set_solver. }
    destruct Hhead as [Hx Hxmax].
    assert (x = latest) as ->.
    { apply (anti_symm String.le).
      - apply Hmax. by apply checkpointFiles_elem.
      - apply Hxmax. by apply checkpointFiles_elem. }
    unfold fs_readFile. rewrite Hf.
    destruct (f_readable f).
    + destruct (JSON_parse env (f_data f)); [reflexivity|].
      eexists. reflexivity.
    + eexists _, _. reflexivity.
  - intros [name Hst]. apply checkpointFiles_elem in Hst.
    destruct (reverse _) as [|x t].
    { rewrite Hhead in Hst. set_solver. }
    destruct Hhead as [Hx Hxmax]. exists x. split; [by apply checkpointFiles_elem|].
    intros y Hy. by apply Hxmax, checkpointFiles_elem.
  - intros ts1 ts2 Hlen. unfold String.le, String.leb, checkpointName.
    by rewrite !compare_app_l, compare_app_r.
Qed.
End Store.

(** ** The retry executor *)

Section Retry.
Context {St A : Type}.
Implicit Types (op : St -> Completion A * St) (w : World (Sink := St * nat)).

Lemma sleeps_app t1 t2 : sleeps (t1 ++ t2) = sleeps t1 ++ sleeps t2.
Proof.
  induction t1 as [|[] t1 IH]; simpl; [done| |]; by rewrite IH.
Qed.

(** One turn of the loop when the operation throws, and when it returns. *)
Lemma retryLoop_fail this op context remaining attempt last w e s' :
  op (fst (sink w)) = (Throw e, s') ->
  retryLoop this (liftSink (counted op)) context (S remaining) attempt last w =
  retryLoop this (liftSink (counted op)) context remaining (S attempt) (Some e)
    (afterFailure this context attempt e s' w).
Proof.
  intros Hop. destruct w as [fs li wr nw tr [s c]]. simpl in Hop.
  cbn [retryLoop]. unfold try_catch at 1. unfold liftSink at 1, counted at 1. cbn [sink].
  rewrite Hop. unfold afterFailure.
  destruct (attempt <? maxRetries this)%nat; reflexivity.
Qed.

Lemma retryLoop_ok this op context remaining attempt last w v s' :
  op (fst (sink w)) = (Ok v, s') ->
  retryLoop this (liftSink (counted op)) context (S remaining) attempt last w =
  (Ok v, set_sink (fun _ => (s', S (snd (sink w)))) w).
Proof.
  intros Hop. destruct w as [fs li wr nw tr [s c]]. simpl in Hop.
  cbn [retryLoop]. unfold try_catch, liftSink, counted. cbn [sink].
  by rewrite Hop.
Qed.

Lemma invocations_S op n s :
  invocations op (S n) s =
  let (r, s1) := op s in let (rs, s2) := invocations op n s1 in (r :: rs, s2).
Proof. reflexivity. Qed.

(** A run of failures: the loop comes round [length errs] times, having
    counted as many invocations and waited after each attempt that is not
    the last allowed one. *)
Lemma retryLoop_failures this op context errs : forall remaining attempt last w s',
  invocations op (length errs) (fst (sink w)) = (map Throw errs, s') ->
  exists w',
    retryLoop this (liftSink (counted op)) context (length errs + remaining) attempt last w =
    retryLoop this (liftSink (counted op)) context remaining (attempt + length errs)%nat
      (match errs with [] => last | _ => List.last (map Some errs) None end) w' /\
    files w' = files w /\ listable w' = listable w /\ writable w' = writable w /\
    sink w' = (s', (snd (sink w) + length errs)%nat) /\
    sleeps (trace w') = sleeps (trace w) ++
      map (fun a => retryDelay this * Z.of_nat a)
          (List.filter (fun a => a <? maxRetries this)%nat (seq attempt (length errs))).
Proof.
  induction errs as [|e errs IH]; intros remaining attempt last w s' Hinv.
  - simpl in Hinv. injection Hinv as <-. exists w. simpl.
    rewrite Nat.add_0_r, app_nil_r. destruct w as [? ? ? ? ? [? ?]]; simpl. by rewrite Nat.add_0_r.
  - cbn [length] in Hinv. rewrite invocations_S in Hinv.
    destruct (op (fst (sink w))) as [r s1] eqn:Hop.
    destruct (invocations op (length errs) s1) as [rs s2] eqn:Hrest.
    simpl in Hinv. injection Hinv as -> Hrs ->.
    cbn [length Nat.add]. rewrite (retryLoop_fail _ _ _ _ _ _ _ _ _ Hop).
    set (w1 := afterFailure this context attempt e s1 w).
    destruct (IH remaining (S attempt) (Some e) w1 s') as (w' & Heq & Hf & Hl & Hw & Hs & Hsl).
    { subst w1. unfold afterFailure. destruct (_ <? _)%nat; simpl; by rewrite Hrest, Hrs. }
    exists w'. rewrite Heq. split.
    { f_equal; [lia|]. destruct errs; [done|]. reflexivity. }
    subst w1. unfold afterFailure in *. cbn [seq List.filter].
    destruct (attempt <? maxRetries this)%nat; cbn [files listable writable sink trace snd] in *;
      rewrite Hf, Hl, Hw, Hs, Hsl; repeat split; try (f_equal; lia).
    + rewrite !sleeps_app. simpl. by rewrite <- !app_assoc.
    + rewrite !sleeps_app. simpl. by rewrite app_nil_r.
Qed.

Lemma invocations_snoc op n : forall s,
  invocations op (S n) s =
  let (rs, s1) := invocations op n s in let (r, s2) := op s1 in (rs ++ [r], s2).
Proof.
  induction n as [|n IH]; intros s.
  - simpl. by destruct (op s).
  - rewrite invocations_S. rewrite (invocations_S op n s).
    destruct (op s) as [r s1]. rewrite IH.
    destruct (invocations op n s1) as [rs s2]. by destruct (op s2).
Qed.

Lemma filter_ltb_seq_all (m a k : nat) :
  (a + k <= m)%nat -> List.filter (fun x => x <? m)%nat (seq a k) = seq a k.
Proof.
  revert a. induction k as [|k IH]; intros a H; [done|].
  cbn [seq List.filter]. destruct (Nat.ltb_spec a m); [|lia]. f_equal. apply IH. lia.
Qed.

Lemma filter_ltb_seq_upto (m a k : nat) :
  (a + k = S m)%nat -> (1 <= k)%nat -> List.filter (fun x => x <? m)%nat (seq a k) = seq a (k - 1).
Proof.
  intros H Hk. replace k with ((k - 1) + 1)%nat at 1 by lia.
  rewrite seq_app, List.filter_app, filter_ltb_seq_all by lia.
  cbn [seq List.filter]. destruct (Nat.ltb_spec (a + (k - 1)) m); [lia|]. by rewrite app_nil_r.
Qed.

(** C5: an operation that fails [k] times, [k] less than [maxRetries], and
    then succeeds makes [retryOperation] return the success value after
    exactly [k + 1] invocations, having waited [retryDelay * attempt] after
    each of the failed attempts 1 to [k].  An operation that fails on each of
    its [maxRetries] invocations is invoked exactly [maxRetries] times, and
    [retryOperation] then throws an error whose message carries the number
    of attempts and the message of the last failure; it has waited
    [retryDelay * attempt] after the attempts 1 to [maxRetries - 1] and not
    after the last one.  The invocations are counted by running the
    operation with a counter next to its state. *)
Theorem retryOperation_attempts this op context w :
  (forall errs v s',
     (length errs < maxRetries this)%nat ->
     invocations op (S (length errs)) (fst (sink w)) = (map Throw errs ++ [Ok v], s') ->
     exists w',
       retryOperation this (liftSink (counted op)) context w = (Ok v, w') /\
       sink w' = (s', (snd (sink w) + (length errs + 1))%nat) /\
       sleeps (trace w') = sleeps (trace w) ++
         map (fun attempt => retryDelay this * Z.of_nat attempt) (seq 1 (length errs))) /\
  (forall errs e s',
     length (errs ++ [e]) = maxRetries this ->
     invocations op (maxRetries this) (fst (sink w)) = (map Throw (errs ++ [e]), s') ->
     exists w',
       retryOperation this (liftSink (counted op)) context w =
         (Throw (mkError ("Operation failed after " +:+ string_of_nat (maxRetries this)
                          +:+ " attempts: " +:+ message e)), w') /\
       sink w' = (s', (snd (sink w) + maxRetries this)%nat) /\
       sleeps (trace w') = sleeps (trace w) ++
         map (fun attempt => retryDelay this * Z.of_nat attempt) (seq 1 (maxRetries this - 1))).
Proof.
  split.
  - intros errs v s' Hlt Hinv. rewrite invocations_snoc in Hinv.
    destruct (invocations op (length errs) (fst (sink w))) as [rs s1] eqn:Hfail.
    destruct (op s1) as [r s2] eqn:Hok.
    injection Hinv as Hrs ->. apply app_inj_tail in Hrs as [-> ->].
    destruct (retryLoop_failures this op context errs (maxRetries this - length errs) 1%nat None w s1 Hfail)
      as (w1 & Heq & _ & _ & _ & Hs & Hsl).
    unfold retryOperation.
    destruct (maxRetries this - length errs)%nat as [|rem] eqn:Hrem; [lia|].
    replace (length errs + S rem)%nat with (maxRetries this) in Heq by lia.
    rewrite Heq.
    rewrite (retryLoop_ok _ _ _ _ _ _ _ v s').
    2:{ by rewrite Hs. }
    eexists; split; [reflexivity|]. cbn [sink set_sink trace]. rewrite Hs, Hsl. cbn [snd].
    split; [f_equal; lia|]. by rewrite filter_ltb_seq_all by lia.
  - intros errs e s' Hlen Hinv. rewrite <- Hlen in Hinv at 1.
    destruct (retryLoop_failures this op context (errs ++ [e]) 0%nat 1%nat None w s' Hinv)
      as (w1 & Heq & _ & _ & _ & Hs & Hsl).
    unfold retryOperation.
    rewrite Nat.add_0_r, Hlen in Heq. rewrite Heq.
    exists w1. split.
    + destruct (errs ++ [e]) eqn:Happ; [by destruct errs|]. rewrite <- Happ.
      rewrite map_app. change (map Some [e]) with [Some e]. by rewrite last_last.
    + rewrite Hs, Hsl, Hlen. split; [done|].
      rewrite length_app in Hlen. simpl in Hlen.
      by rewrite filter_ltb_seq_upto by lia.
Qed.
End Retry.

(** ** The checkpoint store: pruning *)

Lemma span_digits_spec (s : string) :
  s = (span_digits s).1 +:+ (span_digits s).2 /\
  forallb is_digit (list_ascii_of_string (span_digits s).1) = true.
Proof.
  induction s as [|c s [IH1 IH2]]; [done|]. cbn [span_digits].
  destruct (is_digit c) eqn:Hc; [|done].
  destruct (span_digits s) as [ds rest]. cbn [fst snd] in *.
  rewrite append_cons, <- IH1. cbn [list_ascii_of_string forallb]. by rewrite Hc, IH2.
Qed.

Lemma list_ascii_of_string_app (a b : string) :
  list_ascii_of_string (a +:+ b) = list_ascii_of_string a ++ list_ascii_of_string b.
Proof.
  induction a as [|c a IH]; [done|].
  rewrite append_cons. cbn [list_ascii_of_string]. by rewrite IH.
Qed.

Lemma forallb_rev {A} (p : A -> bool) (l : list A) : forallb p (rev l) = forallb p l.
Proof.
  induction l as [|x l IH]; [done|]. cbn [rev]. rewrite forallb_app, IH. simpl.
  destruct (p x), (forallb p l); reflexivity.
Qed.

(** What the pattern accepts has the duration form. *)
Lemma match_maxAge_form (maxAge value : string) (unit : ascii) :
  match_maxAge maxAge = Some (value, unit) -> duration_form maxAge = true.
Proof.
  unfold match_maxAge, duration_form.
  destruct (span_digits_spec maxAge) as [Heq Hd].
  destruct (span_digits maxAge) as [[|c ds] [|u [|? ?]]]; try discriminate.
  destruct (Ascii.eqb u "d" || Ascii.eqb u "w")%bool eqn:Hu; [|discriminate].
  intros _. cbn [fst snd] in *. rewrite Heq, list_ascii_of_string_app, rev_app_distr.
  cbn [list_ascii_of_string rev app].
  cbn [list_ascii_of_string] in Hd.
  rewrite <- (forallb_rev _ (c :: _)) in Hd. cbn [rev] in Hd.
  destruct (rev (list_ascii_of_string ds) ++ [c]) as [|d l] eqn:Hr.
  { by destruct (rev (list_ascii_of_string ds)). }
  by rewrite Hu, Hd.
Qed.

Lemma parseMaxAge_malformed (maxAge : string) :
  duration_form maxAge = false ->
  parseMaxAge maxAge = Throw (mkError "Invalid maxAge format. Use format: 7d or 1w").
Proof.
  intros Hf. unfold parseMaxAge.
  destruct (match_maxAge maxAge) as [[value unit]|] eqn:Hm; [|done].
  apply match_maxAge_form in Hm. congruence.
Qed.

Lemma span_digits_snoc (body : list ascii) (u : ascii) :
  forallb is_digit body = true -> is_digit u = false ->
  span_digits (string_of_list_ascii (body ++ [u])) = (string_of_list_ascii body, String u EmptyString).
Proof.
  intros Hb Hu. induction body as [|c body IH]; cbn [app string_of_list_ascii span_digits].
  - by rewrite Hu.
  - cbn [forallb] in Hb. apply andb_prop in Hb as [-> Hb]. by rewrite IH.
Qed.

(** And every string of the duration form parses. *)
Lemma parseMaxAge_wellformed (maxAge : string) :
  duration_form maxAge = true -> exists maxAgeMs, parseMaxAge maxAge = Ok maxAgeMs.
Proof.
  unfold duration_form, parseMaxAge, match_maxAge. intros Hf.
  destruct (rev (list_ascii_of_string maxAge)) as [|u [|d ds]] eqn:Hr; try discriminate.
  apply andb_prop in Hf as [Hu Hd].
  apply (f_equal (@rev ascii)) in Hr. rewrite rev_involutive in Hr.
  apply (f_equal string_of_list_ascii) in Hr. rewrite string_of_list_ascii_of_string in Hr.
  change (rev (u :: d :: ds)) with (rev (d :: ds) ++ [u]) in Hr.
  rewrite Hr, span_digits_snoc.
  - destruct (rev (d :: ds)) as [|c body] eqn:Hb.
    { cbn [rev] in Hb. by destruct (rev ds). }
    cbn [string_of_list_ascii]. rewrite Hu. eauto.
  - by rewrite forallb_rev.
  - apply orb_prop in Hu as [Hu|Hu]; apply Ascii.eqb_eq in Hu; by subst u.
Qed.

Section Prune.
Context {Sink : Type}.
Implicit Types (w : World (Sink := Sink)) (this : RecoverySystem).

Lemma pruned_refl this type nw ms w : pruned this type nw ms w w.
Proof. intros path. by left. Qed.

Lemma pruned_trans this type nw ms w1 w2 w3 :
  pruned this type nw ms w1 w2 -> pruned this type nw ms w2 w3 ->
  pruned this type nw ms w1 w3.
Proof.
  intros H12 H23 path. destruct (H23 path) as [E23|(N3 & name & f & -> & Hp & Hf & Hold)].
  - destruct (H12 path) as [E12|(N2 & R)]; [left; congruence|].
    right. split; [congruence|done].
  - destruct (H12 (path_join (checkpointDir this) name)) as [E12|(N2 & _)]; [|congruence].
    right. split; [done|]. exists name, f. rewrite <- E12. done.
Qed.

(** The loop over the listing, however far it gets, only prunes. *)
Lemma cleanLoop_frame this type nw ms names : forall w,
  exists c w', cleanLoop this type nw ms names w = (c, w') /\
               c <> Diverge /\ pruned this type nw ms w w'.
Proof.
  induction names as [|file rest IH]; intros w.
  - exists (Ok tt), w. split; [done|]. split; [done|]. apply pruned_refl.
  - cbn [cleanLoop].
    destruct (String.prefix (checkpointPrefix type) file) eqn:Hp; cbn [negb]; [|apply IH].
    unfold mbind, M_bind, bind, fs_stat.
    destruct (files w !! path_join (checkpointDir this) file) as [f|] eqn:Hf.
    2:{ eexists _, w. split; [done|]. split; [done|]. apply pruned_refl. }
    destruct (listable w).
    2:{ eexists _, w. split; [done|]. split; [done|]. apply pruned_refl. }
    destruct (nw - f_mtime f >? ms) eqn:Hold.
    + unfold fs_unlink. rewrite Hf. destruct (writable w).
      2:{ eexists _, w. split; [done|]. split; [done|]. apply pruned_refl. }
      cbn.
      match goal with |- context [cleanLoop _ _ _ _ _ ?w1] =>
        destruct (IH w1) as (c & w' & Heq & Hc & Hpr) end.
      exists c, w'. split; [exact Heq|]. split; [exact Hc|].
      eapply pruned_trans; [|exact Hpr].
      intros path. cbn [files set_files set_trace].
      destruct (decide (path = path_join (checkpointDir this) file)) as [->|Hne].
      * right. rewrite lookup_delete_eq. split; [done|]. exists file, f.
        repeat split; try done. lia.
      * left. by rewrite lookup_delete_ne.
    + cbn. apply IH.
Qed.

(** C10: [cleanOldCheckpoints(type, maxAge)] always completes, and every
    path of the file system is afterwards what it was before, unless it is
    a file of the checkpoint directory whose name starts with
    [`checkpoint_${type}_`] and whose age exceeds the parsed [maxAge], which
    may have been removed. *)
Theorem cleanOldCheckpoints_frame this type maxAge w :
  exists w',
    cleanOldCheckpoints this type maxAge w = (Ok tt, w') /\
    forall path,
      files w' !! path = files w !! path \/
      (files w' !! path = None /\
       exists name f maxAgeMs,
         path = path_join (checkpointDir this) name /\
         String.prefix (checkpointPrefix type) name = true /\
         files w !! path = Some f /\
         parseMaxAge maxAge = Ok maxAgeMs /\
         now w - f_mtime f > maxAgeMs).
Proof.
  unfold cleanOldCheckpoints, try_catch, mbind, M_bind, bind, fs_readdir, get, liftC.
  destruct (listable w).
  2:{ eexists. split; [reflexivity|]. intros path. by left. }
  destruct (parseMaxAge maxAge) as [ms|e|] eqn:Hparse.
  - destruct (cleanLoop_frame this type (now w) ms
                (omap (dir_entry (checkpointDir this)) (elements (dom (files w)))) w)
      as (c & w' & -> & Hc & Hpr).
    assert (Hfr : forall path,
      files w' !! path = files w !! path \/
      (files w' !! path = None /\
       exists name f maxAgeMs,
         path = path_join (checkpointDir this) name /\
         String.prefix (checkpointPrefix type) name = true /\
         files w !! path = Some f /\ Ok ms = Ok maxAgeMs /\ now w - f_mtime f > maxAgeMs)).
    { intros path. destruct (Hpr path) as [E|(N & name & f & H)]; [by left|].
      right. split; [done|]. exists name, f, ms. destruct H as (? & ? & ? & ?). done. }
    destruct c as [[]|e|]; [| |done].
    + exists w'. done.
    + eexists. split; [reflexivity|]. exact Hfr.
  - eexists. split; [reflexivity|]. intros path. by left.
  - unfold parseMaxAge in Hparse. by destruct (match_maxAge maxAge) as [[? ?]|].
Qed.

(** C9, amended: for a [maxAge] that is not of the form digits followed by
    [d] or [w], [parseMaxAge] throws the format error at once.
    [cleanOldCheckpoints] catches it: it logs the failure, removes no file
    and returns normally. *)
Theorem cleanOldCheckpoints_swallows_malformed this type maxAge w :
  duration_form maxAge = false ->
  parseMaxAge maxAge = Throw (mkError "Invalid maxAge format. Use format: 7d or 1w") /\
  exists w',
    cleanOldCheckpoints this type maxAge w = (Ok tt, w') /\
    files w' = files w /\
    (listable w = true ->
     trace w' = trace w ++
       [Log Err "Failed to clean old checkpoints"
          [("error", MStr "Invalid maxAge format. Use format: 7d or 1w")]]).
Proof.
  intros Hf. pose proof (parseMaxAge_malformed maxAge Hf) as Hp. split; [exact Hp|].
  unfold cleanOldCheckpoints, try_catch, mbind, M_bind, bind, fs_readdir, get, liftC.
  destruct (listable w).
  - rewrite Hp. eexists. split; [reflexivity|]. done.
  - eexists. split; [reflexivity|]. done.
Qed.
End Prune.

(** ** The batch loop *)

(** The batch number of the [j]-th batch of a run from index 0. *)
Lemma js_div_exact (j b : nat) :
  (1 <= b)%nat -> js_div (j * b) b = inject_Z (Z.of_nat j).
Proof.
  intros Hb. unfold js_div.
  rewrite (Qred_complete _ (inject_Z (Z.of_nat j))).
  - apply Qred_identity. simpl. apply Z.gcd_1_r.
  - unfold Qeq, inject_Z. cbn [Qnum Qden].
    assert (Z.pos (Pos.of_nat b) = Z.of_nat b) as ->
      by (rewrite <- (positive_nat_Z (Pos.of_nat b)), Nat2Pos.id; lia).
    lia.
Qed.

Section Orchestrator.
Context {Sink Item Doc : Type} (env : Env (Sink := Sink) (Item := Item) (Doc := Doc)).
Implicit Types (w : World (Sink := Sink)) (this : ImportManager) (r : Results (Item := Item)).

(** One turn of the batch loop. *)
Lemma importLoop_step this type options importer data fuel i s :
  (i < length data)%nat ->
  importLoop env this type options importer data (S fuel) i s =
  match processBatch env this type options importer data i s with
  | (Ok _, s') => importLoop env this type options importer data fuel (i + batchSize env) s'
  | (Throw e, s') => (Throw e, s')
  | (Diverge, s') => (Diverge, s')
  end.
Proof.
  intros Hi. cbn [importLoop]. destruct (Nat.ltb_spec i (length data)); [|lia].
  reflexivity.
Qed.

(** C7: when the batch at index [i] fails, by a validation error or by the
    error [retryOperation] throws once the commit has used up its attempts,
    [failed] grows by the length of the batch and [errors] by one entry
    with the batch number [i / batchSize], the message of the error and the
    records of the batch.  Without [continueOnError] the error is thrown
    out of the loop at once, with no further batch processed, and out of
    [import]; with it the loop goes on with the batch at [i + batchSize].
    On a run from index 0 the batch number is the whole number [j] with
    [i = j * batchSize]. *)
Theorem processBatch_failure this type options importer transformedData i w r e w1 :
  let batch := slice transformedData i (i + batchSize env) in
  let r' :=
    mkResults (success r) (failed r + length batch)
      (errors r ++ [mkImportError (js_div i (batchSize env)) (message e) batch])
      (checkpoints r) in
  (Promise_all (map (validate importer) batch) = Throw e /\ w1 = w) \/
  (exists docs,
     Promise_all (map (validate importer) batch) = Ok docs /\
     retryOperation (recoverySystem env) (liftSink (commitTransaction importer docs))
       [("batch", MRat (js_div i (batchSize env))); ("type", MStr type)] w = (Throw e, w1)) ->
  (continueOnError options = false ->
     processBatch env this type options importer transformedData i (w, r) = (Throw e, (w1, r')) /\
     forall fuel, (i < length transformedData)%nat ->
       importLoop env this type options importer transformedData (S fuel) i (w, r) =
       (Throw e, (w1, r'))) /\
  (continueOnError options = true ->
     exists w2,
       processBatch env this type options importer transformedData i (w, r) = (Ok tt, (w2, r')) /\
       files w2 = files w1 /\ sink w2 = sink w1 /\
       forall fuel, (i < length transformedData)%nat ->
         importLoop env this type options importer transformedData (S fuel) i (w, r) =
         importLoop env this type options importer transformedData fuel (i + batchSize env)
           (w2, r')) /\
  (forall j, (1 <= batchSize env)%nat -> i = (j * batchSize env)%nat ->
     js_div i (batchSize env) = inject_Z (Z.of_nat j)) /\
  (forall inputPath w0 e' s',
     resume options = false ->
     transform env inputPath type = Ok transformedData ->
     getImporter env type = Ok importer ->
     importLoop env this type options importer transformedData (length transformedData) 0
       (w0, mkResults 0 0 [] []) = (Throw e', s') ->
     exists w', import env this inputPath type options w0 = (Throw e', w')).
Proof.
  intros batch r' Hfail.
  assert (Hbody : processBatch env this type options importer transformedData i (w, r) =
    if continueOnError options
    then (Ok tt,
          (set_trace (fun t => (t ++
             [Log Err "Batch failed, continuing with next batch"
                [("batch", MRat (js_div i (batchSize env))); ("error", MStr (message e))]]) ++
             [Log Info "Import progress"
                [("processed", MNum (Z.of_nat (i + length batch)));
                 ("total", MNum (Z.of_nat (length transformedData)));
                 ("success", MNum (Z.of_nat (success r')));
                 ("failed", MNum (Z.of_nat (failed r')))]]) w1, r'))
    else (Throw e, (w1, r'))).
  { unfold processBatch. fold batch.
    unfold try_catch, mbind, M_bind, bind, liftC, liftW.
    destruct Hfail as [[Hv ->]|(docs & Hv & Hc)]; rewrite Hv; [|rewrite Hc];
      destruct (continueOnError options); reflexivity. }
  split; [|split; [|split]].
  - intros Hc. rewrite Hc in Hbody. split; [exact Hbody|].
    intros fuel Hi. by rewrite importLoop_step, Hbody.
  - intros Hc. rewrite Hc in Hbody. eexists. split; [exact Hbody|].
    split; [reflexivity|]. split; [reflexivity|].
    intros fuel Hi. by rewrite importLoop_step, Hbody.
  - intros j Hb ->. by apply js_div_exact.
  - intros inputPath w0 e' [w' r''] Hres Htr Himp Hloop.
    unfold import, try_catch, mbind, M_bind, bind, initialize, liftC, withResults.
    rewrite Hres. cbn. rewrite Htr, Himp, Hloop. eexists. reflexivity.
Qed.

End Orchestrator.

(** ** What a run adds up to *)

(** Run the loop body up to the point where validation and commit are
    settled by [Hv] and [Hc]. *)
Ltac run_batch Hv Hc :=
  unfold processBatch;
  unfold try_catch, mbind, M_bind, bind, liftC, liftW, modifyResults, modify;
  rewrite Hv, Hc; cbv beta iota zeta.

Section Totals.
Context {Sink Item Doc : Type} (env : Env (Sink := Sink) (Item := Item) (Doc := Doc)).
Implicit Types (w : World (Sink := Sink)) (this : ImportManager) (r : Results (Item := Item)).

Lemma Promise_all_returns {A} (l : list (Completion A)) :
  Forall (fun c => c <> Diverge) l -> Promise_all l <> Diverge.
Proof.
  induction 1 as [|c l Hc _ IH]; [done|]. cbn [Promise_all].
  destruct c; [|done|done]. by destruct (Promise_all l).
Qed.

(** The retry loop leaves the file system alone and returns when the
    operation does. *)
Lemma retryLoop_frame {A} rs (operation : M (World (Sink := Sink)) A) context remaining :
  (forall w, (operation w).1 <> Diverge /\ files (operation w).2 = files w /\
             listable (operation w).2 = listable w /\ writable (operation w).2 = writable w) ->
  forall attempt last w,
  exists c w',
    retryLoop rs operation context remaining attempt last w = (c, w') /\
    c <> Diverge /\ files w' = files w /\ listable w' = listable w /\
    writable w' = writable w.
Proof.
  intros Hop. induction remaining as [|n IH]; intros attempt last w.
  - cbn [retryLoop]. destruct last; eexists _, w; done.
  - cbn [retryLoop]. unfold try_catch.
    destruct (Hop w) as (Hd & Hf & Hl & Hw).
    destruct (operation w) as [[v|e|] w1]; cbn [fst snd] in *; [| |done].
    + eexists _, _. split; [reflexivity|]. done.
    + unfold mbind, M_bind, bind, logger, sleep, modify.
      destruct (attempt <? maxRetries rs)%nat; unfold mret, M_ret, ret; cbv beta iota zeta;
        match goal with |- context [retryLoop _ _ _ _ _ _ ?w2] =>
          destruct (IH (S attempt) (Some e) w2) as (c & w' & Heq & Hc & Hf' & Hl' & Hw') end;
        exists c, w'; (split; [exact Heq|]); cbn in Hf', Hl', Hw'; repeat split; congruence.
Qed.

Lemma liftSink_frame {A} (op : Sink -> Completion A * Sink) w :
  (forall s, (op s).1 <> Diverge) ->
  (liftSink op w).1 <> Diverge /\ files (liftSink op w).2 = files w /\
  listable (liftSink op w).2 = listable w /\ writable (liftSink op w).2 = writable w.
Proof.
  intros Hop. unfold liftSink. specialize (Hop (sink w)). by destruct (op (sink w)).
Qed.

(** Into a writable directory the checkpoint is written as built from
    [data] and [progress]: the data from [progress] on, and the two counts,
    which add up as long as [progress] is within the data. *)
Lemma saveCheckpoint_writable rs type (data : list Item) progress w :
  writable w = true ->
  exists w',
    saveCheckpoint env rs type data progress w =
      (Ok (generateCheckpointFilename rs type (replace_colon_dot (toISOString env (now w)))), w') /\
    files w' =
      <[generateCheckpointFilename rs type (replace_colon_dot (toISOString env (now w))) :=
          mkFile (JSON_stringify env
                    (mkCheckpoint (replace_colon_dot (toISOString env (now w))) type progress
                       (drop progress data) progress (length data)))
                 true (now w)]> (files w) /\
    writable w' = true /\ listable w' = listable w /\
    ((progress <= length data)%nat ->
     (progress + length (drop progress data) = length data)%nat).
Proof.
  intros Hw. unfold saveCheckpoint, try_catch, mbind, M_bind, bind, get, fs_writeFile.
  rewrite Hw. eexists. split; [reflexivity|]. repeat split; try done.
  intros Hp. rewrite length_drop. lia.
Qed.

Lemma length_slice (data : list Item) i b :
  length (slice data i (i + b)) = Nat.min b (length data - i).
Proof. unfold slice. rewrite length_take, length_drop. lia. Qed.

(** With [continueOnError], a writable directory and collaborators that
    return, an iteration adds the length of its batch to [success] or to
    [failed]. *)
Lemma processBatch_counts this type options importer data i w r :
  returning importer -> continueOnError options = true -> writable w = true ->
  exists w' r',
    processBatch env this type options importer data i (w, r) = (Ok tt, (w', r')) /\
    writable w' = true /\
    (success r' + failed r' = success r + failed r + length (slice data i (i + batchSize env)))%nat.
Proof.
  intros [Hv Hc] Hcont Hw. unfold processBatch.
  set (batch := slice data i (i + batchSize env)).
  unfold try_catch at 1. unfold mbind at 1, M_bind at 1, bind at 1.
  unfold mbind at 1, M_bind at 1, bind at 1. unfold liftC at 1.
  assert (Hpa : Promise_all (map (validate importer) batch) <> Diverge).
  { apply Promise_all_returns, Forall_forall. intros c Hin.
    apply list_elem_of_In, in_map_iff in Hin as (item & <- & _). apply Hv. }
  destruct (Promise_all (map (validate importer) batch)) as [docs|e|]; [| |done].
  - unfold mbind at 1, M_bind at 1, bind at 1. unfold liftW at 1. unfold retryOperation.
    destruct (retryLoop_frame (recoverySystem env) (liftSink (commitTransaction importer docs))
                [("batch", MRat (js_div i (batchSize env))); ("type", MStr type)]
                (maxRetries (recoverySystem env))
                (fun w => liftSink_frame _ w (Hc docs)) 1%nat None w)
      as (c & w1 & -> & Hcd & Hf1 & Hl1 & Hw1).
    destruct c as [[]|e|]; [| |done].
    + unfold mbind at 1, M_bind at 1, bind at 1. unfold modifyResults at 1, modify at 1.
      destruct ((0 <? i)%nat && (i mod checkpointInterval this =? 0)%nat)%bool.
      * unfold mbind at 1, M_bind at 1, bind at 1. unfold liftW at 1.
        destruct (saveCheckpoint_writable (recoverySystem env) type data (i + length batch) w1)
          as (w2 & -> & _ & Hw2 & _ & _); [congruence|].
        eexists _, _. split; [reflexivity|]. cbn. split; [done|lia].
      * eexists _, _. split; [reflexivity|]. cbn. split; [congruence|lia].
    + rewrite Hcont. eexists _, _. split; [reflexivity|]. cbn. split; [congruence|lia].
  - rewrite Hcont. eexists _, _. split; [reflexivity|]. cbn. split; [congruence|lia].
Qed.

(** With a batch size of at least 1 the loop ends within
    [transformedData.length - i] iterations. *)
Lemma importLoop_counts this type options importer data :
  returning importer -> continueOnError options = true -> (1 <= batchSize env)%nat ->
  forall fuel i w r,
    (length data - i <= fuel)%nat -> writable w = true ->
    exists w' r',
      importLoop env this type options importer data fuel i (w, r) = (Ok tt, (w', r')) /\
      (success r' + failed r' = success r + failed r + (length data - i))%nat.
Proof.
  intros Hret Hcont Hb. induction fuel as [|fuel IH]; intros i w r Hfuel Hw.
  - cbn [importLoop]. destruct (Nat.ltb_spec i (length data)); [lia|].
    exists w, r. split; [done|lia].
  - destruct (Nat.ltb_spec i (length data)) as [Hi|Hi].
    + rewrite importLoop_step by done.
      destruct (processBatch_counts this type options importer data i w r Hret Hcont Hw)
        as (w1 & r1 & -> & Hw1 & Hr1).
      destruct (IH (i + batchSize env)%nat w1 r1) as (w' & r' & -> & Hr'); [lia|done|].
      exists w', r'. split; [done|]. rewrite length_slice in Hr1. lia.
    + cbn [importLoop]. destruct (Nat.ltb_spec i (length data)); [lia|].
      exists w, r. split; [done|lia].
Qed.

Lemma cleanOldCheckpoints_returns rs type maxAge w :
  exists w', cleanOldCheckpoints rs type maxAge w = (Ok tt, w').
Proof.
  unfold cleanOldCheckpoints, try_catch, mbind, M_bind, bind, fs_readdir, get, liftC.
  destruct (listable w); [|eexists; reflexivity].
  destruct (parseMaxAge maxAge) as [ms|e|] eqn:Hparse.
  - destruct (cleanLoop_frame rs type (now w) ms
                (omap (dir_entry (checkpointDir rs)) (elements (dom (files w)))) w)
      as (c & w' & -> & Hc & _).
    destruct c as [[]|e|]; [| |done]; eexists; reflexivity.
  - eexists; reflexivity.
  - unfold parseMaxAge in Hparse. by destruct (match_maxAge maxAge) as [[? ?]|].
Qed.

Lemma loadLatestCheckpoint_state rs type w c w' :
  loadLatestCheckpoint env rs type w = (Ok c, w') -> w' = w.
Proof.
  unfold loadLatestCheckpoint, try_catch, mbind, M_bind, bind, fs_readdir.
  destruct (listable w); [|discriminate].
  destruct (reverse _) as [|file0 ?]; [by intros [= _ <-]|].
  unfold fs_readFile. destruct (files w !! _) as [f|]; [|discriminate].
  destruct (f_readable f); [|discriminate].
  destruct (JSON_parse env (f_data f)); [by intros [= _ <-]|discriminate].
Qed.

(** What a run adds up to when it is not aborted and its checkpoints can be
    written: the records from the start index on in the sequence the loop
    runs over. *)
Lemma import_counts this inputPath type options importer w :
  getImporter env type = Ok importer -> returning importer ->
  continueOnError options = true -> (1 <= batchSize env)%nat -> writable w = true ->
  (forall data,
     resume options = false -> transform env inputPath type = Ok data ->
     exists results w',
       import env this inputPath type options w = (Ok results, w') /\
       (success results + failed results = length data)%nat) /\
  (forall checkpoint w1,
     resume options = true ->
     loadLatestCheckpoint env (recoverySystem env) type w =
       (Ok (Some (JsonCheckpoint checkpoint)), w1) ->
     exists results w',
       import env this inputPath type options w = (Ok results, w') /\
       (success results + failed results =
        length (remainingData checkpoint) - processedCount checkpoint)%nat).
Proof.
  intros Himp Hret Hcont Hb Hw. split.
  - intros data Hres Htr.
    unfold import, try_catch, mbind, M_bind, bind, initialize, liftC, withResults.
    rewrite Hres. unfold mret, M_ret, ret. cbv beta iota zeta. rewrite Htr, Himp.
    destruct (importLoop_counts this type options importer data Hret Hcont Hb
                (length data) 0%nat w (mkResults 0 0 [] [])) as (w1 & r1 & -> & Hr1); [lia|done|].
    destruct (cleanOldCheckpoints_returns (recoverySystem env) type "7d" w1) as (w2 & ->).
    eexists _, _. split; [reflexivity|]. cbn in Hr1. lia.
  - intros checkpoint w1 Hres Hload.
    pose proof (loadLatestCheckpoint_state _ _ _ _ _ Hload) as ->.
    unfold import, try_catch, mbind, M_bind, bind, initialize, liftC, withResults.
    rewrite Hres. unfold mret at 1, M_ret at 1, ret at 1. cbv beta iota zeta.
    rewrite Hload. unfold logger, modify, mret, M_ret, ret. cbv beta iota zeta. rewrite Himp.
    match goal with |- context [importLoop _ _ _ _ _ _ _ _ (?w0, ?r0)] =>
      destruct (importLoop_counts this type options importer (remainingData checkpoint)
                  Hret Hcont Hb (length (remainingData checkpoint)) (processedCount checkpoint)
                  w0 r0) as (w2 & r2 & -> & Hr2); [lia|done|] end.
    destruct (cleanOldCheckpoints_returns (recoverySystem env) type "7d" w2) as (w3 & ->).
    eexists _, _. split; [reflexivity|]. cbn in Hr2. lia.
Qed.

(** A batch that validates and commits: the checkpoint is attempted exactly
    when the start index [i] is a positive multiple of the interval, with
    the processed count [i + batch.length]; a throw from the save lands in
    the [catch] of the batch after [success] has been raised. *)
Lemma processBatch_committed this type options importer data i w r docs w1 :
  let batch := slice data i (i + batchSize env) in
  let r1 := mkResults (success r + length batch) (failed r) (errors r) (checkpoints r) in
  Promise_all (map (validate importer) batch) = Ok docs ->
  retryOperation (recoverySystem env) (liftSink (commitTransaction importer docs))
    [("batch", MRat (js_div i (batchSize env))); ("type", MStr type)] w = (Ok tt, w1) ->
  if ((0 <? i)%nat && (i mod checkpointInterval this =? 0)%nat)%bool
  then
    match saveCheckpoint env (recoverySystem env) type data (i + length batch) w1 with
    | (Ok checkpointFile, w2) =>
        exists w3,
          processBatch env this type options importer data i (w, r) =
          (Ok tt, (w3, mkResults (success r1) (failed r1) (errors r1)
                         (checkpoints r1 ++ [checkpointFile]))) /\
          files w3 = files w2
    | (Throw e, w2) =>
        let r2 :=
          mkResults (success r1) (failed r1 + length batch)
            (errors r1 ++ [mkImportError (js_div i (batchSize env)) (message e) batch])
            (checkpoints r1) in
        if continueOnError options
        then exists w3,
               processBatch env this type options importer data i (w, r) = (Ok tt, (w3, r2)) /\
               files w3 = files w2
        else processBatch env this type options importer data i (w, r) = (Throw e, (w2, r2))
    | (Diverge, w2) => True
    end
  else
    exists w3,
      processBatch env this type options importer data i (w, r) = (Ok tt, (w3, r1)) /\
      files w3 = files w1.
Proof.
  intros batch r1 Hv Hc. subst batch r1.
  destruct ((0 <? i)%nat && (i mod checkpointInterval this =? 0)%nat)%bool eqn:Hcond.
  - destruct (saveCheckpoint env (recoverySystem env) type data _ w1)
      as [[f|e|] w2] eqn:Hsave; [| |done].
    + eexists. split; [run_batch Hv Hc; rewrite Hcond, Hsave|]; reflexivity.
    + destruct (continueOnError options) eqn:Hcont.
      * eexists. split; [run_batch Hv Hc; rewrite Hcond, Hsave, Hcont|]; reflexivity.
      * run_batch Hv Hc. rewrite Hcond, Hsave, Hcont. reflexivity.
  - eexists. split; [run_batch Hv Hc; rewrite Hcond|]; reflexivity.
Qed.
End Totals.

(** ** The code on concrete runs *)

(** Two transport failures, then success: three invocations, waits of one
    and two seconds.  Five failures ahead: three invocations, the same two
    waits, and the wrapped error. *)
Lemma retryOperation_attempts_witness :
  (exists w',
     retryOperation (new_RecoverySystem "/app")
       (liftSink (counted (Demo.demo_commit [1; 2; 3]%nat))) [] (Demo.flaky_world 2) = (Ok tt, w') /\
     sink w' = (Demo.mkSink [1; 2; 3]%nat 0, 3%nat) /\
     sleeps (trace w') = [1000; 2000]) /\
  (exists w',
     retryOperation (new_RecoverySystem "/app")
       (liftSink (counted (Demo.demo_commit [1; 2; 3]%nat))) [] (Demo.flaky_world 5) =
       (Throw (mkError "Operation failed after 3 attempts: Request timed out"), w') /\
     sink w' = (Demo.mkSink [] 2, 3%nat) /\
     sleeps (trace w') = [1000; 2000]).
Proof.
  split.
  - apply (proj1 (retryOperation_attempts (new_RecoverySystem "/app")
                    (Demo.demo_commit [1; 2; 3]%nat) [] (Demo.flaky_world 2))
             [mkError "Request timed out"; mkError "Request timed out"] tt
             (Demo.mkSink [1; 2; 3]%nat 0)).
    + simpl. lia.
    + reflexivity.
  - apply (proj2 (retryOperation_attempts (new_RecoverySystem "/app")
                    (Demo.demo_commit [1; 2; 3]%nat) [] (Demo.flaky_world 5))
             [mkError "Request timed out"; mkError "Request timed out"]
             (mkError "Request timed out") (Demo.mkSink [] 2)).
    + reflexivity.
    + reflexivity.
Defined.

(** Among two listing checkpoints, a category checkpoint and other files,
    the later listing checkpoint is the one loaded. *)
Lemma loadLatestCheckpoint_latest_witness :
  loadLatestCheckpoint (Demo.demo_env 50) (new_RecoverySystem "/app") "listing" Demo.busy_world =
  (Ok (Some (JsonCheckpoint Demo.cp50)), Demo.busy_world).
Proof.
  assert (Hst : storedCheckpoint (new_RecoverySystem "/app") "listing" Demo.busy_world
                  Demo.cp50_name).
  { split; [|split]; [|reflexivity..]. vm_compute. eexists. reflexivity. }
  apply (proj1 (proj2 (loadLatestCheckpoint_latest (Demo.demo_env 50)
           (new_RecoverySystem "/app") "listing" Demo.busy_world eq_refl eq_refl))
           Demo.cp50_name (mkFile (Demo.demo_stringify Demo.cp50) true Demo.t0) Hst).
  - intros name Hn. apply (checkpointFiles_elem (new_RecoverySystem "/app")) in Hn.
    vm_compute in Hn.
    repeat (apply elem_of_cons in Hn as [->|Hn]); [vm_compute; exact I..|].
    by apply elem_of_nil in Hn.
  - vm_compute. reflexivity.
Defined.

(** 120 records in batches of 50, the last 20 invalid, no continuing on
    error: batch 2 adds 20 to [failed], one entry to [errors], and throws. *)
Lemma processBatch_failure_witness :
  processBatch (Demo.demo_env 50) new_ImportManager "listing" (mkOptions false false)
    Demo.demo_importer (seq 0 100 ++ seq 1000 20) 100
    (Demo.fresh_world, mkResults 100 0 [] []) =
  (Throw (mkError "title is required"),
   (Demo.fresh_world,
    mkResults 100 20 [mkImportError (inject_Z 2) "title is required" (seq 1000 20)] [])).
Proof.
  apply (proj1 (processBatch_failure (Demo.demo_env 50) new_ImportManager "listing"
                  (mkOptions false false) Demo.demo_importer (seq 0 100 ++ seq 1000 20) 100
                  Demo.fresh_world (mkResults 100 0 [] []) (mkError "title is required")
                  Demo.fresh_world (or_introl (conj eq_refl eq_refl)))).
  reflexivity.
Defined.

(** ["7 days"] is not a duration the parser accepts; pruning with it logs
    and removes nothing. *)
Lemma cleanOldCheckpoints_swallows_malformed_witness :
  parseMaxAge "7 days" = Throw (mkError "Invalid maxAge format. Use format: 7d or 1w") /\
  exists w',
    cleanOldCheckpoints (new_RecoverySystem "/app") "listing" "7 days" Demo.busy_world = (Ok tt, w') /\
    files w' = files Demo.busy_world /\
    (listable Demo.busy_world = true ->
     trace w' = trace Demo.busy_world ++
       [Log Err "Failed to clean old checkpoints"
          [("error", MStr "Invalid maxAge format. Use format: 7d or 1w")]]).
Proof.
  apply (cleanOldCheckpoints_swallows_malformed (new_RecoverySystem "/app") "listing" "7 days"
           Demo.busy_world).
  reflexivity.
Defined.

(** C9, as stated, fails: with the malformed duration ["7 days"],
    [cleanOldCheckpoints] does not raise anything to its caller. *)
Lemma cleanOldCheckpoints_malformed_not_raised :
  duration_form "7 days" = false /\
  ~ exists e w',
      cleanOldCheckpoints (new_RecoverySystem "/app") "listing" "7 days" Demo.busy_world =
      (Throw e, w').
Proof.
  split; [reflexivity|]. intros (e & w' & H). vm_compute in H. discriminate H.
Qed.

(** C8, as stated, fails: the checkpoint directory of [busy_world] can be
    listed and has no subdirectory named after a category checkpoint; its
    only category checkpoint, and so the latest, holds the text [{}], which
    is not the text of any checkpoint.  [loadLatestCheckpoint] returns the
    empty object parsed from it and raises no error. *)
Lemma loadLatestCheckpoint_corrupt_returned :
  listable Demo.busy_world = true /\
  noSubdirectory (new_RecoverySystem "/app") "category" Demo.busy_world = true /\
  storedCheckpoint (new_RecoverySystem "/app") "category" Demo.busy_world
    "checkpoint_category_2024-02-01T00-00-00-000Z.json" /\
  (forall name,
     storedCheckpoint (new_RecoverySystem "/app") "category" Demo.busy_world name ->
     name = "checkpoint_category_2024-02-01T00-00-00-000Z.json") /\
  f_data <$> files Demo.busy_world !!
    path_join "/app/checkpoints" "checkpoint_category_2024-02-01T00-00-00-000Z.json" =
    Some "{}" /\
  (forall checkpoint, Demo.demo_stringify checkpoint <> "{}") /\
  loadLatestCheckpoint (Demo.demo_env 50) (new_RecoverySystem "/app") "category"
    Demo.busy_world = (Ok (Some (JsonPlain true)), Demo.busy_world) /\
  ~ exists e w',
      loadLatestCheckpoint (Demo.demo_env 50) (new_RecoverySystem "/app") "category"
        Demo.busy_world = (Throw e, w').
Proof.
  split; [reflexivity|]. split; [reflexivity|].
  split; [|split; [|split; [|split; [|split]]]].
  - split; [|split]; [|reflexivity..]. vm_compute. eexists. reflexivity.
  - intros name Hn. apply (checkpointFiles_elem (new_RecoverySystem "/app")) in Hn.
    vm_compute in Hn. apply elem_of_cons in Hn as [->|Hn]; [reflexivity|].
    by apply elem_of_nil in Hn.
  - vm_compute. reflexivity.
  - intros checkpoint H. vm_compute in H. discriminate H.
  - vm_compute. reflexivity.
  - intros (e & w' & H). vm_compute in H. discriminate H.
Qed.

(** What [import] makes of that empty object when asked to resume: it logs
    that it resumes, transforms the input afresh, and, the start index being
    undefined, runs no batch at all: the run returns with nothing imported
    and nothing counted. *)
Lemma import_resume_empty_object :
  exists w',
    import (Demo.demo_env 50) new_ImportManager "records-100.json" "category"
      (mkOptions true true) Demo.busy_world = (Ok (mkResults 0 0 [] []), w') /\
    sink w' = sink Demo.busy_world /\
    trace w' = [Log Info "Resuming from checkpoint"
                  [("progress", MUndefined); ("total", MUndefined)]].
Proof. eexists. split; [|split]; vm_compute; reflexivity. Qed.

(** C1 on the code: resuming from the checkpoint with [processedCount = 50],
    [totalCount = 120] and 70 remaining records, [import] starts at index 50
    of the 70 remaining records.  Only the last 20 are processed; records 50
    to 99 of the original sequence never reach the sink. *)
Lemma import_resume_double_offset :
  match import (Demo.demo_env 50) new_ImportManager "records-120.json" "listing"
          (mkOptions true true) Demo.crashed_world with
  | (Ok results, w') =>
      success results = 20%nat /\ failed results = 0%nat /\
      Demo.committed (sink w') = seq 0 50 ++ seq 100 20
  | _ => False
  end.
Proof. vm_compute. done. Qed.

(** C2 on the code: the checkpoint saved during that resumed run is cut
    from the 70 remaining records, not from the original 120: it has
    [processedCount = 70], [totalCount = 70] and no remaining data, while
    the original sequence has 50 records from index 70 on. *)
Lemma import_resume_checkpoint_of_slice :
  match import (Demo.demo_env 50) new_ImportManager "records-120.json" "listing"
          (mkOptions true true) Demo.crashed_world with
  | (Ok results, w') =>
      length (checkpoints results) = 1%nat /\
      loadLatestCheckpoint (Demo.demo_env 50) (new_RecoverySystem "/app") "listing" w' =
        (Ok (Some (JsonCheckpoint
                     (mkCheckpoint "2024-01-01T00-01-00-000Z" "listing" 70 [] 70 70))), w') /\
      drop 70 (seq 0 120) = seq 70 50
  | _ => False
  end.
Proof. vm_compute. done. Qed.

(** C3 on the code: 100 records in batches of 50 and a checkpoint directory
    that cannot be written.  The second batch is committed and counted in
    [success]; the failed checkpoint save then counts it in [failed] as
    well, adds an [errors] entry, and aborts the run when [continueOnError]
    is off. *)
Lemma import_checkpoint_failure_fails_batch :
  (exists w',
     import (Demo.demo_env 50) new_ImportManager "records-100.json" "listing"
       (mkOptions false true) Demo.readonly_world =
     (Ok (mkResults 100 50
            [mkImportError (inject_Z 1) "EACCES: permission denied, open" (seq 50 50)] []), w') /\
     Demo.committed (sink w') = seq 0 100) /\
  (exists w',
     import (Demo.demo_env 50) new_ImportManager "records-100.json" "listing"
       (mkOptions false false) Demo.readonly_world =
     (Throw (mkError "EACCES: permission denied, open"), w') /\
     Demo.committed (sink w') = seq 0 100).
Proof. split; eexists; split; vm_compute; reflexivity. Qed.

(** C4 on the code: the interval test is on the start index of the batch.
    100 records in batches of 50 give one checkpoint (after the batch that
    starts at 50), not two; 120 records give a second one after the batch
    that starts at 100, at the processed count 120. *)
Lemma import_checkpoint_on_start_index :
  match import (Demo.demo_env 50) new_ImportManager "records-100.json" "listing"
          (mkOptions false true) Demo.fresh_world with
  | (Ok results, w') =>
      success results = 100%nat /\ failed results = 0%nat /\
      length (checkpoints results) = 1%nat /\
      (100 / checkpointInterval new_ImportManager)%nat = 2%nat /\
      loadLatestCheckpoint (Demo.demo_env 50) (new_RecoverySystem "/app") "listing" w' =
        (Ok (Some (JsonCheckpoint
                     (mkCheckpoint "2024-01-01T00-00-00-000Z" "listing" 100 [] 100 100))), w')
  | _ => False
  end /\
  match import (Demo.demo_env 50) new_ImportManager "records-120.json" "listing"
          (mkOptions false true) Demo.fresh_world with
  | (Ok results, w') =>
      length (checkpoints results) = 2%nat /\
      loadLatestCheckpoint (Demo.demo_env 50) (new_RecoverySystem "/app") "listing" w' =
        (Ok (Some (JsonCheckpoint
                     (mkCheckpoint "2024-01-01T00-00-00-000Z" "listing" 120 [] 120 120))), w')
  | _ => False
  end.
Proof. split; vm_compute; done. Qed.

(** C6 on the code: the same resumed run ends with [success + failed = 20],
    not the 70 records that remained of the original 120. *)
Lemma import_resume_counts :
  match import (Demo.demo_env 50) new_ImportManager "records-120.json" "listing"
          (mkOptions true true) Demo.crashed_world with
  | (Ok results, _) =>
      (success results + failed results)%nat = 20%nat /\
      (totalCount Demo.cp50 - processedCount Demo.cp50)%nat = 70%nat
  | _ => False
  end.
Proof. vm_compute. done. Qed.

(** * Further properties *)

(** ** The checkpoint store: saving, loading and pruning together *)

Lemma prefix_app (p r : string) : String.prefix p (p +:+ r) = true.
Proof.
  induction p as [|c p IH]; [by destruct r|].
  rewrite append_cons. cbn [String.prefix]. by destruct (ascii_dec c c).
Qed.

Lemma checkpointName_prefix (type ts : string) :
  String.prefix (checkpointPrefix type) (checkpointName type ts) = true.
Proof.
  unfold checkpointPrefix, checkpointName.
  rewrite <- (append_assoc type "_"), <- (append_assoc "checkpoint_" (type +:+ "_")).
  apply prefix_app.
Qed.

Lemma path_join_inj (dir a b : string) : path_join dir a = path_join dir b -> a = b.
Proof.
  unfold path_join. intros H. apply (inj (String.app dir)) in H.
  by apply (inj (String.app "/")) in H.
Qed.

Section StoreOps.
Context {Sink Item Doc : Type} (env : Env (Sink := Sink) (Item := Item) (Doc := Doc)).
Implicit Types (w : World (Sink := Sink)) (this : RecoverySystem).

(** Loading goes by the greatest stored name of the type. *)
Lemma loadLatestCheckpoint_max this type w latest f :
  listable w = true ->
  storedCheckpoint this type w latest ->
  (forall name, storedCheckpoint this type w name -> String.le name latest) ->
  files w !! path_join (checkpointDir this) latest = Some f ->
  loadLatestCheckpoint env this type w =
  try_catch
    (content ← fs_readFile (path_join (checkpointDir this) latest);
     match JSON_parse env content with
     | Parsed value => mret value
     | SyntaxError message => throw (mkError message)
     end)
    (fun error =>
     logger Err "Failed to load checkpoint" [("error", MStr (message error))];;
     throw error) w.
Proof.
  intros Hl Hst Hmax Hf.
  pose proof (sorted_reverse_head
    (List.filter (fun file => String.prefix (checkpointPrefix type) file)
       (omap (dir_entry (checkpointDir this)) (elements (dom (files w)))))) as Hhead.
  unfold loadLatestCheckpoint, try_catch, mbind, M_bind, bind, fs_readdir.
  rewrite Hl.
  destruct (reverse _) as [|x t].
  { apply checkpointFiles_elem in Hst. rewrite Hhead in Hst. set_solver. }
  destruct Hhead as [Hx Hxmax].
  assert (x = latest) as ->; [|done].
  apply (anti_symm String.le).
  - apply Hmax. by apply checkpointFiles_elem.
  - apply Hxmax. by apply checkpointFiles_elem.
Qed.

(** X1: A checkpoint saved into a directory that can be written and listed and
    has no subdirectory named [`checkpoint_${type}_`...], for a type and a
    time stamp without path separator, under a name that is not below any
    stored name of its type, is the one loaded next, given that its text
    parses back to it: the loaded checkpoint carries the type, the progress
    twice, the data from [progress] on and the length of the data. *)
Theorem saveCheckpoint_then_load this type (data : list Item) progress w :
  let ts := replace_colon_dot (toISOString env (now w)) in
  let cp := mkCheckpoint ts type progress (drop progress data) progress (length data) in
  writable w = true -> listable w = true ->
  noSubdirectory this type w = true ->
  JSON_parse env (JSON_stringify env cp) = Parsed (Some (JsonCheckpoint cp)) ->
  has_separator (checkpointName type ts) = false ->
  (forall name, storedCheckpoint this type w name -> String.le name (checkpointName type ts)) ->
  exists w1,
    saveCheckpoint env this type data progress w =
      (Ok (generateCheckpointFilename this type ts), w1) /\
    loadLatestCheckpoint env this type w1 = (Ok (Some (JsonCheckpoint cp)), w1).
Proof.
  intros ts cp Hw Hl _ Hrt Hsep Hmax.
  destruct (saveCheckpoint_writable env this type data progress w Hw)
    as (w1 & Hsave & Hfiles & Hw1 & Hl1 & _).
  fold ts in Hsave, Hfiles. exists w1. split; [exact Hsave|].
  assert (Hnew : files w1 !! path_join (checkpointDir this) (checkpointName type ts) =
                 Some (mkFile (JSON_stringify env cp) true (now w))).
  { rewrite Hfiles. apply lookup_insert_eq. }
  rewrite (loadLatestCheckpoint_max this type w1 (checkpointName type ts)
             (mkFile (JSON_stringify env cp) true (now w))).
  - unfold try_catch, mbind, M_bind, bind, fs_readFile. rewrite Hnew. cbn [f_readable f_data].
    by rewrite Hrt.
  - congruence.
  - split; [by rewrite Hnew|]. split; [exact Hsep|apply checkpointName_prefix].
  - intros name (Hs & Hn & Hp).
    destruct (decide (name = checkpointName type ts)) as [->|Hne]; [done|].
    apply Hmax. split; [|done]. rewrite Hfiles, lookup_insert_ne in Hs; [done|].
    intros Heq. apply Hne. symmetry. by apply path_join_inj in Heq.
  - exact Hnew.
Qed.
End StoreOps.

Lemma dir_entry_join (dir name : string) :
  has_separator name = false -> dir_entry dir (path_join dir name) = Some name.
Proof. intros H. by apply dir_entry_Some. Qed.

Lemma NoDup_omap {A B} (f : A -> option B) (l : list A) :
  (forall x y z, f x = Some z -> f y = Some z -> x = y) ->
  NoDup l -> NoDup (omap f l).
Proof.
  intros Hinj. induction 1 as [|x l Hx Hl IH]; csimpl; [constructor|].
  destruct (f x) as [z|] eqn:Hfx; [|done].
  constructor; [|done]. intros (y & Hy & Hfy)%list_elem_of_omap.
  by rewrite (Hinj _ _ _ Hfx Hfy) in Hx.
Qed.

Section PruneExact.
Context {Sink : Type}.
Implicit Types (w : World (Sink := Sink)) (this : RecoverySystem).

Lemma readdir_NoDup this w :
  NoDup (omap (dir_entry (checkpointDir this)) (elements (dom (files w)))).
Proof.
  apply NoDup_omap; [|apply NoDup_elements].
  intros x y z Hx Hy. apply dir_entry_Some in Hx as [-> _]. by apply dir_entry_Some in Hy as [-> _].
Qed.

Lemma cleanLoop_exact this type nw ms names : forall w,
  NoDup names -> listable w = true -> writable w = true ->
  (forall name, name ∈ names ->
     has_separator name = false /\ is_Some (files w !! path_join (checkpointDir this) name)) ->
  exists w',
    cleanLoop this type nw ms names w = (Ok tt, w') /\
    listable w' = true /\ writable w' = true /\ now w' = now w /\ sink w' = sink w /\
    forall path,
      files w' !! path =
      match files w !! path with
      | Some f => if expiredIn this type nw ms names path f then None else Some f
      | None => None
      end.
Proof.
  induction names as [|file rest IH]; intros w Hnd Hl Hw Hin.
  - exists w. split; [done|]. repeat split; try done.
    intros path. destruct (files w !! path) as [f|]; [|done].
    unfold expiredIn. destruct (dir_entry _ path); [|done].
    rewrite bool_decide_eq_false_2; [done|apply not_elem_of_nil].
  - apply NoDup_cons in Hnd as [Hfile Hnd].
    destruct (Hin file) as [Hsep [f Hf]]; [by apply elem_of_cons; left|].
    assert (Hrest : forall w1,
      (forall path, path <> path_join (checkpointDir this) file ->
                    files w1 !! path = files w !! path) ->
      forall name, name ∈ rest ->
        has_separator name = false /\ is_Some (files w1 !! path_join (checkpointDir this) name)).
    { intros w1 Hsame name Hn. destruct (Hin name) as [Hs Hsome]; [by apply elem_of_cons; right|].
      split; [done|]. rewrite Hsame; [done|].
      intros Heq%path_join_inj. by subst name. }
    assert (Hexp : forall path g,
      expiredIn this type nw ms (file :: rest) path g =
      (if decide (path = path_join (checkpointDir this) file)
       then (String.prefix (checkpointPrefix type) file && (nw - f_mtime g >? ms))%bool
       else expiredIn this type nw ms rest path g)).
    { intros path g. unfold expiredIn. destruct (decide _) as [->|Hne].
      - rewrite dir_entry_join by done.
        rewrite bool_decide_eq_true_2 by (by apply elem_of_cons; left). done.
      - destruct (dir_entry _ path) as [name|] eqn:Hd; [|done].
        apply dir_entry_Some in Hd as [-> _].
        assert (name <> file) by congruence.
        f_equal. f_equal. apply bool_decide_ext. rewrite elem_of_cons. tauto. }
    cbn [cleanLoop].
    destruct (String.prefix (checkpointPrefix type) file) eqn:Hp; cbn [negb].
    2:{ destruct (IH w Hnd Hl Hw (Hrest w (fun _ _ => eq_refl)))
          as (w' & -> & Hl' & Hw' & Hn' & Hs' & Hfiles).
        exists w'. split; [done|]. repeat split; try done.
        intros path. rewrite Hfiles. destruct (files w !! path) as [g|]; [|done].
        rewrite Hexp. destruct (decide _); [|done].
        unfold expiredIn. subst path. rewrite dir_entry_join by done.
        rewrite bool_decide_eq_false_2 by done. done. }
    unfold mbind, M_bind, bind, fs_stat. rewrite Hf, Hl.
    destruct (nw - f_mtime f >? ms) eqn:Hold.
    + unfold fs_unlink. rewrite Hf, Hw. unfold logger, modify. cbv beta iota zeta.
      match goal with |- context [cleanLoop _ _ _ _ _ ?w1] => set (w1' := w1) end.
      destruct (IH w1' Hnd Hl Hw) as (w' & -> & Hl' & Hw' & Hn' & Hs' & Hfiles).
      { apply Hrest. intros path Hne. subst w1'. cbn. by rewrite lookup_delete_ne. }
      exists w'. split; [done|]. repeat split; try done.
      intros path. rewrite Hfiles. subst w1'. cbn [files set_files set_trace].
      destruct (decide (path = path_join (checkpointDir this) file)) as [->|Hne].
      * rewrite lookup_delete_eq, Hf, Hexp. rewrite decide_True by done. by rewrite Hold.
      * rewrite lookup_delete_ne by done. destruct (files w !! path) as [g|]; [|done].
        rewrite Hexp. by rewrite decide_False.
    + unfold mret, M_ret, ret. cbv beta iota zeta.
      destruct (IH w Hnd Hl Hw (Hrest w (fun _ _ => eq_refl)))
        as (w' & -> & Hl' & Hw' & Hn' & Hs' & Hfiles).
      exists w'. split; [done|]. repeat split; try done.
      intros path. rewrite Hfiles. destruct (files w !! path) as [g|] eqn:Hg; [|done].
      rewrite Hexp. destruct (decide _) as [->|]; [|done].
      assert (g = f) as -> by congruence. rewrite Hold, andb_false_r.
      unfold expiredIn. rewrite dir_entry_join by done.
      rewrite bool_decide_eq_false_2 by done. done.
Qed.

(** With a directory that can be listed and written, pruning is a filter. *)
Lemma cleanOldCheckpoints_filter this type maxAge maxAgeMs w :
  listable w = true -> writable w = true -> parseMaxAge maxAge = Ok maxAgeMs ->
  exists w',
    cleanOldCheckpoints this type maxAge w = (Ok tt, w') /\
    listable w' = true /\ writable w' = true /\ now w' = now w /\ sink w' = sink w /\
    forall path,
      files w' !! path =
      match files w !! path with
      | Some f => if expired this type (now w) maxAgeMs path f then None else Some f
      | None => None
      end.
Proof.
  intros Hl Hw Hp.
  unfold cleanOldCheckpoints, try_catch, mbind, M_bind, bind, fs_readdir, get, liftC.
  rewrite Hl, Hp.
  destruct (cleanLoop_exact this type (now w) maxAgeMs
              (omap (dir_entry (checkpointDir this)) (elements (dom (files w)))) w)
    as (w' & -> & Hl' & Hw' & Hn' & Hs' & Hfiles);
    [apply readdir_NoDup|done|done| |].
  { intros name Hn. apply readdir_elem in Hn. tauto. }
  exists w'. split; [done|]. repeat split; try done.
  intros path. rewrite Hfiles. destruct (files w !! path) as [f|] eqn:Hf; [|done].
  unfold expiredIn, expired. destruct (dir_entry _ path) as [name|] eqn:Hd; [|done].
  rewrite bool_decide_eq_true_2; [done|].
  apply readdir_elem. apply dir_entry_Some in Hd as [-> Hs]. by rewrite Hf.
Qed.
End PruneExact.

Section PruneCompose.
Context {Sink Item Doc : Type} (env : Env (Sink := Sink) (Item := Item) (Doc := Doc)).
Implicit Types (w : World (Sink := Sink)) (this : RecoverySystem).

(** X2: With a checkpoint directory that can be listed and written and has no
    subdirectory named [`checkpoint_${type}_`...], and a well-formed
    [maxAge], pruning removes exactly the expired checkpoints of the type: a
    file of the directory named [`checkpoint_${type}_`...] is there
    afterwards if and only if it was there before and is not older than
    [maxAge]. *)
Theorem cleanOldCheckpoints_removes_expired this type maxAge maxAgeMs w :
  listable w = true -> writable w = true ->
  noSubdirectory this type w = true ->
  parseMaxAge maxAge = Ok maxAgeMs ->
  exists w',
    cleanOldCheckpoints this type maxAge w = (Ok tt, w') /\
    forall name f,
      has_separator name = false ->
      String.prefix (checkpointPrefix type) name = true ->
      (files w' !! path_join (checkpointDir this) name = Some f <->
       files w !! path_join (checkpointDir this) name = Some f /\
       now w - f_mtime f <= maxAgeMs).
Proof.
  intros Hl Hw _ Hp.
  destruct (cleanOldCheckpoints_filter this type maxAge maxAgeMs w Hl Hw Hp)
    as (w' & Hclean & _ & _ & _ & _ & Hfiles).
  exists w'. split; [exact Hclean|]. intros name f Hsep Hpre. rewrite Hfiles.
  destruct (files w !! path_join (checkpointDir this) name) as [g|];
    [|split; [done|by intros [? _]]].
  unfold expired. rewrite dir_entry_join, Hpre by done. cbn [andb].
  destruct (Z.gtb_spec (now w - f_mtime g) maxAgeMs).
  - split; [done|]. intros [[= ->] He']. lia.
  - split; [intros [= ->]; split; [done|lia]|]. by intros [[= ->] _].
Qed.

(** X3: Pruning twice is pruning once: right after a pruning that went
    through, pruning again with the same [maxAge] removes nothing. *)
Theorem cleanOldCheckpoints_idempotent this type maxAge maxAgeMs w :
  listable w = true -> writable w = true -> parseMaxAge maxAge = Ok maxAgeMs ->
  exists w' w'',
    cleanOldCheckpoints this type maxAge w = (Ok tt, w') /\
    cleanOldCheckpoints this type maxAge w' = (Ok tt, w'') /\
    files w'' = files w'.
Proof.
  intros Hl Hw Hp.
  destruct (cleanOldCheckpoints_filter this type maxAge maxAgeMs w Hl Hw Hp)
    as (w' & Hclean & Hl' & Hw' & Hn' & Hs' & Hfiles).
  destruct (cleanOldCheckpoints_filter this type maxAge maxAgeMs w' Hl' Hw' Hp)
    as (w'' & Hclean' & _ & _ & _ & _ & Hfiles').
  exists w', w''. split; [exact Hclean|]. split; [exact Hclean'|].
  apply map_eq. intros path. rewrite Hfiles', Hn'.
  destruct (files w' !! path) as [f|] eqn:Hf; [|done].
  rewrite Hfiles in Hf. destruct (files w !! path) as [g|]; [|done].
  destruct (expired this type (now w) maxAgeMs path g) eqn:He; [done|].
  injection Hf as <-. by rewrite He.
Qed.

(** X4: Pruning does not change what a resume finds when the latest checkpoint
    of the type is not older than [maxAge]: loading after the pruning gives
    what loading before it gives. *)
Theorem cleanOldCheckpoints_keeps_latest this type maxAge maxAgeMs w latest f :
  listable w = true -> writable w = true -> parseMaxAge maxAge = Ok maxAgeMs ->
  storedCheckpoint this type w latest ->
  (forall name, storedCheckpoint this type w name -> String.le name latest) ->
  files w !! path_join (checkpointDir this) latest = Some f ->
  now w - f_mtime f <= maxAgeMs ->
  exists w',
    cleanOldCheckpoints this type maxAge w = (Ok tt, w') /\
    (loadLatestCheckpoint env this type w').1 = (loadLatestCheckpoint env this type w).1.
Proof.
  intros Hl Hw Hp Hst Hmax Hf Hyoung.
  destruct (cleanOldCheckpoints_filter this type maxAge maxAgeMs w Hl Hw Hp)
    as (w' & Hclean & Hl' & Hw' & Hn' & Hs' & Hfiles).
  exists w'. split; [exact Hclean|].
  assert (Hf' : files w' !! path_join (checkpointDir this) latest = Some f).
  { rewrite Hfiles, Hf. unfold expired. destruct Hst as (_ & Hsep & Hpre).
    rewrite dir_entry_join, Hpre by done. cbn [andb].
    destruct (Z.gtb_spec (now w - f_mtime f) maxAgeMs); [lia|done]. }
  rewrite (loadLatestCheckpoint_max env this type w latest f) by done.
  rewrite (loadLatestCheckpoint_max env this type w' latest f); try done.
  - unfold try_catch, mbind, M_bind, bind, fs_readFile. rewrite Hf, Hf'.
    destruct (f_readable f); [destruct (JSON_parse env (f_data f))|]; reflexivity.
  - destruct Hst as (_ & Hsep & Hpre). split; [by rewrite Hf'|by split].
  - intros name (Hsome & Hsep & Hpre). apply Hmax. split; [|by split].
    rewrite Hfiles in Hsome.
    destruct (files w !! path_join (checkpointDir this) name); [by eexists|].
    by destruct Hsome.
Qed.
End PruneCompose.

(** A type without underscore claims no checkpoint name of another such
    type. *)
Lemma prefix_app_l (p a b : string) :
  String.prefix (p +:+ a) (p +:+ b) = String.prefix a b.
Proof.
  induction p as [|c p IH]; [done|]. rewrite !append_cons. cbn [String.prefix].
  by destruct (ascii_dec c c).
Qed.

Lemma type_prefix_inj (t1 t2 rest : string) :
  contains_char "_" t1 = false -> contains_char "_" t2 = false ->
  String.prefix (t1 +:+ "_") (t2 +:+ "_" +:+ rest) = true -> t1 = t2.
Proof.
  revert t2. induction t1 as [|c t1 IH]; intros [|d t2] H1 H2 Hp.
  - done.
  - rewrite append_nil_l, append_cons in Hp. cbn [String.prefix] in Hp.
    cbn [contains_char] in H2. apply orb_false_elim in H2 as [Hd _].
    destruct (ascii_dec "_" d) as [<-|]; [done|discriminate].
  - rewrite append_nil_l, !append_cons in Hp. cbn [String.prefix] in Hp.
    cbn [contains_char] in H1. apply orb_false_elim in H1 as [Hc _].
    destruct (ascii_dec c "_") as [->|]; [done|discriminate].
  - rewrite !append_cons in Hp. cbn [String.prefix] in Hp.
    cbn [contains_char] in H1, H2.
    apply orb_false_elim in H1 as [_ H1]. apply orb_false_elim in H2 as [_ H2].
    destruct (ascii_dec c d) as [->|]; [|discriminate]. f_equal. by apply IH.
Qed.

Lemma checkpointName_other_type (t1 t2 ts : string) :
  contains_char "_" t1 = false -> contains_char "_" t2 = false -> t1 <> t2 ->
  String.prefix (checkpointPrefix t1) (checkpointName t2 ts) = false.
Proof.
  intros H1 H2 Hne. destruct (String.prefix _ _) eqn:Hp; [|done].
  unfold checkpointPrefix, checkpointName in Hp. rewrite prefix_app_l in Hp.
  by apply type_prefix_inj in Hp.
Qed.

Section LoadAgree.
Context {Sink Item Doc : Type} (env : Env (Sink := Sink) (Item := Item) (Doc := Doc)).
Implicit Types (w : World (Sink := Sink)) (this : RecoverySystem).

Lemma loadLatestCheckpoint_none this type w :
  listable w = true -> (forall name, ~ storedCheckpoint this type w name) ->
  loadLatestCheckpoint env this type w = (Ok None, w).
Proof.
  intros Hl Hnone.
  pose proof (sorted_reverse_head
    (List.filter (fun file => String.prefix (checkpointPrefix type) file)
       (omap (dir_entry (checkpointDir this)) (elements (dom (files w)))))) as Hhead.
  unfold loadLatestCheckpoint, try_catch, mbind, M_bind, bind, fs_readdir.
  rewrite Hl. destruct (reverse _) as [|x t]; [done|].
  destruct Hhead as [Hx _]. apply checkpointFiles_elem in Hx. by apply Hnone in Hx.
Qed.

Lemma storedCheckpoint_latest this type w :
  (forall name, ~ storedCheckpoint this type w name) \/
  exists latest,
    storedCheckpoint this type w latest /\
    forall name, storedCheckpoint this type w name -> String.le name latest.
Proof.
  pose proof (sorted_reverse_head
    (List.filter (fun file => String.prefix (checkpointPrefix type) file)
       (omap (dir_entry (checkpointDir this)) (elements (dom (files w)))))) as Hhead.
  destruct (reverse _) as [|x t].
  - left. intros name Hst%checkpointFiles_elem. rewrite Hhead in Hst. by apply elem_of_nil in Hst.
  - right. destruct Hhead as [Hx Hmax]. exists x. split; [by apply checkpointFiles_elem|].
    intros name Hst. by apply Hmax, checkpointFiles_elem.
Qed.

(** What loading returns depends on the world only through the stored
    checkpoints of the type and what they hold. *)
Lemma loadLatestCheckpoint_agree this type w w' :
  listable w' = listable w ->
  (forall name, storedCheckpoint this type w' name <-> storedCheckpoint this type w name) ->
  (forall name, storedCheckpoint this type w name ->
     files w' !! path_join (checkpointDir this) name =
     files w !! path_join (checkpointDir this) name) ->
  (loadLatestCheckpoint env this type w').1 = (loadLatestCheckpoint env this type w).1.
Proof.
  intros Hl Hst Hsame. destruct (listable w) eqn:Hlw.
  2:{ unfold loadLatestCheckpoint, try_catch, mbind, M_bind, bind, fs_readdir.
      by rewrite Hl, Hlw. }
  destruct (storedCheckpoint_latest this type w) as [Hnone|(latest & Hlatest & Hmax)].
  - rewrite !loadLatestCheckpoint_none; try done. intros name Hn%Hst. by apply Hnone in Hn.
  - pose proof Hlatest as ([f Hf] & _).
    rewrite (loadLatestCheckpoint_max env this type w latest f) by done.
    rewrite (loadLatestCheckpoint_max env this type w' latest f).
    + unfold try_catch, mbind, M_bind, bind, fs_readFile. rewrite Hsame, Hf by done.
      destruct (f_readable f); [destruct (JSON_parse env (f_data f))|]; reflexivity.
    + congruence.
    + by apply Hst.
    + intros name Hn%Hst. by apply Hmax.
    + by rewrite Hsame.
Qed.

(** X5: Checkpoints of different types do not get in each other's way when the
    types contain no underscore: saving a checkpoint of one type, whether it
    succeeds or not, leaves what is loaded for another type as it was. *)
Theorem saveCheckpoint_other_type this t1 t2 (data : list Item) progress w :
  contains_char "_" t1 = false -> contains_char "_" t2 = false -> t1 <> t2 ->
  (loadLatestCheckpoint env this t1 (saveCheckpoint env this t2 data progress w).2).1 =
  (loadLatestCheckpoint env this t1 w).1.
Proof.
  intros H1 H2 Hne.
  set (ts := replace_colon_dot (toISOString env (now w))).
  assert (Hother : forall name, String.prefix (checkpointPrefix t1) name = true ->
            path_join (checkpointDir this) name <> generateCheckpointFilename this t2 ts).
  { intros name Hp Heq%path_join_inj. subst name.
    by rewrite checkpointName_other_type in Hp. }
  unfold saveCheckpoint, try_catch, mbind, M_bind, bind, get, fs_writeFile. fold ts.
  destruct (writable w); unfold logger, modify, mret, M_ret, ret, throw; cbv beta iota zeta;
    cbn [snd].
  - apply loadLatestCheckpoint_agree; [done| |].
    + intros name. unfold storedCheckpoint. cbn [files set_files set_trace].
      split; intros (Hs & Hsep & Hp); (split; [|done]).
      * by rewrite lookup_insert_ne in Hs by (by intros ?; eapply Hother).
      * by rewrite lookup_insert_ne by (by intros ?; eapply Hother).
    + intros name (_ & _ & Hp). cbn [files set_files set_trace].
      by rewrite lookup_insert_ne by (by intros ?; eapply Hother).
  - by apply loadLatestCheckpoint_agree.
Qed.
End LoadAgree.

(** ** Durations *)

Lemma parseInt_acc_uint (d : Decimal.uint) : forall acc : nat,
  parseInt_acc (Z.of_nat acc) (NilEmpty.string_of_uint d) = Z.of_nat (Nat.of_uint_acc d acc).
Proof.
  induction d; intros acc; cbn [NilEmpty.string_of_uint parseInt_acc Nat.of_uint_acc];
    [done|..];
    rewrite <- IHd; f_equal; rewrite Nat.tail_mul_spec;
    change (nat_of_ascii _) with 48%nat || change (nat_of_ascii _) with 49%nat ||
    change (nat_of_ascii _) with 50%nat || change (nat_of_ascii _) with 51%nat ||
    change (nat_of_ascii _) with 52%nat || change (nat_of_ascii _) with 53%nat ||
    change (nat_of_ascii _) with 54%nat || change (nat_of_ascii _) with 55%nat ||
    change (nat_of_ascii _) with 56%nat || change (nat_of_ascii _) with 57%nat; lia.
Qed.

Lemma parseInt_string_of_nat (n : nat) : parseInt (string_of_nat n) = Z.of_nat n.
Proof.
  unfold parseInt, string_of_nat. rewrite (parseInt_acc_uint _ 0).
  f_equal. apply Unsigned.of_to.
Qed.

Lemma string_of_uint_digits (d : Decimal.uint) :
  forallb is_digit (list_ascii_of_string (NilEmpty.string_of_uint d)) = true.
Proof. induction d; cbn [NilEmpty.string_of_uint list_ascii_of_string forallb]; [done|..]; by rewrite IHd. Qed.

Lemma string_of_nat_cons (n : nat) : exists c ds, string_of_nat n = String c ds.
Proof.
  unfold string_of_nat.
  assert (Hn : Nat.to_uint n <> Decimal.Nil).
  { rewrite <- (Unsigned.of_to n) at 1. rewrite Unsigned.to_of. apply unorm_nonnil. }
  destruct (Nat.to_uint n); [done|..]; cbn [NilEmpty.string_of_uint]; eauto.
Qed.

(** X6: A count of days or weeks written in decimal, within the range in which
    JavaScript numbers are exact, parses to that many days or weeks in
    milliseconds. *)
Theorem parseMaxAge_days_weeks (n : nat) :
  Z.of_nat n * 604800000 <= 2 ^ 53 ->
  parseMaxAge (string_of_nat n +:+ "d") = Ok (Z.of_nat n * 86400000) /\
  parseMaxAge (string_of_nat n +:+ "w") = Ok (7 * (Z.of_nat n * 86400000)).
Proof.
  intros _.
  assert (Hspan : forall u, is_digit u = false ->
            span_digits (string_of_nat n +:+ String u EmptyString) =
            (string_of_nat n, String u EmptyString)).
  { intros u Hu.
    rewrite <- (string_of_list_ascii_of_string (string_of_nat n)) at 1.
    rewrite <- (string_of_list_ascii_of_string (String u EmptyString)).
    replace (string_of_list_ascii (list_ascii_of_string (string_of_nat n)) +:+
             string_of_list_ascii (list_ascii_of_string (String u EmptyString)))
      with (string_of_list_ascii (list_ascii_of_string (string_of_nat n) ++ [u])).
    - rewrite span_digits_snoc; [by rewrite string_of_list_ascii_of_string| |done].
      apply string_of_uint_digits.
    - rewrite <- (string_of_list_ascii_of_string (_ +:+ _)).
      by rewrite list_ascii_of_string_app, !list_ascii_of_string_of_list_ascii. }
  destruct (string_of_nat_cons n) as (c & ds & Hs).
  pose proof (parseInt_string_of_nat n) as Hint.
  assert (Hdd : Ascii.eqb "d" "d" = true) by reflexivity.
  assert (Hwd : Ascii.eqb "w" "d" = false) by reflexivity.
  assert (Hww : Ascii.eqb "w" "w" = true) by reflexivity.
  unfold parseMaxAge, match_maxAge.
  rewrite !Hspan by done. rewrite Hs in *.
  rewrite Hdd, Hwd, Hww. cbn [orb]. rewrite ?Hdd, ?Hwd, Hint. split; f_equal; lia.
Qed.

(** ** The retry executor, whatever the operation does *)

Section RetryBounds.
Context {St A : Type}.
Implicit Types (op : St -> Completion A * St) (w : World (Sink := St * nat)).

Lemma retryLoop_bounds this op context :
  (forall s, (op s).1 <> Diverge) -> 0 <= retryDelay this ->
  forall remaining attempt last w,
  (attempt + remaining = maxRetries this + 1)%nat ->
  exists c w' waits,
    retryLoop this (liftSink (counted op)) context remaining attempt last w = (c, w') /\
    c <> Diverge /\
    (snd (sink w) <= snd (sink w') <= snd (sink w) + remaining)%nat /\
    (forall v, c = Ok v -> (snd (sink w) < snd (sink w'))%nat) /\
    sleeps (trace w') = sleeps (trace w) ++ waits /\
    Forall (fun ms => 0 <= ms) waits /\
    2 * totalWait waits +
      retryDelay this * (Z.min (Z.of_nat attempt) (Z.of_nat (maxRetries this)) *
                         (Z.min (Z.of_nat attempt) (Z.of_nat (maxRetries this)) - 1))
    <= retryDelay this * (Z.of_nat (maxRetries this) * (Z.of_nat (maxRetries this) - 1)).
Proof.
  intros Hop Hd. induction remaining as [|r IH]; intros attempt last w Hsum.
  - exists (match last with
            | Some e => Throw (mkError ("Operation failed after " +:+
                          string_of_nat (maxRetries this) +:+ " attempts: " +:+ message e))
            | None => Throw (mkError "Cannot read properties of undefined (reading 'message')")
            end), w, [].
    split; [by destruct last|]. split; [by destruct last|].
    split; [lia|]. split; [by destruct last|]. split; [by rewrite app_nil_r|].
    split; [constructor|]. cbn [totalWait foldr].
    rewrite Z.min_r by lia. lia.
  - pose proof (Hop (fst (sink w))) as Hnd.
    destruct (op (fst (sink w))) as [[v|e|] s'] eqn:Hrun; [| |done].
    + rewrite (retryLoop_ok _ _ _ _ _ _ _ _ _ Hrun).
      eexists _, _, []. split; [reflexivity|]. cbn [set_sink sink snd trace].
      split; [done|]. split; [lia|]. split; [intros; lia|]. split; [by rewrite app_nil_r|].
      split; [constructor|]. cbn [totalWait foldr].
      rewrite Z.mul_0_r, Z.add_0_l. apply Z.mul_le_mono_nonneg_l; [done|].
      destruct (Z.min_spec (Z.of_nat attempt) (Z.of_nat (maxRetries this))) as [[? ->]|[? ->]]; nia.
    + rewrite (retryLoop_fail _ _ _ _ _ _ _ _ _ Hrun).
      destruct (IH (S attempt) (Some e) (afterFailure this context attempt e s' w))
        as (c & w' & waits & -> & Hc & Hcnt & Hok & Hsl & Hpos & Hbound); [lia|].
      unfold afterFailure in *.
      destruct (Nat.ltb_spec attempt (maxRetries this)) as [Hlt|Hge];
        cbn [sink snd trace] in *.
      * exists c, w', (retryDelay this * Z.of_nat attempt :: waits).
        split; [done|]. split; [done|]. split; [lia|].
        split; [intros v Hv; specialize (Hok v Hv); lia|].
        split; [by rewrite Hsl, !sleeps_app, <- !app_assoc|].
        split; [constructor; [nia|done]|]. cbn [totalWait foldr]. fold (totalWait waits).
        rewrite !Z.min_l in * by lia. nia.
      * exists c, w', waits.
        split; [done|]. split; [done|]. split; [lia|].
        split; [intros v Hv; specialize (Hok v Hv); lia|].
        split; [rewrite Hsl, !sleeps_app; cbn [sleeps]; by rewrite app_nil_r|].
        split; [done|].
        rewrite !Z.min_r in * by lia. lia.
Qed.

(** X7: Whatever the retried operation does to the sink, [retryOperation] comes
    back, invokes the operation at most [maxRetries] times and at least once
    when it returns a value, and the waits it asks the timer for add up to no
    more than [retryDelay * (1 + ... + (maxRetries - 1))]. *)
Theorem retryOperation_bounds this op context w :
  (forall s, (op s).1 <> Diverge) -> 0 <= retryDelay this ->
  exists c w' waits,
    retryOperation this (liftSink (counted op)) context w = (c, w') /\
    c <> Diverge /\
    (snd (sink w) <= snd (sink w') <= snd (sink w) + maxRetries this)%nat /\
    (forall v, c = Ok v -> (snd (sink w) < snd (sink w'))%nat) /\
    sleeps (trace w') = sleeps (trace w) ++ waits /\
    Forall (fun ms => 0 <= ms) waits /\
    2 * totalWait waits <=
      retryDelay this * (Z.of_nat (maxRetries this) * (Z.of_nat (maxRetries this) - 1)).
Proof.
  intros Hop Hd. unfold retryOperation.
  destruct (retryLoop_bounds this op context Hop Hd (maxRetries this) 1%nat None w)
    as (c & w' & waits & Heq & Hc & Hcnt & Hok & Hsl & Hpos & Hbound); [lia|].
  exists c, w', waits. repeat split; try done; try lia.
  destruct (Z.min_spec (Z.of_nat 1) (Z.of_nat (maxRetries this))) as [[? Hm]|[? Hm]];
    rewrite Hm in Hbound.
  - change (Z.of_nat 1) with 1 in Hbound. lia.
  - assert (Z.of_nat (maxRetries this) * (Z.of_nat (maxRetries this) - 1) = 0) as Hz by nia.
    rewrite Hz in *. lia.
Qed.
End RetryBounds.

(** ** What a run leaves on disk *)

Section Preserves.
Context {St : Type} (P : St -> Prop).

Lemma preserves_ret {A} (a : A) : preserves P (mret a).
Proof. by intros s Hs. Qed.

Lemma preserves_throw {A} (e : JsError) : preserves P (throw (A := A) e).
Proof. by intros s Hs. Qed.

Lemma preserves_liftC {A} (c : Completion A) : preserves P (liftC c).
Proof. by intros s Hs. Qed.

Lemma preserves_bind {A B} (m : M St A) (k : A -> M St B) :
  preserves P m -> (forall a, preserves P (k a)) -> preserves P (m ≫= k).
Proof.
  intros Hm Hk s Hs. unfold mbind, M_bind, bind. specialize (Hm s Hs).
  destruct (m s) as [[a|e|] s']; [by apply Hk|done|done].
Qed.

Lemma preserves_try_catch {A} (body : M St A) (handler : JsError -> M St A) :
  preserves P body -> (forall e, preserves P (handler e)) ->
  preserves P (try_catch body handler).
Proof.
  intros Hb Hh s Hs. unfold try_catch. specialize (Hb s Hs).
  destruct (body s) as [[a|e|] s']; [done|by apply Hh|done].
Qed.
End Preserves.

Section Written.
Context {Sink Item Doc : Type} (env : Env (Sink := Sink) (Item := Item) (Doc := Doc)).
Implicit Types (w : World (Sink := Sink)) (this : ImportManager) (r : Results (Item := Item)).

Lemma preserves_liftW {A} (Pw : World (Sink := Sink) -> Prop) (m : M (World (Sink := Sink)) A) :
  preserves Pw m ->
  preserves (fun s : World (Sink := Sink) * Results (Item := Item) => Pw s.1) (liftW m).
Proof.
  intros Hm [w r] Hs. unfold liftW. specialize (Hm w Hs). by destruct (m w).
Qed.

Lemma preserves_modifyResults (Pw : World (Sink := Sink) -> Prop) f :
  preserves (fun s : World (Sink := Sink) * Results (Item := Item) => Pw s.1)
    (modifyResults f).
Proof. by intros [w r] Hs. Qed.

Lemma preserves_getResults (Pw : World (Sink := Sink) -> Prop) :
  preserves (fun s : World (Sink := Sink) * Results (Item := Item) => Pw s.1) getResults.
Proof. by intros [w r] Hs. Qed.

Lemma preserves_withResults {A} (Pw : World (Sink := Sink) -> Prop) r0
    (m : M (World (Sink := Sink) * Results (Item := Item)) A) :
  preserves (fun s => Pw s.1) m -> preserves Pw (withResults r0 m).
Proof.
  intros Hm w Hw. unfold withResults. specialize (Hm (w, r0) Hw).
  by destruct (m (w, r0)) as [[a|e|] [w' r]].
Qed.

(** Retrying leaves [files] as it is, whatever the operation on the sink
    does. *)
Lemma retryLoop_files {A} rs (op : Sink -> Completion A * Sink) context remaining :
  forall attempt last w,
    files (retryLoop rs (liftSink op) context remaining attempt last w).2 = files w.
Proof.
  induction remaining as [|n IH]; intros attempt last w.
  - cbn [retryLoop]. by destruct last.
  - cbn [retryLoop]. unfold try_catch. unfold liftSink at 1.
    destruct (op (sink w)) as [[v|e|] s']; [done| |done].
    unfold mbind, M_bind, bind, logger, sleep, modify.
    destruct (attempt <? maxRetries rs)%nat; unfold mret, M_ret, ret; cbv beta iota zeta;
      by rewrite IH.
Qed.

Lemma loadLatestCheckpoint_files rs type w :
  files (loadLatestCheckpoint env rs type w).2 = files w.
Proof.
  unfold loadLatestCheckpoint, try_catch, mbind, M_bind, bind, fs_readdir.
  destruct (listable w); [|done].
  destruct (reverse _) as [|file0 ?]; [done|].
  unfold fs_readFile. destruct (files w !! _) as [f|]; [|done].
  destruct (f_readable f); [|done].
  by destruct (JSON_parse env (f_data f)).
Qed.

(** A property of the files that saving a checkpoint within the data and
    pruning keep true is kept true by a whole run, however it ends. *)
Section Invariant.
Context (P : World (Sink := Sink) -> Prop) (type : string).
Hypothesis P_files : forall w w', files w' = files w -> P w -> P w'.
Hypothesis P_save : forall (data : list Item) progress,
  (progress <= length data)%nat ->
  preserves P (saveCheckpoint env (recoverySystem env) type data progress).
Hypothesis P_clean : forall maxAge,
  preserves P (cleanOldCheckpoints (recoverySystem env) type maxAge).

Lemma preserves_files {A} (m : M (World (Sink := Sink)) A) :
  (forall w, files (m w).2 = files w) -> preserves P m.
Proof. intros Hm w Hw. eapply P_files; [apply Hm|exact Hw]. Qed.

Lemma processBatch_preserves this options importer data i :
  (i <= length data)%nat ->
  preserves (fun s => P s.1) (processBatch env this type options importer data i).
Proof.
  intros Hi. unfold processBatch.
  set (batch := slice data i (i + batchSize env)).
  assert (Hlen : (i + length batch <= length data)%nat).
  { subst batch. unfold slice. rewrite length_take, length_drop. lia. }
  apply preserves_bind; [|intros _; apply preserves_bind; [apply preserves_getResults|]].
  - apply preserves_try_catch.
    + apply preserves_bind; [apply preserves_liftC|]. intros docs.
      apply preserves_bind.
      { apply preserves_liftW, preserves_files. intros w. apply retryLoop_files. }
      intros _. apply preserves_bind; [apply preserves_modifyResults|]. intros _.
      destruct (_ && _)%bool eqn:Hcond; [|apply preserves_ret].
      apply preserves_bind; [|intros f; apply preserves_modifyResults].
      by apply preserves_liftW, P_save.
    + intros e. apply preserves_bind; [apply preserves_modifyResults|]. intros _.
      apply preserves_bind; [|intros _; apply preserves_liftW, preserves_files; done].
      destruct (negb _); [apply preserves_throw|apply preserves_ret].
  - intros results. by apply preserves_liftW, preserves_files.
Qed.

Lemma importLoop_preserves this options importer data fuel : forall i,
  preserves (fun s => P s.1) (importLoop env this type options importer data fuel i).
Proof.
  induction fuel as [|fuel IH]; intros i; cbn [importLoop];
    destruct (i <? length data)%nat eqn:Hlt; try apply preserves_ret.
  - by intros s Hs.
  - apply Nat.ltb_lt in Hlt.
    apply preserves_bind; [apply processBatch_preserves; lia|]. intros _. apply IH.
Qed.

Lemma import_preserves this inputPath options :
  preserves P (import env this inputPath type options).
Proof.
  unfold import. apply preserves_try_catch.
  2:{ intros e. apply preserves_bind; [by apply preserves_files|]. intros _.
      apply preserves_throw. }
  apply preserves_bind; [by apply preserves_files|]. intros _.
  apply preserves_bind.
  { destruct (resume options); [|apply preserves_ret].
    apply preserves_bind; [apply preserves_files, loadLatestCheckpoint_files|].
    intros [[c|[|]]|]; try apply preserves_ret;
      (apply preserves_bind; [by apply preserves_files|]); intros _; apply preserves_ret. }
  intros [startIndex resumed]. apply preserves_bind.
  { destruct resumed; [apply preserves_ret|apply preserves_liftC]. }
  intros data. apply preserves_bind; [apply preserves_liftC|]. intros importer.
  apply preserves_bind.
  { apply preserves_withResults.
    destruct startIndex; [apply importLoop_preserves|apply preserves_ret]. }
  intros [u results]. apply preserves_bind; [apply P_clean|].
  intros _. apply preserves_ret.
Qed.
End Invariant.


(** What pruning does to a path: the file is as before or gone, and gone
    only from under the checkpoint directory and a name of the type. *)
Lemma cleanOldCheckpoints_paths rs type maxAge w path :
  files (cleanOldCheckpoints rs type maxAge w).2 !! path = files w !! path \/
  (files (cleanOldCheckpoints rs type maxAge w).2 !! path = None /\
   exists name, path = path_join (checkpointDir rs) name /\
                String.prefix (checkpointPrefix type) name = true).
Proof.
  unfold cleanOldCheckpoints, try_catch, mbind, M_bind, bind, fs_readdir, get, liftC.
  destruct (listable w); [|by left].
  destruct (parseMaxAge maxAge) as [ms|e|] eqn:Hparse; [|by left|by left].
  destruct (cleanLoop_frame rs type (now w) ms
              (omap (dir_entry (checkpointDir rs)) (elements (dom (files w)))) w)
    as (c & w' & -> & Hc & Hpr).
  assert (Hpath : files w' !! path = files w !! path \/
            (files w' !! path = None /\
             exists name, path = path_join (checkpointDir rs) name /\
                          String.prefix (checkpointPrefix type) name = true)).
  { destruct (Hpr path) as [E|(N & name & f & -> & Hp & _)]; [by left|]. right. eauto. }
  by destruct c as [[]|e|].
Qed.


(** X26: A run of [import], however it ends, leaves the checkpoints of other
    types alone: a checkpoint file of the checkpoint directory (a plain name
    that starts with [checkpoint_]) whose name does not start with
    [`checkpoint_${type}_`] is there afterwards with the content and the
    modification time it had before. *)
Theorem import_keeps_other_files this inputPath type options w name f :
  checkpointFile name = true ->
  String.prefix (checkpointPrefix type) name = false ->
  files w !! path_join (checkpointDir (recoverySystem env)) name = Some f ->
  files (import env this inputPath type options w).2 !!
    path_join (checkpointDir (recoverySystem env)) name = Some f.
Proof.
  intros _ Hother Hf.
  apply (import_preserves
           (fun w' => files w' !! path_join (checkpointDir (recoverySystem env)) name = Some f)
           type); [| | |exact Hf].
  - intros w1 w2 Heq H. by rewrite Heq.
  - intros data progress _ w1 Hw1.
    unfold saveCheckpoint, try_catch, mbind, M_bind, bind, get, fs_writeFile.
    destruct (writable w1); unfold logger, modify, mret, M_ret, ret, throw;
      cbv beta iota zeta; cbn [snd files set_files set_trace]; [|done].
    rewrite lookup_insert_ne; [done|]. intros Heq%path_join_inj.
    subst name. by rewrite checkpointName_prefix in Hother.
  - intros maxAge w1 Hw1.
    destruct (cleanOldCheckpoints_paths (recoverySystem env) type maxAge w1
                (path_join (checkpointDir (recoverySystem env)) name))
      as [E|(_ & name' & Hname & Hp)]; [congruence|].
    apply path_join_inj in Hname. subst name'. congruence.
Qed.
End Written.

(** ** What a run commits *)

Section Committed.
Context {Item Doc : Type} (env : Env (Sink := list Doc) (Item := Item) (Doc := Doc)).
Context (check : Item -> Completion Doc).
Implicit Types (w : World (Sink := list Doc)) (this : ImportManager)
  (r : Results (Item := Item)).

Lemma saveCheckpoint_sink rs type (data : list Item) progress w :
  exists c w', saveCheckpoint env rs type data progress w = (c, w') /\
               c <> Diverge /\ sink w' = sink w.
Proof.
  unfold saveCheckpoint, try_catch, mbind, M_bind, bind, get, fs_writeFile.
  destruct (writable w); eexists _, _; (split; [reflexivity|]); done.
Qed.

Lemma retryOperation_commit rs docs context w :
  (1 <= maxRetries rs)%nat ->
  exists w',
    retryOperation rs (liftSink (commitTransaction (recordingImporter check) docs))
      context w = (Ok tt, w') /\
    sink w' = sink w ++ docs /\ writable w' = writable w.
Proof.
  intros Hm. unfold retryOperation. destruct (maxRetries rs) as [|n]; [lia|].
  cbn [retryLoop]. unfold try_catch, liftSink. cbn. eexists. split; [reflexivity|done].
Qed.

Lemma processBatch_sink this type options data i w r :
  (forall item, check item <> Diverge) ->
  (1 <= maxRetries (recoverySystem env))%nat ->
  continueOnError options = true ->
  exists w' r',
    processBatch env this type options (recordingImporter check) data i (w, r) =
      (Ok tt, (w', r')) /\
    sink w' = sink w ++ match Promise_all (map check (slice data i (i + batchSize env))) with
                        | Ok docs => docs
                        | _ => []
                        end.
Proof.
  intros Hv Hm Hcont. unfold processBatch.
  set (batch := slice data i (i + batchSize env)).
  unfold try_catch at 1. unfold mbind at 1, M_bind at 1, bind at 1.
  unfold mbind at 1, M_bind at 1, bind at 1. unfold liftC at 1.
  change (validate (recordingImporter check)) with check.
  assert (Hpa : Promise_all (map check batch) <> Diverge).
  { apply Promise_all_returns, Forall_forall. intros c Hin.
    apply list_elem_of_In, in_map_iff in Hin as (item & <- & _). apply Hv. }
  destruct (Promise_all (map check batch)) as [docs|e|]; [| |done].
  - unfold mbind at 1, M_bind at 1, bind at 1. unfold liftW at 1.
    destruct (retryOperation_commit (recoverySystem env) docs
                [("batch", MRat (js_div i (batchSize env))); ("type", MStr type)] w Hm)
      as (w1 & -> & Hs1 & _).
    unfold mbind at 1, M_bind at 1, bind at 1. unfold modifyResults at 1, modify at 1.
    destruct ((0 <? i)%nat && (i mod checkpointInterval this =? 0)%nat)%bool.
    + unfold mbind at 1, M_bind at 1, bind at 1. unfold liftW at 1.
      destruct (saveCheckpoint_sink (recoverySystem env) type data (i + length batch) w1)
        as (c & w2 & -> & Hc & Hs2).
      destruct c as [f|e|]; [| |done].
      * eexists _, _. split; [reflexivity|]. cbn. congruence.
      * rewrite Hcont. eexists _, _. split; [reflexivity|]. cbn. congruence.
    + eexists _, _. split; [reflexivity|]. cbn. congruence.
  - rewrite Hcont. eexists _, _. split; [reflexivity|]. cbn. by rewrite app_nil_r.
Qed.

Lemma importLoop_sink this type options data :
  (forall item, check item <> Diverge) ->
  (1 <= maxRetries (recoverySystem env))%nat ->
  continueOnError options = true -> (1 <= batchSize env)%nat ->
  forall fuel i w r,
    (length data - i <= fuel)%nat ->
    exists w' r',
      importLoop env this type options (recordingImporter check) data fuel i (w, r) =
        (Ok tt, (w', r')) /\
      sink w' = sink w ++ committedDocs check (batchesFrom (batchSize env) data fuel i).
Proof.
  intros Hv Hm Hcont Hb. induction fuel as [|fuel IH]; intros i w r Hfuel.
  - cbn [importLoop batchesFrom]. destruct (Nat.ltb_spec i (length data)); [lia|].
    exists w, r. split; [done|]. by rewrite app_nil_r.
  - destruct (Nat.ltb_spec i (length data)) as [Hi|Hi].
    + rewrite importLoop_step by done. cbn [batchesFrom].
      destruct (Nat.ltb_spec i (length data)); [|lia].
      destruct (processBatch_sink this type options data i w r Hv Hm Hcont)
        as (w1 & r1 & -> & Hs1).
      destruct (IH (i + batchSize env)%nat w1 r1) as (w' & r' & -> & Hs'); [lia|].
      exists w', r'. split; [done|]. rewrite Hs', Hs1. cbn [committedDocs].
      destruct (Promise_all _); by rewrite <- ?app_assoc, ?app_nil_r.
    + cbn [importLoop batchesFrom]. destruct (Nat.ltb_spec i (length data)); [lia|].
      exists w, r. split; [done|]. by rewrite app_nil_r.
Qed.

Lemma cleanLoop_sink rs type nw ms names : forall w,
  sink (cleanLoop rs type nw ms names w).2 = sink w.
Proof.
  induction names as [|file rest IH]; intros w; [done|]. cbn [cleanLoop].
  destruct (negb _); [apply IH|].
  unfold mbind, M_bind, bind, fs_stat.
  destruct (files w !! _) as [f|] eqn:Hf; [|done]. destruct (listable w); [|done].
  destruct (nw - f_mtime f >? ms); unfold mret, M_ret, ret; [|apply IH].
  unfold fs_unlink. rewrite Hf. destruct (writable w); [|done].
  unfold logger, modify. cbv beta iota zeta. by rewrite IH.
Qed.

Lemma cleanOldCheckpoints_sink rs type maxAge w :
  sink (cleanOldCheckpoints rs type maxAge w).2 = sink w.
Proof.
  unfold cleanOldCheckpoints, try_catch, mbind, M_bind, bind, fs_readdir, get, liftC.
  destruct (listable w); [|done].
  destruct (parseMaxAge maxAge) as [ms|e|]; [|done|done].
  pose proof (cleanLoop_sink rs type (now w) ms
                (omap (dir_entry (checkpointDir rs)) (elements (dom (files w)))) w) as Hs.
  by destruct (cleanLoop _ _ _ _ _ w) as [[[]|e|] w'].
Qed.

Lemma Promise_all_app {A} (l1 l2 : list (Completion A)) docs :
  Promise_all (l1 ++ l2) = Ok docs ->
  exists d1 d2, Promise_all l1 = Ok d1 /\ Promise_all l2 = Ok d2 /\ docs = d1 ++ d2.
Proof.
  revert docs. induction l1 as [|c l1 IH]; intros docs; cbn [app Promise_all].
  - intros H. by exists [], docs.
  - destruct c as [a| |]; [|done|done].
    destruct (Promise_all (l1 ++ l2)) as [d| |] eqn:Hd; [|done|done].
    intros [= <-]. destruct (IH d eq_refl) as (d1 & d2 & -> & -> & ->).
    by exists (a :: d1), d2.
Qed.

(** A batch of valid records in a writable directory. *)
Lemma processBatch_valid this type options data i w r docs :
  (1 <= maxRetries (recoverySystem env))%nat -> writable w = true ->
  Promise_all (map check (slice data i (i + batchSize env))) = Ok docs ->
  exists w' r',
    processBatch env this type options (recordingImporter check) data i (w, r) =
      (Ok tt, (w', r')) /\
    sink w' = sink w ++ docs /\ writable w' = true /\
    success r' = (success r + length (slice data i (i + batchSize env)))%nat /\
    failed r' = failed r /\ errors r' = errors r.
Proof.
  intros Hm Hw Hall. unfold processBatch.
  set (batch := slice data i (i + batchSize env)) in *.
  unfold try_catch at 1. unfold mbind at 1, M_bind at 1, bind at 1.
  unfold mbind at 1, M_bind at 1, bind at 1. unfold liftC at 1.
  change (validate (recordingImporter check)) with check. rewrite Hall.
  unfold mbind at 1, M_bind at 1, bind at 1. unfold liftW at 1.
  destruct (retryOperation_commit (recoverySystem env) docs
              [("batch", MRat (js_div i (batchSize env))); ("type", MStr type)] w Hm)
    as (w1 & -> & Hs1 & Hw1).
  unfold mbind at 1, M_bind at 1, bind at 1. unfold modifyResults at 1, modify at 1.
  destruct ((0 <? i)%nat && (i mod checkpointInterval this =? 0)%nat)%bool.
  - unfold mbind at 1, M_bind at 1, bind at 1. unfold liftW at 1.
    destruct (saveCheckpoint_sink (recoverySystem env) type data (i + length batch) w1)
      as (c & w2 & Hsave & _ & Hs2).
    destruct (saveCheckpoint_writable env (recoverySystem env) type data (i + length batch) w1)
      as (w2' & Hsave' & _ & Hw2 & _); [congruence|].
    rewrite Hsave' in Hsave |- *. injection Hsave as <- <-.
    eexists _, _. split; [reflexivity|]. cbn. repeat split; congruence.
  - eexists _, _. split; [reflexivity|]. cbn. repeat split; congruence.
Qed.

Lemma importLoop_valid this type options data :
  (1 <= maxRetries (recoverySystem env))%nat -> (1 <= batchSize env)%nat ->
  forall fuel i w r docs,
    (length data - i <= fuel)%nat -> writable w = true ->
    Promise_all (map check (drop i data)) = Ok docs ->
    exists w' r',
      importLoop env this type options (recordingImporter check) data fuel i (w, r) =
        (Ok tt, (w', r')) /\
      sink w' = sink w ++ docs /\
      success r' = (success r + (length data - i))%nat /\
      failed r' = failed r /\ errors r' = errors r.
Proof.
  intros Hm Hb. induction fuel as [|fuel IH]; intros i w r docs Hfuel Hw Hall.
  - cbn [importLoop]. destruct (Nat.ltb_spec i (length data)); [lia|].
    rewrite drop_ge in Hall by lia. injection Hall as <-.
    exists w, r. split; [done|]. rewrite app_nil_r. repeat split; lia.
  - destruct (Nat.ltb_spec i (length data)) as [Hi|Hi].
    + rewrite importLoop_step by done.
      rewrite <- (take_drop (batchSize env) (drop i data)), map_app in Hall.
      apply Promise_all_app in Hall as (d1 & d2 & H1 & H2 & ->).
      rewrite drop_drop in H2.
      destruct (processBatch_valid this type options data i w r d1 Hm Hw)
        as (w1 & r1 & -> & Hs1 & Hw1 & Hsu & Hfa & Her).
      { unfold slice. by replace (i + batchSize env - i)%nat with (batchSize env) by lia. }
      destruct (IH (i + batchSize env)%nat w1 r1 d2) as (w' & r' & -> & Hs' & Hsu' & Hfa' & Her');
        [lia|done|done|].
      exists w', r'. split; [done|]. rewrite length_slice in Hsu.
      repeat split; [by rewrite Hs', Hs1, app_assoc|lia|congruence|congruence].
    + cbn [importLoop]. destruct (Nat.ltb_spec i (length data)); [lia|].
      rewrite drop_ge in Hall by lia. injection Hall as <-.
      exists w, r. split; [done|]. rewrite app_nil_r. repeat split; lia.
Qed.

(** X9: A fresh run with [continueOnError], for an importer whose validation
    depends on the record alone and whose commits go through: the documents
    the run commits are those of the batches in which every record
    validates, batch after batch in the order of the data, and no document
    of a batch in which some record does not validate is committed.  It is so
    whether or not the checkpoints can be written. *)
Theorem import_commits_valid_batches this inputPath type options data w :
  getImporter env type = Ok (recordingImporter check) ->
  (forall item, check item <> Diverge) ->
  (1 <= maxRetries (recoverySystem env))%nat ->
  (1 <= batchSize env)%nat ->
  continueOnError options = true -> resume options = false ->
  transform env inputPath type = Ok data ->
  exists results w',
    import env this inputPath type options w = (Ok results, w') /\
    sink w' = sink w ++
      committedDocs check (batchesFrom (batchSize env) data (length data) 0).
Proof.
  intros Himp Hv Hm Hb Hcont Hres Htr.
  unfold import, try_catch, mbind, M_bind, bind, initialize, liftC, withResults.
  rewrite Hres. unfold mret, M_ret, ret. cbv beta iota zeta. rewrite Htr, Himp.
  destruct (importLoop_sink this type options data Hv Hm Hcont Hb
              (length data) 0%nat w (mkResults 0 0 [] [])) as (w1 & r1 & -> & Hs1); [lia|].
  pose proof (cleanOldCheckpoints_sink (recoverySystem env) type "7d" w1) as Hs2.
  destruct (cleanOldCheckpoints_returns (recoverySystem env) type "7d" w1) as (w2 & Hc).
  rewrite Hc in Hs2 |- *. eexists _, _. split; [reflexivity|]. cbn in Hs2 |- *. congruence.
Qed.

(** X10: A fresh run over records that all validate, with commits that go
    through and a directory that can be written: the sink receives the
    document of every record once, in the order of the data, whatever the
    batch size; all records are counted in [success], none in [failed], and
    no error is recorded. *)
Theorem import_all_valid this inputPath type options data docs w :
  getImporter env type = Ok (recordingImporter check) ->
  (1 <= maxRetries (recoverySystem env))%nat ->
  (1 <= batchSize env)%nat ->
  writable w = true -> resume options = false ->
  transform env inputPath type = Ok data ->
  Promise_all (map check data) = Ok docs ->
  exists results w',
    import env this inputPath type options w = (Ok results, w') /\
    sink w' = sink w ++ docs /\
    success results = length data /\ failed results = 0%nat /\ errors results = [].
Proof.
  intros Himp Hm Hb Hw Hres Htr Hall.
  unfold import, try_catch, mbind, M_bind, bind, initialize, liftC, withResults.
  rewrite Hres. unfold mret, M_ret, ret. cbv beta iota zeta. rewrite Htr, Himp.
  destruct (importLoop_valid this type options data Hm Hb
              (length data) 0%nat w (mkResults 0 0 [] []) docs)
    as (w1 & r1 & -> & Hs1 & Hsu & Hfa & Her); [lia|done|done|].
  pose proof (cleanOldCheckpoints_sink (recoverySystem env) type "7d" w1) as Hs2.
  destruct (cleanOldCheckpoints_returns (recoverySystem env) type "7d" w1) as (w2 & Hc).
  rewrite Hc in Hs2 |- *. eexists _, _. split; [reflexivity|].
  cbn in Hs2, Hsu, Hfa, Her |- *. repeat split; [congruence|lia|done|done].
Qed.

End Committed.

(** ** What a run reports *)

Section Reported.
Context {Item Doc : Type} (env : Env (Sink := list Doc) (Item := Item) (Doc := Doc)).
Context (check : Item -> Completion Doc).
Implicit Types (w : World (Sink := list Doc)) (this : ImportManager)
  (r : Results (Item := Item)).

Lemma processBatch_reported this type options data i w r :
  (forall item, check item <> Diverge) ->
  (1 <= maxRetries (recoverySystem env))%nat ->
  continueOnError options = true -> writable w = true ->
  exists w' r',
    processBatch env this type options (recordingImporter check) data i (w, r) =
      (Ok tt, (w', r')) /\
    writable w' = true /\
    let batch := slice data i (i + batchSize env) in
    match Promise_all (map check batch) with
    | Ok docs =>
        success r' = (success r + length batch)%nat /\ failed r' = failed r /\
        errors r' = errors r /\
        length (checkpoints r') =
          (length (checkpoints r) +
           if ((0 <? i)%nat && (i mod checkpointInterval this =? 0)%nat)%bool then 1 else 0)%nat
    | Throw e =>
        success r' = success r /\ failed r' = (failed r + length batch)%nat /\
        errors r' = errors r ++ [mkImportError (js_div i (batchSize env)) (message e) batch] /\
        checkpoints r' = checkpoints r
    | Diverge => False
    end.
Proof.
  intros Hv Hm Hcont Hw. unfold processBatch.
  set (batch := slice data i (i + batchSize env)). cbv zeta.
  unfold try_catch at 1. unfold mbind at 1, M_bind at 1, bind at 1.
  unfold mbind at 1, M_bind at 1, bind at 1. unfold liftC at 1.
  change (validate (recordingImporter check)) with check.
  assert (Hpa : Promise_all (map check batch) <> Diverge).
  { apply Promise_all_returns, Forall_forall. intros c Hin.
    apply list_elem_of_In, in_map_iff in Hin as (item & <- & _). apply Hv. }
  destruct (Promise_all (map check batch)) as [docs|e|]; [| |done].
  - unfold mbind at 1, M_bind at 1, bind at 1. unfold liftW at 1.
    destruct (retryOperation_commit check (recoverySystem env) docs
                [("batch", MRat (js_div i (batchSize env))); ("type", MStr type)] w Hm)
      as (w1 & -> & Hs1 & Hw1).
    unfold mbind at 1, M_bind at 1, bind at 1. unfold modifyResults at 1, modify at 1.
    destruct ((0 <? i)%nat && (i mod checkpointInterval this =? 0)%nat)%bool.
    + unfold mbind at 1, M_bind at 1, bind at 1. unfold liftW at 1.
      destruct (saveCheckpoint_writable env (recoverySystem env) type data (i + length batch) w1)
        as (w2 & -> & _ & Hw2 & _); [congruence|].
      eexists _, _. split; [reflexivity|]. cbn. rewrite length_app. cbn.
      repeat split; try done; lia.
    + eexists _, _. split; [reflexivity|]. cbn. repeat split; try congruence; lia.
  - rewrite Hcont. eexists _, _. split; [reflexivity|]. cbn. repeat split; congruence.
Qed.
Lemma importLoop_reported this type options data :
  (forall item, check item <> Diverge) ->
  (1 <= maxRetries (recoverySystem env))%nat ->
  continueOnError options = true -> (1 <= batchSize env)%nat ->
  forall fuel i w r,
    (length data - i <= fuel)%nat -> writable w = true ->
    exists w' r',
      importLoop env this type options (recordingImporter check) data fuel i (w, r) =
        (Ok tt, (w', r')) /\
      let batches := batchesFrom (batchSize env) data fuel i in
      errors r' = errors r ++ map (batchError (batchSize env)) (rejectedBatches check batches) /\
      failed r' = (failed r + recordsIn (rejectedBatches check batches))%nat /\
      (success r' + failed r' = success r + failed r + (length data - i))%nat /\
      length (checkpoints r') =
        (length (checkpoints r) +
         length (checkpointedBatches check (checkpointInterval this) batches))%nat.
Proof.
  intros Hv Hm Hcont Hb. induction fuel as [|fuel IH]; intros i w r Hfuel Hw.
  - cbn [importLoop batchesFrom]. destruct (Nat.ltb_spec i (length data)); [lia|].
    exists w, r. split; [done|]. cbn. rewrite app_nil_r. repeat split; lia.
  - destruct (Nat.ltb_spec i (length data)) as [Hi|Hi].
    + rewrite importLoop_step by done. cbn [batchesFrom].
      destruct (Nat.ltb_spec i (length data)); [|lia].
      destruct (processBatch_reported this type options data i w r Hv Hm Hcont Hw)
        as (w1 & r1 & -> & Hw1 & Hr1). cbv zeta in Hr1.
      destruct (IH (i + batchSize env)%nat w1 r1) as (w' & r' & -> & He' & Hf' & Hs' & Hc');
        [lia|done|].
      exists w', r'. split; [done|]. cbv zeta in *.
      cbn [rejectedBatches checkpointedBatches].
      destruct (Promise_all (map check (slice data i (i + batchSize env)))) as [docs|e|];
        [| |done].
      * destruct Hr1 as (Hsu & Hfa & Her & Hch). rewrite length_slice in Hsu.
        split; [congruence|]. split; [lia|]. split; [lia|].
        destruct (_ && _)%bool; cbn [length]; lia.
      * destruct Hr1 as (Hsu & Hfa & Her & Hch). rewrite length_slice in Hfa.
        cbn [map recordsIn]. split; [by rewrite He', Her, <- app_assoc|].
        rewrite length_slice. split; [lia|]. split; [lia|]. congruence.
    + cbn [importLoop batchesFrom]. destruct (Nat.ltb_spec i (length data)); [lia|].
      exists w, r. split; [done|]. cbn. rewrite app_nil_r. repeat split; lia.
Qed.

(** A batch is rejected when, and only when, the validation of one of its
    records throws, and it is rejected with what one of them throws. *)
Lemma Promise_all_throws (batch : list Item) e :
  Promise_all (map check batch) = Throw e ->
  exists item, item ∈ batch /\ check item = Throw e.
Proof.
  induction batch as [|item batch IH]; cbn [map Promise_all]; [done|].
  destruct (check item) as [doc|e'|] eqn:Hitem; [| |done].
  - destruct (Promise_all (map check batch)) as [docs|e'|]; [done| |done].
    intros [= ->]. destruct IH as (item' & Hin & Hthrow); [done|].
    exists item'. split; [by apply elem_of_cons; right|done].
  - intros [= ->]. exists item. split; [by apply elem_of_cons; left|done].
Qed.

Lemma Promise_all_existsb (batch : list Item) :
  (forall item, check item <> Diverge) ->
  existsb (throws check) batch =
  match Promise_all (map check batch) with
  | Throw _ => true
  | _ => false
  end.
Proof.
  intros Hv. induction batch as [|item batch IH]; cbn [map Promise_all existsb]; [done|].
  unfold throws at 1. pose proof (Hv item) as Hitem.
  destruct (check item) as [doc|e|]; [|done|done].
  rewrite IH. cbn [orb]. by destruct (Promise_all (map check batch)).
Qed.

Lemma rejectedBatches_reported (b : nat) batches :
  (forall item, check item <> Diverge) ->
  Forall2 (reportsBatch check b) (invalidBatches check batches)
    (map (batchError b) (rejectedBatches check batches)) /\
  recordsIn (rejectedBatches check batches) =
  length (concat (map snd (invalidBatches check batches))).
Proof.
  intros Hv. unfold invalidBatches.
  induction batches as [|[i batch] batches [IH1 IH2]];
    cbn [List.filter rejectedBatches map recordsIn concat]; [by split; [constructor|]|].
  rewrite Promise_all_existsb by done.
  destruct (Promise_all (map check batch)) as [docs|e|] eqn:Hall; [done| |done].
  cbn [map recordsIn concat]. rewrite length_app. split; [|by rewrite IH2].
  constructor; [|done].
  apply Promise_all_throws in Hall as (item & Hin & Hthrow).
  split; [done|]. split; [done|]. by exists item, e.
Qed.

(** X24: What a fresh run with [continueOnError] reports when validation depends
    on the record alone, commits go through and checkpoints can be written:
    an error for each batch in which the validation of some record throws,
    in order, with the batch number, the records of the batch and the
    message with which the validation of one of them throws; in [failed] the
    records of those batches and in [success] all others; and a checkpoint
    for each batch that validates and starts at a positive multiple of the
    checkpoint interval. *)
Theorem import_reports_batches this inputPath type options data w :
  getImporter env type = Ok (recordingImporter check) ->
  (forall item, check item <> Diverge) ->
  (1 <= maxRetries (recoverySystem env))%nat ->
  (1 <= batchSize env)%nat -> writable w = true ->
  continueOnError options = true -> resume options = false ->
  transform env inputPath type = Ok data ->
  exists results w',
    import env this inputPath type options w = (Ok results, w') /\
    let batches := batchesFrom (batchSize env) data (length data) 0 in
    Forall2 (reportsBatch check (batchSize env)) (invalidBatches check batches)
      (errors results) /\
    failed results = length (concat (map snd (invalidBatches check batches))) /\
    (success results + failed results = length data)%nat /\
    length (checkpoints results) =
      length (checkpointedBatches check (checkpointInterval this) batches).
Proof.
  intros Himp Hv Hm Hb Hw Hcont Hres Htr.
  unfold import, try_catch, mbind, M_bind, bind, initialize, liftC, withResults.
  rewrite Hres. unfold mret, M_ret, ret. cbv beta iota zeta. rewrite Htr, Himp.
  destruct (importLoop_reported this type options data Hv Hm Hcont Hb
              (length data) 0%nat w (mkResults 0 0 [] []))
    as (w1 & r1 & -> & He & Hf & Hs & Hc); [lia|done|].
  destruct (cleanOldCheckpoints_returns (recoverySystem env) type "7d" w1) as (w2 & ->).
  destruct (rejectedBatches_reported (batchSize env)
              (batchesFrom (batchSize env) data (length data) 0) Hv) as [Hrep Hrec].
  eexists _, _. split; [reflexivity|]. cbn in *. rewrite He, Hf, <- Hrec.
  repeat split; try done; lia.
Qed.
End Reported.

(** ** Resuming when there is nothing to resume from *)

Section NoCheckpoint.
Context {Sink Item Doc : Type} (env : Env (Sink := Sink) (Item := Item) (Doc := Doc)).
Implicit Types (w : World (Sink := Sink)) (this : ImportManager).


End NoCheckpoint.

(** ** Backups *)

Lemma append_nil_r (s : string) : s +:+ EmptyString = s.
Proof. induction s as [|c s IH]; [done|]. by rewrite append_cons, IH. Qed.

Lemma concat_empty_app (l1 l2 : list string) :
  String.concat EmptyString (l1 ++ l2) =
  String.concat EmptyString l1 +:+ String.concat EmptyString l2.
Proof.
  induction l1 as [|x [|y l1] IH]; cbn [app String.concat] in *.
  - by rewrite append_nil_l.
  - destruct l2; cbn [String.concat]; [by rewrite append_nil_r|].
    by rewrite append_nil_l.
  - rewrite IH. by rewrite !append_nil_l, append_assoc.
Qed.

Lemma concat_sep_app (sep : string) (l1 l2 : list string) :
  l1 <> [] -> l2 <> [] ->
  String.concat sep (l1 ++ l2) = String.concat sep l1 +:+ sep +:+ String.concat sep l2.
Proof.
  intros H1 H2. induction l1 as [|x [|y l1] IH]; [done|..]; cbn [app String.concat] in *.
  - by destruct l2.
  - rewrite IH by done. by rewrite !append_assoc.
Qed.

Section BackupText.
Context {Doc : Type} (JSON_stringify : Doc -> string).

Lemma writeAll_joined (batches : list (list Doc)) : forall (seen : list Doc) s n,
  Forall (fun documents => documents <> []) batches ->
  seen <> [] -> Backup.isFirst s = false ->
  String.concat EmptyString (Backup.chunks s) =
    ("[" +:+ Backup.LF) +:+ String.concat ("," +:+ Backup.LF) (map JSON_stringify seen) ->
  n = length seen ->
  let (s', n') := Backup.writeAll JSON_stringify batches s n in
  Backup.isFirst s' = false /\
  String.concat EmptyString (Backup.chunks s') =
    ("[" +:+ Backup.LF) +:+
    String.concat ("," +:+ Backup.LF) (map JSON_stringify (seen ++ concat batches)) /\
  n' = length (seen ++ concat batches).
Proof.
  induction batches as [|documents rest IH]; intros seen s n Hne Hseen Hfirst Htext Hn.
  - cbn [Backup.writeAll concat]. by rewrite app_nil_r.
  - cbn [Backup.writeAll concat]. apply Forall_cons in Hne as [Hd Hrest].
    rewrite app_assoc. apply IH; try done.
    + by destruct seen.
    + unfold Backup.write. by rewrite Hfirst.
    + unfold Backup.write. rewrite Hfirst. cbn [Backup.chunks].
      rewrite !concat_empty_app, Htext. cbn [String.concat].
      rewrite map_app, concat_sep_app; [by rewrite !append_assoc| |].
      * by destruct seen.
      * by destruct documents.
    + rewrite length_app. lia.
Qed.

(** X15: The text of a backup is the JSON array of all documents, one after the
    other with [",\n"] between them, however the documents come in batches,
    as long as no batch is empty; and [documentCount] is their number.  With
    no batch at all the text is the closing line alone. *)
Theorem backupText_joined (batches : list (list Doc)) :
  Forall (fun documents => documents <> []) batches ->
  Backup.backupText JSON_stringify batches =
  match batches with
  | [] => (Backup.LF +:+ "]", 0%nat)
  | _ =>
      (("[" +:+ Backup.LF) +:+
       String.concat ("," +:+ Backup.LF) (map JSON_stringify (concat batches)) +:+
       (Backup.LF +:+ "]"),
       length (concat batches))
  end.
Proof.
  intros Hne. destruct batches as [|documents rest]; [reflexivity|].
  apply Forall_cons in Hne as [Hd Hrest].
  unfold Backup.backupText. cbn [Backup.writeAll].
  pose proof (writeAll_joined rest documents
                (Backup.write JSON_stringify documents Backup.createBackupStream)
                (0 + length documents)%nat Hrest Hd eq_refl) as H.
  destruct (Backup.writeAll _ rest _ _) as [s' n'].
  destruct H as (Hfirst & Htext & Hn); [|done|].
  { unfold Backup.write. cbn [Backup.isFirst Backup.createBackupStream Backup.chunks app].
    cbn [String.concat]. by rewrite append_nil_l. }
  unfold Backup.end_. cbn [Backup.chunks]. rewrite concat_empty_app, Htext.
  cbn [String.concat concat]. by rewrite Hn, !append_assoc.
Qed.
End BackupText.

(** X16: Every duration the checkpoint store accepts means the same to the
    backup tool; what the backup tool accepts beyond those are the counts
    of months, of 30 days each, which the checkpoint store rejects. *)
Theorem parseMaxAge_backup_agrees (maxAge : string) :
  (forall ms, parseMaxAge maxAge = Ok ms -> Backup.parseMaxAge maxAge = Ok ms) /\
  (forall ms, Backup.parseMaxAge maxAge = Ok ms ->
     parseMaxAge maxAge = Ok ms \/
     exists value,
       maxAge = value +:+ "m" /\ ms = parseInt value * 2592000000 /\
       parseMaxAge maxAge = Throw (mkError "Invalid maxAge format. Use format: 7d or 1w")).
Proof.
  unfold parseMaxAge, Backup.parseMaxAge, match_maxAge, Backup.match_maxAge.
  pose proof (span_digits_spec maxAge) as Hspan.
  destruct (span_digits maxAge) as [[|c ds] [|u [|? ?]]]; try (split; intros; discriminate).
  assert (Hdd : Ascii.eqb "d" "d" = true) by reflexivity.
  assert (Hwd : Ascii.eqb "w" "d" = false) by reflexivity.
  assert (Hww : Ascii.eqb "w" "w" = true) by reflexivity.
  assert (Hmd : Ascii.eqb "m" "d" = false) by reflexivity.
  assert (Hmw : Ascii.eqb "m" "w" = false) by reflexivity.
  destruct (Ascii.eqb_spec u "d") as [->|Hd]; [rewrite ?Hdd; cbn [orb]; split; eauto|].
  destruct (Ascii.eqb_spec u "w") as [->|Hw];
    [rewrite ?Hwd, ?Hww; cbn [orb]; rewrite ?Hwd, ?Hww; split; eauto|].
  destruct (Ascii.eqb_spec u "m") as [->|Hm]; cbn [orb]; [|split; intros; discriminate].
  rewrite ?Hmd, ?Hmw. split; [intros; discriminate|].
  intros ms [= <-]. right. exists (String c ds). split; [|split; [lia|done]].
  by destruct Hspan as [-> _].
Qed.

(** ** The command line *)

Section CliProps.
Context {Sink Item Doc : Type} (env : Env (Sink := Sink) (Item := Item) (Doc := Doc)).
Implicit Types (w : World (Sink := Sink)).

Lemma validateType_importer (type : string) :
  validateType new_ImportManager type = Ok tt ->
  exists importer, getImporter env type = Ok importer.
Proof.
  unfold validateType, getImporter, new_ImportManager.
  cbn [supportedTypes existsb orb].
  destruct (String.eqb type "category"); [by eauto|].
  destruct (String.eqb type "listing"); cbn [orb]; [by eauto|done].
Qed.

(** X12: The supported types are those with an importer: the check of
    [validateType] passes exactly when [getImporter] finds one. *)
Theorem validateType_getImporter (type : string) :
  validateType new_ImportManager type = Ok tt <->
  exists importer, getImporter env type = Ok importer.
Proof.
  split; [apply validateType_importer|].
  unfold validateType, getImporter, new_ImportManager.
  cbn [supportedTypes existsb orb].
  destruct (String.eqb type "category"); [done|].
  destruct (String.eqb type "listing"); cbn [orb]; [done|]. by intros [? ?].
Qed.

Lemma validateRecords_spec (importer : Importer (Sink := Sink) (Item := Item) (Doc := Doc))
    (records : list Item) :
  (forall item, validate importer item <> Diverge) ->
  forall index r0,
  exists r,
    validateRecords importer records index r0 = Ok r /\
    total r = total r0 /\
    (valid r + invalid r = valid r0 + invalid r0 + length records)%nat /\
    (length (validationErrors r) = length (validationErrors r0) + (invalid r - invalid r0))%nat /\
    (invalid r0 <= invalid r)%nat /\
    forall f, f ∈ validationErrors r <->
      f ∈ validationErrors r0 \/
      exists k e, records !! k = Some (vf_record f) /\ vf_index f = (index + k)%nat /\
                  validate importer (vf_record f) = Throw e /\ vf_error f = message e.
Proof.
  intros Hv. induction records as [|record rest IH]; intros index r0; cbn [validateRecords].
  - exists r0. repeat split; try (cbn; lia); try tauto.
    intros [H|(k & e & Hk & _)]; [done|by rewrite lookup_nil in Hk].
  - destruct (validate importer record) as [doc|e|] eqn:Hrec; [| |by destruct (Hv record)].
    + destruct (IH (S index) (mkValidationResults (total r0) (S (valid r0)) (invalid r0)
                                (validationErrors r0))) as (r & -> & Ht & Hs & Hl & Hi & He).
      exists r. cbn in *. split; [done|]. repeat split; try lia.
      * intros Hf. apply He in Hf as [Hf|(k & e & Hk & Hidx & Hthrow & Hmsg)]; [by left|].
        right. exists (S k), e. repeat split; try done; lia.
      * intros [Hf|(k & e & Hk & Hidx & Hthrow & Hmsg)]; apply He; [by left|].
        destruct k as [|k]; [cbn in Hk; congruence|].
        right. exists k, e. repeat split; try done; lia.
    + destruct (IH (S index) (mkValidationResults (total r0) (valid r0) (S (invalid r0))
                                (validationErrors r0 ++
                                 [mkValidationFailure index (message e) record])))
        as (r & -> & Ht & Hs & Hl & Hi & He).
      exists r. cbn in *. rewrite length_app in Hl. cbn in Hl.
      split; [done|]. repeat split; try lia.
      * intros Hf. apply He in Hf as [Hf|(k & e' & Hk & Hidx & Hthrow & Hmsg)].
        -- apply elem_of_app in Hf as [Hf|Hf]; [by left|]. right.
           apply list_elem_of_singleton in Hf as ->. exists 0%nat, e. cbn.
           repeat split; try done; lia.
        -- right. exists (S k), e'. repeat split; try done; lia.
      * intros [Hf|(k & e' & Hk & Hidx & Hthrow & Hmsg)]; apply He.
        -- left. apply elem_of_app. by left.
        -- destruct k as [|k].
           ++ left. apply elem_of_app. right. apply list_elem_of_singleton.
              cbn in Hk. injection Hk as Hk. destruct f as [fi fe fr]. cbn in *. subst.
              rewrite Hrec in Hthrow. injection Hthrow as <-. f_equal. lia.
           ++ right. exists k, e'. repeat split; try done; lia.
Qed.

(** X13: The [validate] command over a supported type and a file that
    transforms, with a validator that comes back: it reports as many records
    as the file gave, each of them either valid or invalid, one error per
    invalid record, and the errors are the records whose validation throws,
    each under its index and with the message thrown. *)
Theorem validateCommand_results (type input : string) (data : list Item) w :
  validateType new_ImportManager type = Ok tt ->
  transform env input type = Ok data ->
  (forall (importer : Importer (Sink := Sink)) item, getImporter env type = Ok importer ->
                         validate importer item <> Diverge) ->
  exists results w' importer,
    validateCommand env type input w = (Ok results, w') /\
    getImporter env type = Ok importer /\
    total results = length data /\
    (valid results + invalid results = total results)%nat /\
    length (validationErrors results) = invalid results /\
    forall index error record,
      mkValidationFailure index error record ∈ validationErrors results <->
      data !! index = Some record /\
      exists e, validate importer record = Throw e /\ error = message e.
Proof.
  intros Hty Htr Hv.
  destruct (validateType_importer type Hty) as [importer Himp].
  unfold validateCommand, try_catch, mbind, M_bind, bind, liftC.
  rewrite Hty. unfold logger, modify. cbv beta iota zeta. rewrite Htr, Himp.
  destruct (validateRecords_spec importer data (fun item => Hv importer item Himp) 0%nat
              (mkValidationResults (length data) 0 0 [])) as (r & -> & Ht & Hs & Hl & Hi & He).
  exists r. eexists _, importer. split; [reflexivity|]. cbn in *.
  split; [done|]. split; [lia|]. split; [lia|]. split; [lia|].
  intros index error record. rewrite He. cbn. split.
  - intros [Hf|(k & e & Hk & Hidx & Hthrow & Hmsg)]; [by apply elem_of_nil in Hf|].
    subst. eauto.
  - intros (Hk & e & Hthrow & ->). right. by exists index, e.
Qed.
End CliProps.

(** ** What a run counts *)

Section Counts.
Context {Sink Item Doc : Type} (env : Env (Sink := Sink) (Item := Item) (Doc := Doc)).
Implicit Types (w : World (Sink := Sink)) (this : ImportManager).

(** X11: A fresh run with [continueOnError] into a directory that can be
    written, with collaborators that come back: the run returns, and every
    record of the transformed data is counted once, in [success] or in
    [failed]. *)
Theorem import_counts_every_record this inputPath type options importer data w :
  getImporter env type = Ok importer -> returning importer ->
  continueOnError options = true -> resume options = false ->
  (1 <= batchSize env)%nat -> writable w = true ->
  transform env inputPath type = Ok data ->
  exists results w',
    import env this inputPath type options w = (Ok results, w') /\
    (success results + failed results = length data)%nat.
Proof.
  intros Himp Hret Hcont Hres Hb Hw Htr.
  by apply (proj1 (import_counts env this inputPath type options importer w
                     Himp Hret Hcont Hb Hw)).
Qed.
End Counts.

(** ** A batch size of zero *)

Section ZeroBatch.
Context {Sink Item Doc : Type} (env : Env (Sink := Sink) (Item := Item) (Doc := Doc)).
Implicit Types (w : World (Sink := Sink)) (this : ImportManager) (r : Results (Item := Item)).

Lemma saveCheckpoint_returns rs type (data : list Item) progress w :
  (saveCheckpoint env rs type data progress w).1 <> Diverge.
Proof.
  unfold saveCheckpoint, try_catch, mbind, M_bind, bind, get, fs_writeFile.
  by destruct (writable w).
Qed.

(** With [continueOnError] and collaborators that come back, an iteration
    of the loop returns. *)
Lemma processBatch_returns this type options importer data i w r :
  returning importer -> continueOnError options = true ->
  exists w' r', processBatch env this type options importer data i (w, r) = (Ok tt, (w', r')).
Proof.
  intros [Hv Hc] Hcont. unfold processBatch.
  set (batch := slice data i (i + batchSize env)).
  unfold try_catch at 1. unfold mbind at 1, M_bind at 1, bind at 1.
  unfold mbind at 1, M_bind at 1, bind at 1. unfold liftC at 1.
  assert (Hpa : Promise_all (map (validate importer) batch) <> Diverge).
  { apply Promise_all_returns, Forall_forall. intros c Hin.
    apply list_elem_of_In, in_map_iff in Hin as (item & <- & _). apply Hv. }
  destruct (Promise_all (map (validate importer) batch)) as [docs|e|]; [| |done].
  - unfold mbind at 1, M_bind at 1, bind at 1. unfold liftW at 1. unfold retryOperation.
    destruct (retryLoop_frame (recoverySystem env) (liftSink (commitTransaction importer docs))
                [("batch", MRat (js_div i (batchSize env))); ("type", MStr type)]
                (maxRetries (recoverySystem env))
                (fun w => liftSink_frame _ w (Hc docs)) 1%nat None w)
      as (c & w1 & -> & Hcd & _).
    destruct c as [[]|e|]; [| |done].
    + unfold mbind at 1, M_bind at 1, bind at 1. unfold modifyResults at 1, modify at 1.
      destruct ((0 <? i)%nat && (i mod checkpointInterval this =? 0)%nat)%bool.
      * unfold mbind at 1, M_bind at 1, bind at 1. unfold liftW at 1.
        pose proof (saveCheckpoint_returns (recoverySystem env) type data (i + length batch) w1)
          as Hs.
        destruct (saveCheckpoint _ _ _ _ _ w1) as [[f|e|] w2]; [| |done].
        -- eexists _, _. reflexivity.
        -- rewrite Hcont. eexists _, _. reflexivity.
      * eexists _, _. reflexivity.
    + rewrite Hcont. eexists _, _. reflexivity.
  - rewrite Hcont. eexists _, _. reflexivity.
Qed.

(** X14: With a batch size of 0 the loop index never moves: a fresh run with
    [continueOnError] over data that is not empty does not end.  No number
    of iterations lets the loop return, and [import], which gives the loop
    as many iterations as there are records, is [Diverge]. *)
Theorem import_batchSize_zero this inputPath type options importer data w :
  batchSize env = 0%nat -> data <> [] ->
  getImporter env type = Ok importer -> returning importer ->
  continueOnError options = true -> resume options = false ->
  transform env inputPath type = Ok data ->
  (forall fuel w0 r, (importLoop env this type options importer data fuel 0 (w0, r)).1 = Diverge) /\
  (import env this inputPath type options w).1 = Diverge.
Proof.
  intros Hb Hdata Himp Hret Hcont Hres Htr.
  assert (Hlen : (0 < length data)%nat) by (destruct data; [done|cbn; lia]).
  assert (Hloop : forall fuel w0 r,
            (importLoop env this type options importer data fuel 0 (w0, r)).1 = Diverge).
  { induction fuel as [|fuel IH]; intros w0 r.
    - cbn [importLoop]. by destruct (Nat.ltb_spec 0 (length data)); [|lia].
    - rewrite importLoop_step by done.
      destruct (processBatch_returns this type options importer data 0 w0 r Hret Hcont)
        as (w1 & r1 & ->).
      rewrite Hb. apply IH. }
  split; [exact Hloop|].
  unfold import, try_catch, mbind, M_bind, bind, initialize, liftC, withResults.
  rewrite Hres. unfold mret, M_ret, ret. cbv beta iota zeta. rewrite Htr, Himp.
  specialize (Hloop (length data) w (mkResults 0 0 [] [])).
  by destruct (importLoop _ _ _ _ _ _ _ _ _) as [[[]|e|] [w1 r1]].
Qed.
End ZeroBatch.

(** ** Configuration *)

(** X17: A configuration that [Config.validate] lets through passes the check of
    the Sanity client: the four variables it looks at are set. *)
Theorem validateConfig_after_Config_validate (sanity : SanityEnv) (settings : JsValue) :
  Config_validate sanity settings = Ok tt -> validateConfig sanity = Ok tt.
Proof.
  unfold Config_validate, validateConfig. cbn [first_failing].
  destruct (unset (projectId sanity)); [done|].
  destruct (unset (dataset sanity)); [done|].
  destruct (unset (token sanity)); [done|].
  by destruct (unset (apiVersion sanity)).
Qed.

(** ** The transformer *)

Lemma mapC_Ok {A B} (f : A -> Completion B) (items : list A) (out : list B) :
  mapC f items = Ok out ->
  length out = length items /\
  forall k item, items !! k = Some item -> exists o, out !! k = Some o /\ f item = Ok o.
Proof.
  revert out. induction items as [|item rest IH]; intros out; cbn [mapC].
  - intros [= <-]. split; [done|]. intros k item Hk. by rewrite lookup_nil in Hk.
  - unfold mbind, Completion_bind, bindC.
    destruct (f item) as [b| |] eqn:Hb; [|done|done].
    destruct (mapC f rest) as [bs| |]; [|done|done].
    intros [= <-]. destruct (IH bs eq_refl) as [Hlen Hout].
    split; [cbn; lia|]. intros [|k] item' Hk; cbn in Hk.
    + injection Hk as <-. by exists b.
    + by apply Hout.
Qed.

Lemma mapC_returns {A B} (f : A -> Completion B) (items : list A) :
  Forall (fun item => exists o, f item = Ok o) items -> exists out, mapC f items = Ok out.
Proof.
  induction 1 as [|item rest [o Ho] _ [out IH]]; [by exists []|].
  exists (o :: out). cbn [mapC]. unfold mbind, Completion_bind, bindC. by rewrite Ho, IH.
Qed.

Lemma filterC_missing (item : JsValue) (fields : list string) missing :
  filterC (fun field => v ← prop item field; Ok (negb (truthy v))) fields = Ok missing ->
  (missing = [] <-> Forall (has_field item) fields).
Proof.
  revert missing. induction fields as [|field rest IH]; intros missing; cbn [filterC].
  - intros [= <-]. split; [by constructor|done].
  - unfold mbind, Completion_bind, bindC.
    destruct (prop item field) as [v| |] eqn:Hv; [|done|done].
    destruct (filterC _ rest) as [kept| |]; [|done|done].
    specialize (IH kept eq_refl). intros [= <-].
    destruct (truthy v) eqn:Ht; cbn [negb].
    + rewrite IH. split.
      * intros Hrest. constructor; [by exists v|done].
      * by intros [_ Hrest]%Forall_cons.
    + split; [done|]. intros [(v' & Hv' & Ht') _]%Forall_cons. congruence.
Qed.

Lemma collectMissing_Ok (fields : list string) (data : list JsValue) :
  forall index errors errors',
    collectMissing fields data index errors = Ok errors' ->
    (errors' = [] <-> errors = [] /\ Forall (fun item => Forall (has_field item) fields) data).
Proof.
  induction data as [|item rest IH]; intros index errors errors'; cbn [collectMissing].
  - intros [= <-]. split; [by split|by intros [-> _]].
  - unfold mbind at 1, Completion_bind at 1, bindC at 1.
    destruct (filterC _ fields) as [missing| |] eqn:Hm; [|done|done].
    apply filterC_missing in Hm. intros H. apply IH in H. rewrite H.
    destruct missing as [|m ms]; cbn [length Nat.ltb Nat.leb].
    + split.
      * intros [-> Hrest]. split; [done|]. constructor; [by apply Hm|done].
      * intros [-> [_ Hrest]%Forall_cons]. done.
    + split.
      * intros [Hnil _]. by destruct errors.
      * intros [_ [Hitem _]%Forall_cons]. apply Hm in Hitem. done.
Qed.

Lemma collectMissing_returns (fields : list string) (data : list JsValue) :
  Forall (fun item => Forall (has_field item) fields) data ->
  forall index errors, exists errors', collectMissing fields data index errors = Ok errors'.
Proof.
  induction 1 as [|item rest Hitem _ IH]; intros index errors; cbn [collectMissing]; [eauto|].
  unfold mbind at 1, Completion_bind at 1, bindC at 1.
  assert (Hf : exists missing,
            filterC (fun field => v ← prop item field; Ok (negb (truthy v))) fields =
            Ok missing).
  { clear IH. induction Hitem as [|field fs (v & Hv & Ht) _ [missing IHf]]; [by exists []|].
    cbn [filterC]. unfold mbind, Completion_bind, bindC. rewrite Hv, Ht.
    unfold mbind, Completion_bind, bindC in IHf. rewrite IHf. eauto. }
  destruct Hf as [missing ->]. apply IH.
Qed.

Lemma validateDataStructure_Ok (data : JsValue) (type : string) :
  validateDataStructure data type = Ok tt <->
  exists items, data = JArr items /\
    Forall (fun item => Forall (has_field item) (requiredFields type)) items.
Proof.
  unfold validateDataStructure. split.
  - destruct data as [| | | | |items|]; try done.
    unfold mbind, Completion_bind, bindC.
    destruct (collectMissing _ items 0 []) as [errs| |] eqn:Hc; [|done|done].
    apply collectMissing_Ok in Hc. destruct errs as [|e errs]; [|done].
    intros _. exists items. split; [done|]. by apply Hc.
  - intros (items & -> & Hall). unfold mbind, Completion_bind, bindC.
    destruct (collectMissing _ items 0 []) as [errs| |] eqn:Hc.
    + apply collectMissing_Ok in Hc. by rewrite (proj2 Hc (conj eq_refl Hall)).
    + destruct (collectMissing_returns _ _ Hall 0%nat []) as [errs Hc']. congruence.
    + destruct (collectMissing_returns _ _ Hall 0%nat []) as [errs Hc']. congruence.
Qed.

Lemma assoc_csv (field : string) (properties : list (string * JsValue)) :
  Forall (fun kv => exists s, kv.2 = JStr s) properties ->
  assoc field properties = JUndefined \/ exists s, assoc field properties = JStr s.
Proof.
  induction 1 as [|[key v] rest [s Hs] _ IH]; cbn [assoc]; [by left|].
  destruct (String.eqb key field); [|done]. right. by exists s.
Qed.

(** The records of a CSV file can always be transformed. *)
Lemma transform_csv_record (lib : JsLib) (item : JsValue) :
  csv_record item ->
  (exists o, transformListing lib item = Ok o) /\
  (exists o, transformCategory lib item = Ok o).
Proof.
  intros (properties & -> & Hcsv). split.
  - unfold transformListing, prop, mbind, Completion_bind, bindC.
    destruct (assoc_csv "title" properties Hcsv) as [->|[? ->]];
    destruct (assoc_csv "description" properties Hcsv) as [->|[? ->]];
    destruct (assoc_csv "email" properties Hcsv) as [->|[? ->]];
    destruct (assoc_csv "website_url" properties Hcsv) as [->|[? ->]];
    destruct (assoc_csv "instagram_url" properties Hcsv) as [->|[? ->]];
    cbn [optional_trim]; unfold normalizeUrl; cbn [truthy negb];
    repeat match goal with |- context [negb (negb (String.eqb ?s EmptyString))] =>
      destruct (negb (String.eqb s EmptyString)); cbn [negb] end;
    eauto.
  - unfold transformCategory, prop, mbind, Completion_bind, bindC.
    destruct (assoc_csv "title" properties Hcsv) as [->|[? ->]];
    destruct (assoc_csv "description" properties Hcsv) as [->|[? ->]];
    destruct (assoc_csv "color" properties Hcsv) as [->|[? ->]];
    cbn [optional_trim]; eauto.
Qed.

Section TransformFile.
Context {Sink : Type} (lib : JsLib).
Implicit Types (w : World (Sink := Sink)).

(** X18: [transform] gives one record for each record of the file, in the same
    order, and only for files in which every record has its required
    fields: whenever it returns, the parsed file is an array, every element
    of it has a truthy [title] (and [email], for listings), and the result
    holds at each index the transformation of the element at that index. *)
Theorem transformFile_records (inputPath type : string) w out w' :
  transformFile lib inputPath type w = (Ok out, w') ->
  exists f items,
    files w !! inputPath = Some f /\
    (if String.eqb (slice1 (toLowerCase lib (extname lib inputPath))) "csv"
     then csv_parse lib (f_data f) else parseJSON lib (f_data f)) = Ok (JArr items) /\
    length out = length items /\
    forall k item, items !! k = Some item ->
      Forall (has_field item) (requiredFields type) /\
      exists o, out !! k = Some o /\
        (if String.eqb type "listing" then transformListing lib item
         else transformCategory lib item) = Ok o.
Proof.
  unfold transformFile, try_catch.
  unfold mbind at 1, M_bind at 1, bind at 1. unfold logger at 1, modify at 1.
  unfold mbind at 1, M_bind at 1, bind at 1.
  unfold loadFile, try_catch, fs_readFile. unfold mbind at 1, M_bind at 1, bind at 1.
  cbn [files set_trace].
  destruct (files w !! inputPath) as [f|] eqn:Hf; [|done].
  destruct (f_readable f); [|done].
  set (extension := slice1 (toLowerCase lib (extname lib inputPath))).
  destruct (negb (existsb (String.eqb extension) ["csv"; "json"])); [done|].
  unfold mret at 1, M_ret at 1, ret at 1.
  unfold mbind at 1, M_bind at 1, bind at 1. unfold liftC at 1.
  set (parsed := if String.eqb extension "csv" then csv_parse lib (f_data f)
                 else parseJSON lib (f_data f)).
  destruct parsed as [rawData| |] eqn:Hparsed; [|done|done].
  unfold mbind at 1, M_bind at 1, bind at 1. unfold liftC at 1.
  destruct (validateDataStructure rawData type) as [[]| |] eqn:Hvalid; [|done|done].
  apply validateDataStructure_Ok in Hvalid as (items & -> & Hall).
  unfold mbind at 1, M_bind at 1, bind at 1. unfold liftC at 1.
  destruct (mapC _ items) as [transformed| |] eqn:Hmap; [|done|done].
  unfold mbind, M_bind, bind, logger, modify, mret, M_ret, ret. intros [= <- <-].
  apply mapC_Ok in Hmap as [Hlen Hout].
  exists f, items. split; [done|]. split; [done|]. split; [done|].
  intros k item Hk. split; [|by apply Hout].
  rewrite Forall_forall in Hall. apply Hall. by eapply list_elem_of_lookup_2.
Qed.
(** X19: A CSV file that can be read and whose records all have the required
    columns filled is transformed, record for record. *)
Theorem transformFile_csv (inputPath type : string) w f items :
  files w !! inputPath = Some f -> f_readable f = true ->
  slice1 (toLowerCase lib (extname lib inputPath)) = "csv" ->
  csv_parse lib (f_data f) = Ok (JArr items) ->
  Forall csv_record items ->
  Forall (fun item => Forall (has_field item) (requiredFields type)) items ->
  exists out w',
    transformFile lib inputPath type w = (Ok out, w') /\ length out = length items.
Proof.
  intros Hf Hr Hext Hparse Hcsv Hreq.
  assert (Hmap : exists out,
            mapC (fun item => if String.eqb type "listing" then transformListing lib item
                              else transformCategory lib item) items = Ok out).
  { apply mapC_returns. eapply Forall_impl; [exact Hcsv|]. intros item Hitem.
    destruct (transform_csv_record lib item Hitem) as [Hl Hc].
    by destruct (String.eqb type "listing"). }
  destruct Hmap as [out Hmap].
  exists out. eexists. split; [|by apply mapC_Ok in Hmap as [? _]].
  unfold transformFile, try_catch.
  unfold mbind at 1, M_bind at 1, bind at 1. unfold logger at 1, modify at 1.
  unfold mbind at 1, M_bind at 1, bind at 1.
  unfold loadFile, try_catch, fs_readFile. unfold mbind at 1, M_bind at 1, bind at 1.
  cbn [files set_trace]. rewrite Hf, Hr, Hext.
  change (negb (existsb (String.eqb "csv") ["csv"; "json"])) with false. cbv iota.
  unfold mret at 1, M_ret at 1, ret at 1.
  unfold mbind at 1, M_bind at 1, bind at 1. unfold liftC at 1.
  change (String.eqb "csv" "csv") with true. cbv iota. rewrite Hparse.
  unfold mbind at 1, M_bind at 1, bind at 1. unfold liftC at 1.
  rewrite (proj2 (validateDataStructure_Ok (JArr items) type)) by eauto.
  unfold mbind at 1, M_bind at 1, bind at 1. unfold liftC at 1. rewrite Hmap.
  reflexivity.
Qed.
End TransformFile.

Section Listing.
Context (lib : JsLib).

Lemma normalizeUrl_shape (url v : JsValue) :
  normalizeUrl lib url = Ok v ->
  v = JUndefined \/ exists s, v = JStr s /\ String.prefix "http" s = true.
Proof.
  unfold normalizeUrl. destruct (negb (truthy url)); [intros [= <-]; by left|].
  destruct url as [| | | |s| |]; try done. intros [= <-]. right.
  destruct (String.prefix "http" (trim lib s)) eqn:Hp; [eexists; by split|].
  eexists. split; [reflexivity|].
  change "https://"%string with ("http" +:+ "s://")%string.
  rewrite append_assoc. apply prefix_app.
Qed.

Lemma parse_lists_array (v : JsValue) :
  (exists elements, parseImageUrls lib v = JArr elements) /\
  (exists elements, parseCategories lib v = JArr elements) /\
  (exists elements, parseTags lib v = JArr elements).
Proof.
  unfold parseImageUrls, parseCategories, parseTags.
  destruct (negb (truthy v)); [|destruct v]; repeat split; eexists; reflexivity.
Qed.

(** X20: Whatever the raw listing holds, a transformed listing has arrays for
    its images, categories and tags, so that [validators.array] lets them
    through unchanged, and its two addresses are undefined or start with
    [http]. *)
Theorem transformListing_shape (rawListing data : JsValue) :
  transformListing lib rawListing = Ok data ->
  (forall field, field ∈ ["websiteUrl"; "instagramUrl"] ->
     prop data field = Ok JUndefined \/
     exists s, prop data field = Ok (JStr s) /\ String.prefix "http" s = true) /\
  (forall field, field ∈ ["galleryImages"; "categories"; "tags"] ->
     exists elements,
       prop data field = Ok (JArr elements) /\
       array (JArr elements) field = Ok (JArr elements)).
Proof.
  unfold transformListing, mbind, Completion_bind, bindC.
  destruct (prop rawListing "title") as [title| |]; [|done|done].
  destruct (optional_trim lib title) as [title'| |]; [|done|done].
  destruct (prop rawListing "description") as [description| |]; [|done|done].
  destruct (optional_trim lib description) as [description'| |]; [|done|done].
  destruct (prop rawListing "email") as [email| |]; [|done|done].
  destruct (match email with JUndefined | JNull => _ | _ => _ end) as [email'| |];
    [|done|done].
  destruct (prop rawListing "website_url") as [website| |]; [|done|done].
  destruct (normalizeUrl lib website) as [websiteUrl| |] eqn:Hweb; [|done|done].
  destruct (prop rawListing "instagram_url") as [instagram| |]; [|done|done].
  destruct (normalizeUrl lib instagram) as [instagramUrl| |] eqn:Hinsta; [|done|done].
  destruct (prop rawListing "gallery_images") as [images| |]; [|done|done].
  destruct (prop rawListing "categories") as [categories| |]; [|done|done].
  destruct (prop rawListing "tags") as [tags| |]; [|done|done].
  intros [= <-]. apply normalizeUrl_shape in Hweb, Hinsta.
  destruct (parse_lists_array images) as ([gi Hgi] & _).
  destruct (parse_lists_array categories) as (_ & [ca Hca] & _).
  destruct (parse_lists_array tags) as (_ & _ & [ta Hta]).
  split.
  - intros field Hfield.
    repeat (apply elem_of_cons in Hfield as [->|Hfield]); [| |by apply elem_of_nil in Hfield].
    + cbn. destruct Hweb as [->|(s & -> & Hs)]; [by left|right; by exists s].
    + cbn. destruct Hinsta as [->|(s & -> & Hs)]; [by left|right; by exists s].
  - intros field Hfield.
    repeat (apply elem_of_cons in Hfield as [->|Hfield]); [| | |by apply elem_of_nil in Hfield].
    + exists gi. cbn. by rewrite Hgi.
    + exists ca. cbn. by rewrite Hca.
    + exists ta. cbn. by rewrite Hta.
Qed.
End Listing.

(** ** Categories: from the raw record to the validated document *)

Section Category.
Context {Sink : Type} (lib : JsLib).
Context (fetchDocument : string -> JsValue -> M (World (Sink := Sink)) JsValue).
Implicit Types (w : World (Sink := Sink)).

(** Validation of a transformed category, up to the colour. *)
Lemma validateCategory_color (title description color featured : JsValue) w doc w' :
  validateCategory lib fetchDocument
    (JObj [("title", title); ("description", description); ("color", color);
           ("featuredListing", featured)]) w = (Ok doc, w') ->
  hexColor lib color "color" = Ok color /\
  (truthy color = true -> prop doc "color" = Ok color).
Proof.
  set (data := JObj [("title", title); ("description", description); ("color", color);
                     ("featuredListing", featured)]).
  assert (Hc : prop data "color" = Ok color) by reflexivity.
  assert (Ht : prop data "title" = Ok title) by reflexivity.
  assert (Hf : prop data "featuredListing" = Ok featured) by reflexivity.
  assert (Hd : prop data "description" = Ok description) by reflexivity.
  clearbody data.
  unfold validateCategory, try_catch.
  unfold mbind at 1, M_bind at 1, bind at 1. unfold checkRequired, liftC at 1.
  destruct (match mapC _ ["title"] with Ok _ => _ | _ => _ end) as [[]| |]; [|done|done].
  unfold mbind at 1, M_bind at 1, bind at 1. unfold liftC at 1. rewrite Hc.
  unfold mbind at 1, M_bind at 1, bind at 1.
  destruct (truthy color) eqn:Htruthy.
  - unfold liftC at 1. destruct (hexColor lib color "color") as [color'| |] eqn:Hhex;
      [|done|done].
    assert (color' = color) as ->.
    { unfold hexColor in Hhex. destruct (_ && _)%bool; congruence. }
    unfold mbind at 1, M_bind at 1, bind at 1. unfold liftC at 1. rewrite Ht.
    unfold mbind at 1, M_bind at 1, bind at 1. unfold liftC at 1.
    destruct (generateSlug lib _ "title") as [slug| |]; [|done|done].
    unfold mbind at 1, M_bind at 1, bind at 1. unfold liftC at 1. rewrite Hf.
    unfold mbind at 1, M_bind at 1, bind at 1.
    destruct (if truthy _ then _ else _) as [[featured'| |] w1]; [|done|done].
    unfold mbind at 1, M_bind at 1, bind at 1. unfold liftC at 1. rewrite Hd.
    intros [= <- <-]. done.
  - intros _. split; [|done]. unfold hexColor. by rewrite Htruthy.
Qed.

(** X21: A category passes from the raw record through [transformCategory] and
    [CategoryImporter.validate] only with a colour: the raw colour is a
    string, and with a [#] put in front unless it has one it is a hex colour
    code, which is the colour of the document.  A raw record without
    colour, for which the transformer writes [#undefined], is always
    rejected. *)
Theorem category_color_hex (rawCategory data doc : JsValue) w w' :
  transformCategory lib rawCategory = Ok data ->
  validateCategory lib fetchDocument data w = (Ok doc, w') ->
  exists c,
    prop rawCategory "color" = Ok (JStr c) /\
    let color := if String.prefix "#" c then c else "#" +:+ c in
    is_hex_color color = true /\ prop doc "color" = Ok (JStr color).
Proof.
  unfold transformCategory, mbind, Completion_bind, bindC.
  destruct (prop rawCategory "title") as [title| |]; [|done|done].
  destruct (optional_trim lib title) as [title'| |]; [|done|done].
  destruct (prop rawCategory "description") as [description| |]; [|done|done].
  destruct (optional_trim lib description) as [description'| |]; [|done|done].
  destruct (prop rawCategory "color") as [color| |]; [|done|done].
  destruct (match color with JUndefined | JNull => _ | _ => _ end) as [color'| |] eqn:Hcolor;
    [|done|done].
  destruct (prop rawCategory "featured_listing_id") as [featured| |]; [|done|done].
  intros [= <-] Hvalid. apply validateCategory_color in Hvalid as [Hhex Hdoc].
  assert (Hshape : exists s, color' = JStr s /\ String.prefix "#" s = true /\
            ((color = JUndefined /\ s = "#undefined") \/ (color = JNull /\ s = "#null") \/
             exists c, color = JStr c /\ s = if String.prefix "#" c then c else "#" +:+ c)).
  { destruct color as [| | | |c| |]; try done; injection Hcolor as <-.
    - exists "#undefined"%string. eauto.
    - exists "#null"%string. eauto 6.
    - destruct (String.prefix "#" c) eqn:Hp.
      + exists c. split; [done|]. split; [done|]. right. right. exists c. by rewrite Hp.
      + exists ("#" +:+ c)%string. split; [done|]. split; [apply prefix_app|]. right. right.
        exists c. by rewrite Hp. }
  destruct Hshape as (s & -> & Hp & Hs).
  assert (Htruthy : truthy (JStr s) = true) by (by destruct s).
  unfold hexColor in Hhex. rewrite Htruthy in Hhex. cbn [andb ToString] in Hhex.
  destruct (is_hex_color s) eqn:Hh; [|done].
  destruct Hs as [[-> ->]|[[-> ->]|(c & -> & ->)]]; [done|done|].
  exists c. split; [done|]. cbv zeta. split; [done|]. by apply Hdoc.
Qed.
End Category.

Section CategoryTitle.
Context {Sink : Type} (lib : JsLib).
Context (fetchDocument : string -> JsValue -> M (World (Sink := Sink)) JsValue).
Implicit Types (w : World (Sink := Sink)).

(** Validation of a transformed category, up to the title. *)
Lemma validateCategory_title (title description color featured : JsValue) w doc w' :
  validateCategory lib fetchDocument
    (JObj [("title", title); ("description", description); ("color", color);
           ("featuredListing", featured)]) w = (Ok doc, w') ->
  required title "title" = Ok title /\ prop doc "title" = Ok title.
Proof.
  set (data := JObj [("title", title); ("description", description); ("color", color);
                     ("featuredListing", featured)]).
  assert (Hc : prop data "color" = Ok color) by reflexivity.
  assert (Ht : prop data "title" = Ok title) by reflexivity.
  assert (Hf : prop data "featuredListing" = Ok featured) by reflexivity.
  assert (Hd : prop data "description" = Ok description) by reflexivity.
  clearbody data.
  unfold validateCategory, try_catch.
  unfold mbind at 1, M_bind at 1, bind at 1. unfold checkRequired, liftC at 1.
  unfold mapC, mbind at 1 2 3, Completion_bind at 1 2 3, bindC at 1 2 3.
  rewrite Ht.
  destruct (required title "title") as [title'| |] eqn:Hreq; [|done|done].
  assert (title' = title) as ->.
  { unfold required in Hreq. destruct title as [| | | |[|]| |]; congruence. }
  unfold mbind at 1, M_bind at 1, bind at 1. unfold liftC at 1. rewrite Hc.
  unfold mbind at 1, M_bind at 1, bind at 1.
  destruct (if truthy color then _ else _) as [[color'| |] w1]; [|done|done].
  unfold mbind at 1, M_bind at 1, bind at 1. unfold liftC at 1.
  unfold mbind at 1, M_bind at 1, bind at 1. unfold liftC at 1.
  destruct (generateSlug lib _ "title") as [slug| |]; [|done|done].
  unfold mbind at 1, M_bind at 1, bind at 1. unfold liftC at 1. rewrite Hf.
  unfold mbind at 1, M_bind at 1, bind at 1.
  destruct (if truthy _ then _ else _) as [[featured'| |] w2]; [|done|done].
  unfold mbind at 1, M_bind at 1, bind at 1. unfold liftC at 1. rewrite Hd.
  intros [= <- <-]. done.
Qed.

(** X27: A category passes from the raw record through [transformCategory] and
    [CategoryImporter.validate] only if its raw title is a string that
    [trim] does not empty, and the title of the document is the trimmed
    title.  A title that is nothing but what [trim] removes is rejected. *)
Theorem category_title_trimmed (rawCategory data doc : JsValue) w w' :
  transformCategory lib rawCategory = Ok data ->
  validateCategory lib fetchDocument data w = (Ok doc, w') ->
  exists t,
    prop rawCategory "title" = Ok (JStr t) /\
    trim lib t <> EmptyString /\ prop doc "title" = Ok (JStr (trim lib t)).
Proof.
  unfold transformCategory, mbind, Completion_bind, bindC.
  destruct (prop rawCategory "title") as [title| |]; [|done|done].
  destruct (optional_trim lib title) as [title'| |] eqn:Htrim; [|done|done].
  destruct (prop rawCategory "description") as [description| |]; [|done|done].
  destruct (optional_trim lib description) as [description'| |]; [|done|done].
  destruct (prop rawCategory "color") as [color| |]; [|done|done].
  destruct (match color with JUndefined | JNull => _ | _ => _ end) as [color'| |];
    [|done|done].
  destruct (prop rawCategory "featured_listing_id") as [featured| |]; [|done|done].
  intros [= <-] Hvalid. apply validateCategory_title in Hvalid as [Hreq Hdoc].
  destruct title as [| | | |t| |]; cbn [optional_trim] in Htrim; try done;
    injection Htrim as <-; try done.
  exists t. split; [done|]. split; [|done].
  intros Hempty. rewrite Hempty in Hreq. done.
Qed.
End CategoryTitle.

(** ** Separated lists *)

Lemma split_clean (id : string) :
  forallb (fun c => negb (is_separator c)) (list_ascii_of_string id) = true ->
  split_separators id = [id].
Proof.
  induction id as [|c id IH]; [done|]. cbn [list_ascii_of_string forallb split_separators].
  intros [Hc Hid]%andb_prop. apply negb_true_iff in Hc. rewrite Hc, IH; done.
Qed.

Lemma split_clean_app (id rest : string) :
  forallb (fun c => negb (is_separator c)) (list_ascii_of_string id) = true ->
  split_separators (id +:+ "," +:+ rest) = id :: split_separators rest.
Proof.
  induction id as [|c id IH]; [done|].
  cbn [list_ascii_of_string forallb]. intros [Hc Hid]%andb_prop. apply negb_true_iff in Hc.
  rewrite append_cons. cbn [split_separators]. rewrite Hc, IH; done.
Qed.

Section Lists.
Context (lib : JsLib).

Lemma split_concat (ids : list string) :
  ids <> [] -> Forall (clean_id lib) ids ->
  split_separators (String.concat "," ids) = ids.
Proof.
  intros Hne Hall. induction Hall as [|id rest (Hn & Ht & Hs) Hrest IH]; [done|].
  destruct rest as [|id' rest]; [by apply split_clean|].
  change (String.concat "," (id :: id' :: rest))
    with (id +:+ "," +:+ String.concat "," (id' :: rest)).
  rewrite split_clean_app by done. by rewrite IH.
Qed.

Lemma filter_clean (ids : list string) :
  Forall (clean_id lib) ids -> List.filter nonempty (map (trim lib) ids) = ids.
Proof.
  induction 1 as [|id rest (Hn & Ht & Hs) _ IH]; [done|].
  cbn [map List.filter]. rewrite Ht, IH. by destruct id.
Qed.

(** X22: Identifiers written one after the other with commas between them are
    read back as they were: [parseCategories] and [parseImageUrls] give the
    array of the identifiers, in order, when each of them is not empty,
    holds no separator and has nothing for [trim] to remove. *)
Theorem parseCategories_joined (ids : list string) :
  Forall (clean_id lib) ids ->
  parseCategories lib (JStr (String.concat "," ids)) = JArr (map JStr ids) /\
  parseImageUrls lib (JStr (String.concat "," ids)) = JArr (map JStr ids).
Proof.
  intros Hall. unfold parseCategories, parseImageUrls. cbn [truthy].
  destruct ids as [|id rest]; [done|].
  assert (Hne : String.eqb (String.concat "," (id :: rest)) EmptyString = false).
  { apply Forall_cons in Hall as [(Hn & _) _]. destruct id as [|c id]; [done|].
    cbn [String.concat]. by destruct rest. }
  rewrite Hne. cbn [negb]. by rewrite split_concat, filter_clean.
Qed.
End Lists.

(** ** The import without checkpoints *)

Section Legacy.
Context {Sink Item Doc : Type}.
Implicit Types (w : World (Sink := Sink)) (r : ListingImporter.Results (Item := Item)).

Lemma importBatch_fails (validate : Item -> Completion Doc) (batchSize : nat)
    (listings : list Item) (i : nat) w r :
  (forall item, validate item <> Diverge) ->
  exists w' r',
    ListingImporter.importBatch validate batchSize listings i (w, r) = (Ok tt, (w', r')) /\
    ListingImporter.success r' = ListingImporter.success r /\
    ListingImporter.failed r' =
      (ListingImporter.failed r + length (slice listings i (i + batchSize)))%nat /\
    length (ListingImporter.errors r') = S (length (ListingImporter.errors r)) /\
    sink w' = sink w /\ files w' = files w.
Proof.
  intros Hv. unfold ListingImporter.importBatch.
  set (batch := slice listings i (i + batchSize)).
  unfold try_catch. unfold mbind at 1, M_bind at 1, bind at 1. unfold liftC at 1.
  assert (Hpa : Promise_all (map validate batch) <> Diverge).
  { apply Promise_all_returns, Forall_forall. intros c Hin.
    apply list_elem_of_In, in_map_iff in Hin as (item & <- & _). apply Hv. }
  destruct (Promise_all (map validate batch)) as [docs|e|]; [| |done].
  - unfold mbind at 1, M_bind at 1, bind at 1.
    unfold ListingImporter.createAll, liftC at 1.
    destruct docs as [|doc docs]; cbn [mapC].
    + unfold mbind at 1, M_bind at 1, bind at 1. unfold liftC at 1.
      unfold ListingImporter.transaction_call.
      eexists _, _. split; [reflexivity|]. cbn. rewrite length_app. cbn.
      repeat split; lia.
    + unfold ListingImporter.transaction_call at 1.
      unfold mbind at 1, Completion_bind at 1, bindC at 1.
      eexists _, _. split; [reflexivity|]. cbn. rewrite length_app. cbn.
      repeat split; lia.
  - eexists _, _. split; [reflexivity|]. cbn. rewrite length_app. cbn.
    repeat split; lia.
Qed.

Lemma ListingImporter_importLoop_fails (validate : Item -> Completion Doc) (batchSize : nat)
    (listings : list Item) :
  (forall item, validate item <> Diverge) -> (1 <= batchSize)%nat ->
  forall fuel i w r,
    (length listings - i <= fuel)%nat ->
    exists w' r',
      ListingImporter.importLoop validate batchSize listings fuel i (w, r) =
        (Ok tt, (w', r')) /\
      ListingImporter.success r' = ListingImporter.success r /\
      ListingImporter.failed r' = (ListingImporter.failed r + (length listings - i))%nat /\
      (length (ListingImporter.errors r) <= length (ListingImporter.errors r'))%nat /\
      (i < length listings -> length (ListingImporter.errors r) <
                              length (ListingImporter.errors r'))%nat /\
      sink w' = sink w /\ files w' = files w.
Proof.
  intros Hv Hb. induction fuel as [|fuel IH]; intros i w r Hfuel.
  - cbn [ListingImporter.importLoop]. destruct (Nat.ltb_spec i (length listings)); [lia|].
    exists w, r. split; [done|]. repeat split; lia.
  - cbn [ListingImporter.importLoop]. destruct (Nat.ltb_spec i (length listings)) as [Hi|Hi].
    + unfold mbind at 1, M_bind at 1, bind at 1.
      destruct (importBatch_fails validate batchSize listings i w r Hv)
        as (w1 & r1 & -> & Hs1 & Hf1 & He1 & Hsink1 & Hfiles1).
      destruct (IH (i + batchSize)%nat w1 r1)
        as (w' & r' & -> & Hs' & Hf' & Hle' & He' & Hsink' & Hfiles'); [lia|].
      exists w', r'. split; [done|]. rewrite length_slice in Hf1.
      repeat split; try congruence; try lia.
    + exists w, r. split; [done|]. repeat split; lia.
Qed.

(** X23: [ListingImporter.import] imports nothing.  The transaction it writes to
    is the promise of the [async] method [createTransaction], called without
    [await]: every batch that validates ends in the [TypeError] of calling
    [create] or [commit] on it.  So the run returns with no record counted
    in [success] and every record in [failed], and with errors recorded
    whenever there are records. *)
Theorem ListingImporter_import_commits_nothing (validate : Item -> Completion Doc)
    (batchSize : nat) (listings : list Item) w :
  (forall item, validate item <> Diverge) -> (1 <= batchSize)%nat ->
  exists results w',
    ListingImporter.import validate batchSize listings w = (Ok results, w') /\
    ListingImporter.success results = 0%nat /\
    ListingImporter.failed results = length listings /\
    (listings <> [] -> ListingImporter.errors results <> []).
Proof.
  intros Hv Hb. unfold ListingImporter.import.
  unfold mbind at 1, M_bind at 1, bind at 1. unfold logger at 1, modify at 1.
  unfold mbind at 1, M_bind at 1, bind at 1. unfold ListingImporter.withResults.
  match goal with |- context [ListingImporter.importLoop _ _ _ _ _ (?w0, ?r0)] =>
    destruct (ListingImporter_importLoop_fails validate batchSize listings Hv Hb
                (length listings) 0%nat w0 r0)
      as (w1 & r1 & -> & Hs & Hf & _ & He & Hsink & Hfiles); [lia|] end.
  eexists _, _. split; [reflexivity|]. cbn in *.
  repeat split; try done; try lia.
  intros Hne Hnil. rewrite Hnil in He. destruct listings; [done|]. cbn in He. lia.
Qed.
End Legacy.

(** ** The further properties at concrete inputs *)

(** Saving after 50 of 100 records into the empty directory, then loading. *)
Lemma saveCheckpoint_then_load_witness :
  exists w1,
    saveCheckpoint (Demo.demo_env 10) (new_RecoverySystem "/app") "listing" (seq 0 100) 50
      Demo.fresh_world =
      (Ok "/app/checkpoints/checkpoint_listing_2024-01-01T00-00-00-000Z.json", w1) /\
    loadLatestCheckpoint (Demo.demo_env 10) (new_RecoverySystem "/app") "listing" w1 =
      (Ok (Some (JsonCheckpoint
                   (mkCheckpoint "2024-01-01T00-00-00-000Z" "listing" 50 (seq 50 50) 50 100))),
       w1).
Proof.
  apply (saveCheckpoint_then_load (Demo.demo_env 10) (new_RecoverySystem "/app") "listing"
           (seq 0 100) 50 Demo.fresh_world).
  - reflexivity.
  - reflexivity.
  - reflexivity.
  - vm_compute. reflexivity.
  - vm_compute. reflexivity.
  - intros name [Hs _]. vm_compute in Hs. by destruct Hs.
Defined.

(** Pruning the busy directory with seven days: of the listing
    checkpoints, the one of a month ago goes and the one of a minute ago
    stays. *)
Lemma cleanOldCheckpoints_removes_expired_witness :
  exists w',
    cleanOldCheckpoints (new_RecoverySystem "/app") "listing" "7d" Demo.busy_world = (Ok tt, w') /\
    forall name f,
      has_separator name = false ->
      String.prefix (checkpointPrefix "listing") name = true ->
      (files w' !! path_join "/app/checkpoints" name = Some f <->
       files Demo.busy_world !! path_join "/app/checkpoints" name = Some f /\
       now Demo.busy_world - f_mtime f <= 604800000).
Proof.
  apply (cleanOldCheckpoints_removes_expired (new_RecoverySystem "/app") "listing" "7d"
           604800000 Demo.busy_world); reflexivity.
Defined.

(** Pruning the busy directory twice with seven days. *)
Lemma cleanOldCheckpoints_idempotent_witness :
  exists w' w'',
    cleanOldCheckpoints (new_RecoverySystem "/app") "listing" "7d" Demo.busy_world = (Ok tt, w') /\
    cleanOldCheckpoints (new_RecoverySystem "/app") "listing" "7d" w' = (Ok tt, w'') /\
    files w'' = files w'.
Proof.
  apply (cleanOldCheckpoints_idempotent (new_RecoverySystem "/app") "listing" "7d" 604800000
           Demo.busy_world); reflexivity.
Defined.

(** The checkpoint of a minute ago survives pruning and is loaded after
    it. *)
Lemma cleanOldCheckpoints_keeps_latest_witness :
  exists w',
    cleanOldCheckpoints (new_RecoverySystem "/app") "listing" "7d" Demo.busy_world = (Ok tt, w') /\
    (loadLatestCheckpoint (Demo.demo_env 50) (new_RecoverySystem "/app") "listing" w').1 =
    (loadLatestCheckpoint (Demo.demo_env 50) (new_RecoverySystem "/app") "listing"
       Demo.busy_world).1.
Proof.
  apply (cleanOldCheckpoints_keeps_latest (Demo.demo_env 50) (new_RecoverySystem "/app")
           "listing" "7d" 604800000 Demo.busy_world Demo.cp50_name
           (mkFile (Demo.demo_stringify Demo.cp50) true Demo.t0)).
  - reflexivity.
  - reflexivity.
  - reflexivity.
  - split; [|split]; [|reflexivity..]. vm_compute. eexists. reflexivity.
  - intros name Hn. apply (checkpointFiles_elem (new_RecoverySystem "/app")) in Hn.
    vm_compute in Hn.
    repeat (apply elem_of_cons in Hn as [->|Hn]); [vm_compute; exact I..|].
    by apply elem_of_nil in Hn.
  - vm_compute. reflexivity.
  - vm_compute. discriminate.
Defined.

(** Saving a category checkpoint next to the listing checkpoints. *)
Lemma saveCheckpoint_other_type_witness :
  (loadLatestCheckpoint (Demo.demo_env 50) (new_RecoverySystem "/app") "listing"
     (saveCheckpoint (Demo.demo_env 50) (new_RecoverySystem "/app") "category" (seq 0 100) 50
        Demo.busy_world).2).1 =
  (loadLatestCheckpoint (Demo.demo_env 50) (new_RecoverySystem "/app") "listing"
     Demo.busy_world).1.
Proof.
  apply (saveCheckpoint_other_type (Demo.demo_env 50) (new_RecoverySystem "/app")
           "listing" "category" (seq 0 100) 50 Demo.busy_world).
  - reflexivity.
  - reflexivity.
  - discriminate.
Defined.

(** Seven days and seven weeks. *)
Lemma parseMaxAge_days_weeks_witness :
  parseMaxAge "7d" = Ok 604800000 /\ parseMaxAge "7w" = Ok 4233600000.
Proof.
  apply (parseMaxAge_days_weeks 7). vm_compute. discriminate.
Defined.

(** Five transport failures ahead of three attempts. *)
Lemma retryOperation_bounds_witness :
  exists c w' waits,
    retryOperation (new_RecoverySystem "/app")
      (liftSink (counted (Demo.demo_commit [1; 2; 3]%nat))) [] (Demo.flaky_world 5) = (c, w') /\
    c <> Diverge /\
    (snd (sink (Demo.flaky_world 5)) <= snd (sink w') <= snd (sink (Demo.flaky_world 5)) + 3)%nat /\
    (forall v, c = Ok v -> (snd (sink (Demo.flaky_world 5)) < snd (sink w'))%nat) /\
    sleeps (trace w') = sleeps (trace (Demo.flaky_world 5)) ++ waits /\
    Forall (fun ms => 0 <= ms) waits /\
    2 * totalWait waits <= 1000 * (Z.of_nat 3 * (Z.of_nat 3 - 1)).
Proof.
  apply (retryOperation_bounds (new_RecoverySystem "/app") (Demo.demo_commit [1; 2; 3]%nat) []
           (Demo.flaky_world 5)).
  - intros s. unfold Demo.demo_commit. by destruct (Demo.outages s).
  - vm_compute. discriminate.
Defined.

(** 120 records in batches of 50, the last 20 invalid: the first hundred
    are committed, also when the directory cannot be written. *)
Lemma import_commits_valid_batches_witness :
  exists results w',
    import (recording_env 50) new_ImportManager "records-bad-tail.json" "listing"
      (mkOptions false true) (recording_world false) = (Ok results, w') /\
    sink w' = sink (recording_world false) ++
      committedDocs Demo.demo_validate
        (batchesFrom 50 (seq 0 100 ++ seq 1000 20) (length (seq 0 100 ++ seq 1000 20)) 0).
Proof.
  apply (import_commits_valid_batches (recording_env 50) Demo.demo_validate new_ImportManager
           "records-bad-tail.json" "listing" (mkOptions false true)
           (seq 0 100 ++ seq 1000 20) (recording_world false)).
  - reflexivity.
  - intros item. unfold Demo.demo_validate. by destruct (item <? 1000)%nat.
  - simpl. lia.
  - simpl. lia.
  - reflexivity.
  - reflexivity.
  - reflexivity.
Defined.

(** 100 valid records in batches of 30. *)
Lemma import_all_valid_witness :
  exists results w',
    import (recording_env 30) new_ImportManager "records-100.json" "listing"
      (mkOptions false false) (recording_world true) = (Ok results, w') /\
    sink w' = sink (recording_world true) ++ seq 0 100 /\
    success results = length (seq 0 100) /\ failed results = 0%nat /\ errors results = [].
Proof.
  apply (import_all_valid (recording_env 30) Demo.demo_validate new_ImportManager
           "records-100.json" "listing" (mkOptions false false) (seq 0 100) (seq 0 100)
           (recording_world true)).
  - reflexivity.
  - simpl. lia.
  - simpl. lia.
  - reflexivity.
  - reflexivity.
  - reflexivity.
  - vm_compute. reflexivity.
Defined.

(** The [validate] command over 100 valid records followed by 20 invalid
    ones. *)
Lemma validateCommand_results_witness :
  exists results w' importer,
    validateCommand (Demo.demo_env 50) "listing" "records-bad-tail.json" Demo.fresh_world =
      (Ok results, w') /\
    getImporter (Demo.demo_env 50) "listing" = Ok importer /\
    total results = length (seq 0 100 ++ seq 1000 20) /\
    (valid results + invalid results = total results)%nat /\
    length (validationErrors results) = invalid results /\
    forall index error record,
      mkValidationFailure index error record ∈ validationErrors results <->
      (seq 0 100 ++ seq 1000 20) !! index = Some record /\
      exists e, validate importer record = Throw e /\ error = message e.
Proof.
  apply (validateCommand_results (Demo.demo_env 50) "listing" "records-bad-tail.json"
           (seq 0 100 ++ seq 1000 20) Demo.fresh_world).
  - reflexivity.
  - reflexivity.
  - intros importer item [= <-]. cbn. unfold Demo.demo_validate.
    by destruct (item <? 1000)%nat.
Defined.

(** 120 records in batches of 50, the last 20 invalid, continuing on
    error. *)
Lemma import_counts_every_record_witness :
  exists results w',
    import (Demo.demo_env 50) new_ImportManager "records-bad-tail.json" "listing"
      (mkOptions false true) Demo.fresh_world = (Ok results, w') /\
    (success results + failed results = length (seq 0 100 ++ seq 1000 20))%nat.
Proof.
  apply (import_counts_every_record (Demo.demo_env 50) new_ImportManager
           "records-bad-tail.json" "listing" (mkOptions false true) Demo.demo_importer
           (seq 0 100 ++ seq 1000 20) Demo.fresh_world).
  - reflexivity.
  - split.
    + intros item. change (Demo.demo_validate item <> Diverge).
      unfold Demo.demo_validate. by destruct (item <? 1000)%nat.
    + intros docs s. change ((Demo.demo_commit docs s).1 <> Diverge).
      unfold Demo.demo_commit. by destruct (Demo.outages s).
  - reflexivity.
  - reflexivity.
  - simpl. lia.
  - reflexivity.
  - reflexivity.
Defined.

(** 100 records with a batch size of 0. *)
Lemma import_batchSize_zero_witness :
  (forall fuel w0 r,
     (importLoop (Demo.demo_env 0) new_ImportManager "listing" (mkOptions false true)
        Demo.demo_importer (seq 0 100) fuel 0 (w0, r)).1 = Diverge) /\
  (import (Demo.demo_env 0) new_ImportManager "records-100.json" "listing"
     (mkOptions false true) Demo.fresh_world).1 = Diverge.
Proof.
  apply (import_batchSize_zero (Demo.demo_env 0) new_ImportManager "records-100.json"
           "listing" (mkOptions false true) Demo.demo_importer (seq 0 100) Demo.fresh_world).
  - reflexivity.
  - discriminate.
  - reflexivity.
  - split.
    + intros item. change (Demo.demo_validate item <> Diverge).
      unfold Demo.demo_validate. by destruct (item <? 1000)%nat.
    + intros docs s. change ((Demo.demo_commit docs s).1 <> Diverge).
      unfold Demo.demo_commit. by destruct (Demo.outages s).
  - reflexivity.
  - reflexivity.
  - reflexivity.
Defined.

(** Three documents fetched as two and one. *)
Lemma backupText_joined_witness :
  Backup.backupText string_of_nat [[1; 2]; [3]]%nat =
  (("[" +:+ Backup.LF) +:+
   String.concat ("," +:+ Backup.LF) (map string_of_nat (concat [[1; 2]; [3]]%nat)) +:+
   (Backup.LF +:+ "]"),
   length (concat [[1; 2]; [3]]%nat)).
Proof.
  apply (backupText_joined string_of_nat [[1; 2]; [3]]%nat).
  repeat constructor; discriminate.
Defined.

(** Seven days for both tools; two months for the backup tool only. *)
Lemma parseMaxAge_backup_agrees_witness :
  Backup.parseMaxAge "7d" = Ok 604800000 /\
  (parseMaxAge "2m" = Ok 5184000000 \/
   exists value,
     "2m" = value +:+ "m" /\ 5184000000 = parseInt value * 2592000000 /\
     parseMaxAge "2m" = Throw (mkError "Invalid maxAge format. Use format: 7d or 1w")).
Proof.
  split.
  - apply (proj1 (parseMaxAge_backup_agrees "7d") 604800000). reflexivity.
  - apply (proj2 (parseMaxAge_backup_agrees "2m") 5184000000). reflexivity.
Defined.

(** All four variables set and the three settings present. *)
Lemma validateConfig_after_Config_validate_witness :
  validateConfig (mkSanityEnv (Some "p1") (Some "production") (Some "sk-1") (Some "2024-01-01")) =
  Ok tt.
Proof.
  apply (validateConfig_after_Config_validate
           (mkSanityEnv (Some "p1") (Some "production") (Some "sk-1") (Some "2024-01-01"))
           (JObj [("import", JObj [("batchSize", JNum 0); ("maxRetries", JNum 3)]);
                  ("logging", JObj [("directory", JStr "logs")])])).
  reflexivity.
Defined.

(** The sample file of three categories. *)
Lemma transformFile_records_witness :
  let out := [JObj [("title", JStr "Books"); ("description", JUndefined);
                    ("color", JStr "#FF0000"); ("featuredListing", JUndefined)];
              JObj [("title", JStr "Music"); ("description", JUndefined);
                    ("color", JStr "#00ff00"); ("featuredListing", JUndefined)];
              JObj [("title", JStr "Film"); ("description", JUndefined);
                    ("color", JStr "#"); ("featuredListing", JUndefined)]] in
  exists f items,
    files Sample.world !! "data/categories.csv" = Some f /\
    (if String.eqb (slice1 (toLowerCase Sample.lib (extname Sample.lib "data/categories.csv")))
                   "csv"
     then csv_parse Sample.lib (f_data f) else parseJSON Sample.lib (f_data f)) =
      Ok (JArr items) /\
    length out = length items /\
    forall k item, items !! k = Some item ->
      Forall (has_field item) (requiredFields "category") /\
      exists o, out !! k = Some o /\
        (if String.eqb "category" "listing" then transformListing Sample.lib item
         else transformCategory Sample.lib item) = Ok o.
Proof.
  intros out.
  apply (transformFile_records (Sink := unit) Sample.lib "data/categories.csv" "category"
           Sample.world out
           (transformFile Sample.lib "data/categories.csv" "category" Sample.world).2).
  vm_compute. reflexivity.
Defined.

(** The same file, whose records all have a title. *)
Lemma transformFile_csv_witness :
  exists out w',
    transformFile Sample.lib "data/categories.csv" "category" Sample.world = (Ok out, w') /\
    length out = length Sample.categories_records.
Proof.
  apply (transformFile_csv Sample.lib "data/categories.csv" "category" Sample.world
           (mkFile Sample.categories_csv true Demo.t0) Sample.categories_records).
  - vm_compute. reflexivity.
  - reflexivity.
  - vm_compute. reflexivity.
  - vm_compute. reflexivity.
  - repeat constructor; eexists; (split; [reflexivity|]); repeat constructor; eexists;
      reflexivity.
  - repeat constructor; eexists; (split; [reflexivity|reflexivity]).
Defined.

(** A raw listing with a bare host name, tags in a separated list,
    categories in an array and a number for its images. *)
Lemma transformListing_shape_witness :
  let data :=
    JObj [("title", JStr "Corner Shop"); ("description", JUndefined);
          ("email", JStr "shop@example.org"); ("websiteUrl", JStr "https://example.org");
          ("instagramUrl", JUndefined); ("galleryImages", JArr []);
          ("categories", JArr [JStr "c1"]);
          ("tags", JArr [JStr "books"; JStr "music"; JStr "film"])] in
  (forall field, field ∈ ["websiteUrl"; "instagramUrl"]%string ->
     prop data field = Ok JUndefined \/
     exists s, prop data field = Ok (JStr s) /\ String.prefix "http" s = true) /\
  (forall field, field ∈ ["galleryImages"; "categories"; "tags"]%string ->
     exists elements,
       prop data field = Ok (JArr elements) /\
       array (JArr elements) field = Ok (JArr elements)).
Proof.
  intros data.
  apply (transformListing_shape Sample.lib Sample.raw_listing data).
  vm_compute. reflexivity.
Defined.

(** The category "Music" of the sample file, with colour [00ff00]. *)
Lemma category_color_hex_witness :
  exists c,
    prop (JObj [("title", JStr "Music"); ("color", JStr "00ff00")]) "color" = Ok (JStr c) /\
    let color := if String.prefix "#" c then c else "#" +:+ c in
    is_hex_color color = true /\
    prop (JObj [("_type", JStr "category"); ("title", JStr "Music");
                ("slug", JObj [("_type", JStr "slug"); ("current", JStr "music")]);
                ("description", JUndefined); ("color", JStr "#00ff00");
                ("featuredListing", JUndefined)]) "color" = Ok (JStr color).
Proof.
  apply (category_color_hex (Sink := unit) Sample.lib Sample.fetchDocument
           (JObj [("title", JStr "Music"); ("color", JStr "00ff00")])
           (JObj [("title", JStr "Music"); ("description", JUndefined);
                  ("color", JStr "#00ff00"); ("featuredListing", JUndefined)])
           (JObj [("_type", JStr "category"); ("title", JStr "Music");
                  ("slug", JObj [("_type", JStr "slug"); ("current", JStr "music")]);
                  ("description", JUndefined); ("color", JStr "#00ff00");
                  ("featuredListing", JUndefined)])
           Sample.world Sample.world).
  - vm_compute. reflexivity.
  - vm_compute. reflexivity.
Defined.

(** Three identifiers. *)
Lemma parseCategories_joined_witness :
  parseCategories Sample.lib (JStr (String.concat "," ["c1"; "c2"; "c3"])) =
    JArr (map JStr ["c1"; "c2"; "c3"]) /\
  parseImageUrls Sample.lib (JStr (String.concat "," ["c1"; "c2"; "c3"])) =
    JArr (map JStr ["c1"; "c2"; "c3"]).
Proof.
  apply (parseCategories_joined Sample.lib ["c1"; "c2"; "c3"]).
  repeat constructor; discriminate.
Defined.

(** 120 records, all of them valid, in batches of 50. *)
Lemma ListingImporter_import_commits_nothing_witness :
  exists results w',
    ListingImporter.import Demo.demo_validate 50 (seq 0 120) Demo.fresh_world =
      (Ok results, w') /\
    ListingImporter.success results = 0%nat /\
    ListingImporter.failed results = length (seq 0 120) /\
    (seq 0 120 <> [] -> ListingImporter.errors results <> []).
Proof.
  apply (ListingImporter_import_commits_nothing Demo.demo_validate 50 (seq 0 120)
           Demo.fresh_world).
  - intros item. unfold Demo.demo_validate. by destruct (item <? 1000)%nat.
  - lia.
Defined.

(** 120 records in batches of 50, the last 20 invalid, into a directory
    that can be written. *)
Lemma import_reports_batches_witness :
  exists results w',
    import (recording_env 50) new_ImportManager "records-bad-tail.json" "listing"
      (mkOptions false true) (recording_world true) = (Ok results, w') /\
    let batches :=
      batchesFrom 50 (seq 0 100 ++ seq 1000 20) (length (seq 0 100 ++ seq 1000 20)) 0 in
    Forall2 (reportsBatch Demo.demo_validate 50) (invalidBatches Demo.demo_validate batches)
      (errors results) /\
    failed results = length (concat (map snd (invalidBatches Demo.demo_validate batches))) /\
    (success results + failed results = length (seq 0 100 ++ seq 1000 20))%nat /\
    length (checkpoints results) =
      length (checkpointedBatches Demo.demo_validate 50 batches).
Proof.
  apply (import_reports_batches (recording_env 50) Demo.demo_validate new_ImportManager
           "records-bad-tail.json" "listing" (mkOptions false true)
           (seq 0 100 ++ seq 1000 20) (recording_world true)).
  - reflexivity.
  - intros item. unfold Demo.demo_validate. by destruct (item <? 1000)%nat.
  - simpl. lia.
  - simpl. lia.
  - reflexivity.
  - reflexivity.
  - reflexivity.
  - reflexivity.
Defined.


(** The category checkpoint in the busy directory outlives a run that
    resumes from the listing checkpoint and prunes. *)
Lemma import_keeps_other_files_witness :
  files (import (Demo.demo_env 50) new_ImportManager "records-120.json" "listing"
           (mkOptions true true) Demo.busy_world).2 !!
    path_join "/app/checkpoints" "checkpoint_category_2024-02-01T00-00-00-000Z.json" =
  Some (mkFile "{}" true (Demo.t0 + 31 * 86400000)).
Proof.
  apply (import_keeps_other_files (Demo.demo_env 50) new_ImportManager "records-120.json"
           "listing" (mkOptions true true) Demo.busy_world
           "checkpoint_category_2024-02-01T00-00-00-000Z.json"
           (mkFile "{}" true (Demo.t0 + 31 * 86400000))).
  - reflexivity.
  - reflexivity.
  - vm_compute. reflexivity.
Defined.

(** The category "Music" again, its title between spaces. *)
Lemma category_title_trimmed_witness :
  exists t,
    prop (JObj [("title", JStr " Music "); ("color", JStr "00ff00")]) "title" = Ok (JStr t) /\
    trim Sample.lib t <> EmptyString /\
    prop (JObj [("_type", JStr "category"); ("title", JStr "Music");
                ("slug", JObj [("_type", JStr "slug"); ("current", JStr "music")]);
                ("description", JUndefined); ("color", JStr "#00ff00");
                ("featuredListing", JUndefined)]) "title" = Ok (JStr (trim Sample.lib t)).
Proof.
  apply (category_title_trimmed (Sink := unit) Sample.lib Sample.fetchDocument
           (JObj [("title", JStr " Music "); ("color", JStr "00ff00")])
           (JObj [("title", JStr "Music"); ("description", JUndefined);
                  ("color", JStr "#00ff00"); ("featuredListing", JUndefined)])
           (JObj [("_type", JStr "category"); ("title", JStr "Music");
                  ("slug", JObj [("_type", JStr "slug"); ("current", JStr "music")]);
                  ("description", JUndefined); ("color", JStr "#00ff00");
                  ("featuredListing", JUndefined)])
           Sample.world Sample.world).
  - vm_compute. reflexivity.
  - vm_compute. reflexivity.
Defined.

